(** * The chicken-feed collector (server/backend/server.js)

    A shallow embedding of the collector: the request validation schemas,
    the in-memory [deviceConfigs] map, the three tables of
    database/init.sql, the six HTTP handlers and the once-a-minute
    missed-feeding check; beside them the view [daily_feeding_stats] of
    init.sql and the statistics the dashboard (frontend/src/app/page.tsx)
    puts together from the collector's answer.

    Conventions.
    - Instants (a JavaScript [Date], a PostgreSQL timestamp) are integers:
      milliseconds since the epoch.
    - A request body is a JSON value, as [express.json()] hands it over.
    - Every [await pool.query(...)] is one step against the store; the
      environment says, for the i-th query of an operation, whether the store
      rejects it (the awaited promise rejects and the handler's [catch] runs)
      or executes it, and what [NOW()] reads when it does.
    - An operation (one request, one cron tick) runs to completion before the
      next one starts.
    - A handler is modelled from the parsed request on: what stands in front
      of it (helmet, cors, the body parser, the rate limiter) is not.
    - How the driver writes a [Date] out and how the store reads it back is
      not modelled: an instant stays the instant it is. *)

From Stdlib Require Import ZArith QArith List String Ascii Bool Lia Arith.
From Stdlib Require Import DecimalString DecimalN.
Import ListNotations.

Set Warnings "-register-all".

Local Open Scope string_scope.
Local Open Scope Z_scope.

(** ** JSON values

    An object is the list of its fields; a parsed object has no key twice. *)

Inductive json : Type :=
| JNull
| JBool (b : bool)
| JNum (q : Q)
| JStr (s : string)
| JArr (items : list json)
| JObj (fields : list (string * json)).

(** Property lookup on a parsed object: [obj[key]], [None] for [undefined]. *)
Fixpoint prop (key : string) (fields : list (string * json)) : option json :=
  match fields with
  | [] => None
  | (k, v) :: rest => if String.eqb k key then Some v else prop key rest
  end.

(** ** Strings and dates, as the JavaScript runtime has them *)

Module JS.

(** [Number.prototype.toString()] on a non-negative integer. *)
Definition toString (n : Z) : string :=
  NilZero.string_of_uint (N.to_uint (Z.to_N n)).

Fixpoint repeat0 (n : nat) : string :=
  match n with
  | O => ""
  | S k => String "0" (repeat0 k)
  end.

(** [s.padStart(len, '0')]. *)
Definition padStart0 (len : nat) (s : string) : string :=
  repeat0 (len - String.length s) ++ s.

(** [String.prototype.includes]: [needle] occurs somewhere in [hay]. *)
Fixpoint strIncludes (needle hay : string) : bool :=
  String.prefix needle hay ||
  match hay with
  | EmptyString => false
  | String _ rest => strIncludes needle rest
  end.

(** [Array.prototype.includes] with a string argument: some element is that
    very string. *)
Definition arrIncludes (x : string) (items : list json) : bool :=
  existsb (fun j => match j with JStr s => String.eqb s x | _ => false end) items.

(** [date.getHours()] and [date.getMinutes()]: the fields of the instant in
    the host's zone, [tz] minutes east of UTC. *)
Definition getHours (tz ms : Z) : Z := ((ms + tz * 60000) / 3600000) mod 24.
Definition getMinutes (tz ms : Z) : Z := ((ms + tz * 60000) / 60000) mod 60.

End JS.

(** ** The Joi validators the two schemas are built from

    Joi is a dependency, not part of the repository.  Its recognisers that
    the server relies on but that cannot be written down in a few lines are
    parameters: which values [Joi.date().iso()] accepts, and how a string is
    converted where a number, an array or an object is expected (Joi's
    [convert] option is on by default). *)

Module Joi.

Inductive kind := KNumber | KArray | KObject.

(** A validation error: the offending key and Joi's error code. *)
Record error := mkError { path : string; code : string }.

Inductive presence := required | optional.

Section Validators.
Variable isoDate : json -> bool.
Variable convert : kind -> string -> option json.

Definition asNumber (j : json) : option Q :=
  match j with
  | JNum q => Some q
  | JStr s => match convert KNumber s with Some (JNum q) => Some q | _ => None end
  | _ => None
  end.

Definition asArray (j : json) : option (list json) :=
  match j with
  | JArr l => Some l
  | JStr s => match convert KArray s with Some (JArr l) => Some l | _ => None end
  | _ => None
  end.

Definition isObject (j : json) : bool :=
  match j with
  | JObj _ => true
  | JStr s => match convert KObject s with Some (JObj _) => true | _ => false end
  | _ => false
  end.

(** [Joi.string()]: a string, and not the empty one. *)
Definition string_ (j : json) : option string :=
  match j with
  | JStr EmptyString => Some "string.empty"
  | JStr _ => None
  | _ => Some "string.base"
  end.

(** [Joi.string().valid(v1, ..., vn)]. *)
Definition valid (allowed : list string) (j : json) : option string :=
  match j with
  | JStr s => if existsb (String.eqb s) allowed then None else Some "any.only"
  | _ => Some "any.only"
  end.

(** [Joi.date().iso()]. *)
Definition date_iso (j : json) : option string :=
  if isoDate j then None else Some "date.format".

(** [Joi.object()] with no keys declared: any object. *)
Definition object_ (j : json) : option string :=
  if isObject j then None else Some "object.base".

(** [Joi.string().pattern(re)]. *)
Definition string_pattern (re : string -> bool) (j : json) : option string :=
  match j with
  | JStr EmptyString => Some "string.empty"
  | JStr s => if re s then None else Some "string.pattern.base"
  | _ => Some "string.base"
  end.

(** [Joi.array().items(item)]. *)
Definition array_items (item : json -> option string) (j : json) : option string :=
  match asArray j with
  | None => Some "array.base"
  | Some l => if forallb (fun x => match item x with None => true | Some _ => false end) l
              then None else Some "array.includes"
  end.

(** [Joi.number().min(lo).max(hi)]. *)
Definition number_min_max (lo hi : Q) (j : json) : option string :=
  match asNumber j with
  | None => Some "number.base"
  | Some q => if negb (Qle_bool lo q) then Some "number.min"
              else if negb (Qle_bool q hi) then Some "number.max"
              else None
  end.

(** [Joi.object({ k1: s1, ..., kn: sn })]: the declared keys in order,
    then no key besides them. *)
Definition key_schema : Type := string * presence * (json -> option string).

Fixpoint validate_keys (sch : list key_schema) (fields : list (string * json))
  : option error :=
  match sch with
  | [] => None
  | (k, p, check) :: rest =>
      match prop k fields, p with
      | None, required => Some (mkError k "any.required")
      | None, optional => validate_keys rest fields
      | Some v, _ =>
          match check v with
          | Some c => Some (mkError k c)
          | None => validate_keys rest fields
          end
      end
  end.

Definition declared (sch : list key_schema) (k : string) : bool :=
  existsb (fun ks => String.eqb (fst (fst ks)) k) sch.

Fixpoint unknown_key (sch : list key_schema) (fields : list (string * json))
  : option error :=
  match fields with
  | [] => None
  | (k, _) :: rest =>
      if declared sch k then unknown_key sch rest
      else Some (mkError k "object.unknown")
  end.

(** [schema.validate(body).error] *)
Definition validate (sch : list key_schema) (body : json) : option error :=
  match body with
  | JObj fields =>
      match validate_keys sch fields with
      | Some e => Some e
      | None => unknown_key sch fields
      end
  | _ => Some (mkError "" "object.base")
  end.
End Validators.

End Joi.

(** ** The store: the three tables of database/init.sql *)

Module Pg.

(** [device_configs]: primary key [device_id]. *)
Record ConfigRow := mkConfigRow {
  cfg_device_id : string;
  cfg_feeding_times : json;
  cfg_duration_minutes : json;
  cfg_created_at : Z;
  cfg_updated_at : Z }.

(** [feeding_logs]: [id SERIAL PRIMARY KEY]. *)
Record FeedingLog := mkFeedingLog {
  log_id : Z;
  log_device_id : string;
  log_action : string;
  log_timestamp : Z;
  log_details : json;
  log_created_at : Z }.

(** [missed_feedings]: [id SERIAL PRIMARY KEY],
    [UNIQUE(device_id, scheduled_time)]. *)
Record MissedFeeding := mkMissedFeeding {
  mf_id : Z;
  mf_device_id : string;
  mf_scheduled_time : Z;
  mf_detected_at : Z;
  mf_resolved : bool }.

Record Database := mkDatabase {
  device_configs : list ConfigRow;
  feeding_logs : list FeedingLog;
  missed_feedings : list MissedFeeding;
  feeding_logs_id_seq : Z;
  missed_feedings_id_seq : Z }.

(** A bound query parameter: a JSON-like JavaScript value or a [Date]. *)
Inductive param :=
| PJson (j : json)
| PDate (ms : Z).

(** A result row, as the driver returns it: column name to value. *)
Definition row : Type := list (string * json).

Definition nl : string := String (ascii_of_nat 10) "".

(** The statements the server sends.  The four with fixed text carry their
    bound parameters; the read-only SELECTs of the GET endpoints carry the
    text the handler assembled. *)
Inductive Statement :=
| UpsertDeviceConfig (device_id : string) (feeding_times duration_minutes : json)
| InsertFeedingLog (device_id action : string) (timestamp details : json)
| CountRecentOpens (deviceId : string)
| InsertMissedFeeding (deviceId : string) (now : Z)
| Select (text : string) (params : list param).

Definition sqlText (q : Statement) : string :=
  match q with
  | UpsertDeviceConfig _ _ _ =>
      "INSERT INTO device_configs (device_id, feeding_times, duration_minutes, updated_at)" ++ nl ++
      "       VALUES ($1, $2, $3, NOW())" ++ nl ++
      "       ON CONFLICT (device_id)" ++ nl ++
      "       DO UPDATE SET feeding_times = $2, duration_minutes = $3, updated_at = NOW()"
  | InsertFeedingLog _ _ _ _ =>
      "INSERT INTO feeding_logs (device_id, action, timestamp, details)" ++ nl ++
      "       VALUES ($1, $2, $3, $4)"
  | CountRecentOpens _ =>
      "SELECT COUNT(*) FROM feeding_logs" ++ nl ++
      "           WHERE device_id = $1" ++ nl ++
      "           AND action = 'open'" ++ nl ++
      "           AND timestamp >= NOW() - INTERVAL '5 minutes'"
  | InsertMissedFeeding _ _ =>
      "INSERT INTO missed_feedings (device_id, scheduled_time, detected_at)" ++ nl ++
      "             VALUES ($1, $2, NOW())" ++ nl ++
      "             ON CONFLICT (device_id, scheduled_time) DO NOTHING"
  | Select text _ => text
  end.

Definition sqlParams (q : Statement) : list param :=
  match q with
  | UpsertDeviceConfig d ft dm => [PJson (JStr d); PJson ft; PJson dm]
  | InsertFeedingLog d a ts det => [PJson (JStr d); PJson (JStr a); PJson ts; PJson det]
  | CountRecentOpens d => [PJson (JStr d)]
  | InsertMissedFeeding d now => [PJson (JStr d); PDate now]
  | Select _ ps => ps
  end.

(** [INTERVAL '5 minutes'], in milliseconds. *)
Definition five_minutes : Z := 300000.

(** The WHERE clause of the detector's COUNT query, [NOW()] reading [t]. *)
Definition recent_open (deviceId : string) (t : Z) (r : FeedingLog) : bool :=
  String.eqb (log_device_id r) deviceId
  && String.eqb (log_action r) "open"
  && (t - five_minutes <=? log_timestamp r).

Definition count_recent_opens (deviceId : string) (t : Z) (d : Database) : Z :=
  Z.of_nat (List.length (filter (recent_open deviceId t) (feeding_logs d))).

(** The conflict target of the detector's INSERT. *)
Definition same_incident (deviceId : string) (scheduled : Z) (r : MissedFeeding) : bool :=
  String.eqb (mf_device_id r) deviceId && (mf_scheduled_time r =? scheduled).

Definition upsert_config (device_id : string) (ft dm : json) (t : Z)
  (rows : list ConfigRow) : list ConfigRow :=
  if existsb (fun r => String.eqb (cfg_device_id r) device_id) rows
  then map (fun r => if String.eqb (cfg_device_id r) device_id
                     then mkConfigRow device_id ft dm (cfg_created_at r) t
                     else r) rows
  else rows ++ [mkConfigRow device_id ft dm t t].

(** [INSERT INTO missed_feedings ... ON CONFLICT (device_id, scheduled_time)
    DO NOTHING]: a new row with the next id, [detected_at = NOW()] and
    [resolved] at its default, unless a row with that device and scheduled
    time is there.  The id sequence advances either way. *)
Definition insert_missed (deviceId : string) (now t : Z) (d : Database) : Database :=
  mkDatabase (device_configs d) (feeding_logs d)
    (if existsb (same_incident deviceId now) (missed_feedings d)
     then missed_feedings d
     else missed_feedings d ++
            [mkMissedFeeding (missed_feedings_id_seq d) deviceId now t false])
    (feeding_logs_id_seq d) (missed_feedings_id_seq d + 1).

(** The view [daily_feeding_stats] (init.sql, lines 39-49): one row for
    every device and day with at least one event. *)

(** [DATE(ts)]: the day an instant falls on, counted from the epoch. *)
Definition DATE (ts : Z) : Z := ts / 86400000.

Record DailyFeedingStats := mkDailyFeedingStats {
  dfs_device_id : string;
  dfs_date : Z;
  total_opens : Z;
  total_closes : Z;
  total_errors : Z;
  first_feeding : option Z;
  last_feeding : option Z }.

(** [GROUP BY device_id, DATE(timestamp)] *)
Definition group_key (r : FeedingLog) : string * Z :=
  (log_device_id r, DATE (log_timestamp r)).

Definition key_eqb (k1 k2 : string * Z) : bool :=
  String.eqb (fst k1) (fst k2) && (snd k1 =? snd k2).

(** The groups that occur, each once, in the order of their first row (SQL
    leaves the order of the view's rows open). *)
Fixpoint group_keys (logs : list FeedingLog) : list (string * Z) :=
  match logs with
  | [] => []
  | r :: rest =>
      group_key r :: filter (fun k => negb (key_eqb k (group_key r))) (group_keys rest)
  end.

Definition has_action (a : string) (r : FeedingLog) : bool := String.eqb (log_action r) a.

(** [COUNT(CASE WHEN action = a THEN 1 END)]: the rows where the CASE is not
    NULL. *)
Definition count_case (a : string) (g : list FeedingLog) : Z :=
  Z.of_nat (List.length (filter (has_action a) g)).

(** [CASE WHEN action = a THEN timestamp END] over the rows, NULLs left out. *)
Definition case_timestamps (a : string) (g : list FeedingLog) : list Z :=
  map log_timestamp (filter (has_action a) g).

(** [MIN] and [MAX]: NULL when there is no value to aggregate. *)
Definition aggregate (pick : Z -> Z -> Z) (vals : list Z) : option Z :=
  match vals with
  | [] => None
  | v :: rest => Some (fold_left pick rest v)
  end.

Definition in_group (k : string * Z) (r : FeedingLog) : bool := key_eqb (group_key r) k.

Definition stats_of_group (logs : list FeedingLog) (k : string * Z) : DailyFeedingStats :=
  let g := filter (in_group k) logs in
  mkDailyFeedingStats (fst k) (snd k)
    (count_case "open" g) (count_case "close" g) (count_case "error" g)
    (aggregate Z.min (case_timestamps "open" g))
    (aggregate Z.max (case_timestamps "close" g)).

Definition daily_feeding_stats (d : Database) : list DailyFeedingStats :=
  map (stats_of_group (feeding_logs d)) (group_keys (feeding_logs d)).

Section Exec.
(** How the store reads a bound value as a [TIMESTAMP]; [None] when it
    cannot, and the statement fails. *)
Variable pgTimestamp : json -> option Z.
(** The store's evaluation of a read-only SELECT at [NOW() = t]; [None]
    when the statement is in error. *)
Variable pgSelect : string -> list param -> Z -> Database -> option (list row).

(** One statement executed at [NOW() = t]: the rows returned and the
    tables afterwards, or [None] when the store raises an error. *)
Definition exec (q : Statement) (t : Z) (d : Database) : option (list row * Database) :=
  match q with
  | UpsertDeviceConfig device_id ft dm =>
      Some ([], mkDatabase (upsert_config device_id ft dm t (device_configs d))
                           (feeding_logs d) (missed_feedings d)
                           (feeding_logs_id_seq d) (missed_feedings_id_seq d))
  | InsertFeedingLog device_id action ts details =>
      match pgTimestamp ts with
      | None => None
      | Some z =>
          Some ([], mkDatabase (device_configs d)
                      (feeding_logs d ++
                         [mkFeedingLog (feeding_logs_id_seq d) device_id action z details t])
                      (missed_feedings d)
                      (feeding_logs_id_seq d + 1) (missed_feedings_id_seq d))
      end
  | CountRecentOpens deviceId =>
      Some ([[("count", JStr (JS.toString (count_recent_opens deviceId t d)))]], d)
  | InsertMissedFeeding deviceId now =>
      Some ([], insert_missed deviceId now t d)
  | Select text ps =>
      match pgSelect text ps t d with
      | None => None
      | Some rows => Some (rows, d)
      end
  end.
End Exec.

End Pg.

(** ** The server process *)

(** An entry of the [deviceConfigs] map (server.js, lines 87-91). *)
Record DeviceConfig := mkDeviceConfig {
  feeding_times : json;
  duration_minutes : json;
  last_update : Z }.

Inductive level := info | warn | error.

(** What the process owns: the in-memory map (a JavaScript [Map], which
    iterates in insertion order), the store behind [pool], and the lines
    written through [logger]. *)
Record World := mkWorld {
  deviceConfigs : list (string * DeviceConfig);
  db : Pg.Database;
  logger : list (level * string) }.

(** What one operation finds around it: the value of [new Date()], the host's
    zone offset in minutes east of UTC, and for the i-th query of the
    operation either [None] (the store rejects it) or [Some t] (it runs,
    [NOW()] reading [t]). *)
Record Env := mkEnv {
  clock : Z;
  tzOffset : Z;
  store : nat -> option Z }.

Inductive exn := DbError | TypeError.

Inductive Result (A : Type) : Type :=
| Ok (a : A)
| Throw (e : exn).
Arguments Ok {A} a.
Arguments Throw {A} e.

(** The running operation: the world and the queries sent so far. *)
Record Exec := mkExec {
  world : World;
  issued : list Pg.Statement }.

(** A computation that reads the environment, changes the world and either
    returns or throws; what it changed before throwing stays changed. *)
Definition M (A : Type) : Type := Env -> Exec -> Result A * Exec.

Definition ret {A} (a : A) : M A := fun _ x => (Ok a, x).

Definition bind {A B} (m : M A) (k : A -> M B) : M B :=
  fun env x =>
    match m env x with
    | (Ok a, x') => k a env x'
    | (Throw e, x') => (Throw e, x')
    end.

Definition throw {A} (e : exn) : M A := fun _ x => (Throw e, x).

(** [try { m } catch (e) { handler e }] *)
Definition tryCatch {A} (m : M A) (handler : exn -> M A) : M A :=
  fun env x =>
    match m env x with
    | (Ok a, x') => (Ok a, x')
    | (Throw e, x') => handler e env x'
    end.

Declare Scope js_scope.
Delimit Scope js_scope with js.
Notation "x <- m ;; k" := (bind m (fun x => k))
  (at level 61, m at next level, right associativity) : js_scope.
Notation "m ;; k" := (bind m (fun _ => k))
  (at level 61, right associativity) : js_scope.
Local Open Scope js_scope.

(** [for (const x of xs) { body x }] *)
Fixpoint forEach {A} (xs : list A) (body : A -> M unit) : M unit :=
  match xs with
  | [] => ret tt
  | x :: rest => body x ;; forEach rest body
  end.

Definition newDate : M Z := fun env x => (Ok (clock env), x).
Definition hostZone : M Z := fun env x => (Ok (tzOffset env), x).

Definition log (l : level) (msg : string) : M unit :=
  fun _ x =>
    let w := world x in
    (Ok tt, mkExec (mkWorld (deviceConfigs w) (db w) (logger w ++ [(l, msg)])) (issued x)).

(** [map.set(key, value)]: an existing key keeps its place. *)
Fixpoint mapSet {V} (key : string) (v : V) (m : list (string * V)) : list (string * V) :=
  match m with
  | [] => [(key, v)]
  | (k, v0) :: rest =>
      if String.eqb k key then (k, v) :: rest else (k, v0) :: mapSet key v rest
  end.

Definition deviceConfigs_set (key : string) (v : DeviceConfig) : M unit :=
  fun _ x =>
    let w := world x in
    (Ok tt, mkExec (mkWorld (mapSet key v (deviceConfigs w)) (db w) (logger w)) (issued x)).

Definition deviceConfigs_entries : M (list (string * DeviceConfig)) :=
  fun _ x => (Ok (deviceConfigs (world x)), x).

(** [HH:MM] of the instant on the host's clock face (server.js, line 230). *)
Definition currentTime (tz now : Z) : string :=
  JS.padStart0 2 (JS.toString (JS.getHours tz now)) ++ ":" ++
  JS.padStart0 2 (JS.toString (JS.getMinutes tz now)).

(** The pattern of the config schema: [/^([01]\d|2[0-3]):([0-5]\d)$/]. *)
Definition between (lo hi c : ascii) : bool :=
  (nat_of_ascii lo <=? nat_of_ascii c)%nat && (nat_of_ascii c <=? nat_of_ascii hi)%nat.

Definition hhmm (s : string) : bool :=
  match s with
  | String a (String b (String colon (String c (String d EmptyString)))) =>
      ((between "0" "1" a && between "0" "9" b) || (Ascii.eqb a "2" && between "0" "3" b))
      && Ascii.eqb colon ":"
      && between "0" "5" c && between "0" "9" d
  | _ => false
  end.

(** JavaScript truthiness of a JSON value. *)
Definition truthy (j : json) : bool :=
  match j with
  | JNull => false
  | JBool b => b
  | JNum q => negb (Qeq_bool q 0)
  | JStr s => negb (String.eqb s "")
  | JArr _ | JObj _ => true
  end.

(** A destructured property that the schema has already checked to be a string. *)
Definition str (v : option json) : string :=
  match v with Some (JStr s) => s | _ => "" end.

(** A destructured property passed on as it is ([undefined] goes out as null). *)
Definition val (v : option json) : json :=
  match v with Some j => j | None => JNull end.

Definition field (key : string) (body : json) : option json :=
  match body with JObj fields => prop key fields | _ => None end.

(** Response bodies, by shape. *)
Inductive ResBody :=
| Healthy (timestamp : Z)
| ValidationError (e : Joi.error)
| InternalServerError
| Success (message : option string)
| Rows (rows : list Pg.row)
| Stats (feeding_stats missed_feedings : list Pg.row).

Record Response := mkResponse { status : Z; body : ResBody }.

Inductive Request :=
| GetHealth
| PostDeviceConfig (body : json)
| PostFeedingLog (body : json)
| GetFeedingLogs (device_id : string) (start_date end_date limit : option string)
| GetMissed (device_id : string) (date : option string)
| GetStats (device_id : string) (days : option string).

Inductive Op :=
| Http (r : Request)
| CronTick.

(** ** The dashboard's statistics (frontend/src/app/page.tsx) *)

Module Dashboard.

(** [a === b] on two values read out of the parsed response ([None] for
    [undefined]).  Objects and arrays are compared by identity, and two of
    them found at different places of a parsed response are never the same. *)
Definition strictEq (a b : option json) : bool :=
  match a, b with
  | None, None => true
  | Some JNull, Some JNull => true
  | Some (JBool x), Some (JBool y) => Bool.eqb x y
  | Some (JNum x), Some (JNum y) => Qeq_bool x y
  | Some (JStr x), Some (JStr y) => String.eqb x y
  | _, _ => false
  end.

(** [statsResponse.data.missed_feedings.find((m) => m.date === stat.date)] *)
Definition missedData (missed_feedings : list Pg.row) (stat : Pg.row) : option Pg.row :=
  find (fun m => strictEq (prop "date" m) (prop "date" stat)) missed_feedings.

(** [missedData?.missed_count || 0] *)
Definition missedCount (found : option Pg.row) : json :=
  match found with
  | None => JNum 0
  | Some m =>
      match prop "missed_count" m with
      | Some v => if truthy v then v else JNum 0
      | None => JNum 0
      end
  end.

(** [combinedStats] (lines 92-100): every row of [feeding_stats] with a
    [missed] property set beside its own. *)
Definition combinedStats (feeding_stats missed_feedings : list Pg.row) : list Pg.row :=
  map (fun stat => mapSet "missed" (missedCount (missedData missed_feedings stat)) stat)
      feeding_stats.

End Dashboard.

(** ** A coop, a schedule and a day

    Data for the concrete runs further down.  The parameters of the server
    are fixed to the little those runs need: Joi accepts as an ISO date, and
    the store reads as a timestamp, the one string that occurs; no string is
    converted; every SELECT of a GET endpoint returns no row.  Day 0 is
    1970-01-01; instants are milliseconds into it. *)

Module Coop.

Definition stamp1157 : string := "1970-01-01T11:57:00.000Z".

Definition isoDate (j : json) : bool :=
  match j with JStr s => String.eqb s stamp1157 | _ => false end.

Definition convert (k : Joi.kind) (s : string) : option json := None.

Definition pgTimestamp (j : json) : option Z :=
  match j with
  | JStr s => if String.eqb s stamp1157 then Some 43020000 else None
  | _ => None
  end.

Definition pgSelect (text : string) (ps : list Pg.param) (t : Z) (d : Pg.Database)
  : option (list Pg.row) := Some [].

Definition toISODate (ms : Z) : string := "1970-01-01".

Definition emptyDb : Pg.Database := Pg.mkDatabase [] [] [] 1 1.

(** {device_id: "coop", feeding_times: ["12:00"], duration_minutes: 30} *)
Definition configBody : json :=
  JObj [("device_id", JStr "coop");
        ("feeding_times", JArr [JStr "12:00"]);
        ("duration_minutes", JNum (30#1))].

(** {device_id: "coop", action: "open", timestamp: "1970-01-01T11:57:00.000Z"} *)
Definition openBody : json :=
  JObj [("device_id", JStr "coop");
        ("action", JStr "open");
        ("timestamp", JStr stamp1157)].

Definition noon : Z := 43200000.
Definition minute : Z := 60000.

(** The store is reachable and its clock agrees with the host's. *)
Definition up (now tz : Z) : Env := mkEnv now tz (fun _ => Some now).

(** The store rejects every query. *)
Definition down (now tz : Z) : Env := mkEnv now tz (fun _ => None).

(** The detector's ticks from 12:00 to 12:06, each [ms] after the minute, on a
    host on UTC. *)
Definition ticksNoonTo1206 (ms : Z) : list (Op * Env) :=
  map (fun k => (CronTick, up (noon + k * minute + ms) 0)) [0; 1; 2; 3; 4; 5; 6].

(** The coop registers at 08:00. *)
Definition registeredAt8 : list (Op * Env) :=
  [(Http (PostDeviceConfig configBody), up 28800000 0)].

(** ... and reports at 11:57:01 an [open] stamped 11:57:00. *)
Definition fedAt1157 : list (Op * Env) :=
  [(Http (PostDeviceConfig configBody), up 28800000 0);
   (Http (PostFeedingLog openBody), up 43021000 0)].

Definition coopEntry : DeviceConfig :=
  mkDeviceConfig (JArr [JStr "12:00"]) (JNum (30#1)) 28800000.

(** The world once the coop has registered. *)
Definition registeredWorld : World :=
  mkWorld [("coop", coopEntry)]
    (Pg.mkDatabase
       [Pg.mkConfigRow "coop" (JArr [JStr "12:00"]) (JNum (30#1)) 28800000 28800000]
       [] [] 1 1)
    [(info, "Device config updated: coop")].

(** A tick a quarter of a second after noon, host on UTC. *)
Definition tickEnv : Env := up (noon + 250) 0.

(** The world after that tick. *)
Definition afterTick : World :=
  mkWorld [("coop", coopEntry)]
    (Pg.mkDatabase
       [Pg.mkConfigRow "coop" (JArr [JStr "12:00"]) (JNum (30#1)) 28800000 28800000]
       []
       [Pg.mkMissedFeeding 1 "coop" (noon + 250) (noon + 250) false]
       1 2)
    [(info, "Device config updated: coop");
     (warn, "Missed feeding detected for device: coop at 12:00")].

(** A tick at noon during which the store goes away: it answers the COUNT
    and rejects what follows. *)
Definition lostMidTick : Env :=
  mkEnv noon 0 (fun i => match i with O => Some noon | S _ => None end).

(** The dashboard's requests for the coop (page.tsx, lines 81-107). *)
Definition dashboardLogs : Request := GetFeedingLogs "coop" None None (Some "50").
Definition dashboardStats : Request := GetStats "coop" (Some "7").

(** The row of the view for the coop on day 0, once the 11:57 event is in. *)
Definition fedStats : Pg.DailyFeedingStats :=
  Pg.mkDailyFeedingStats "coop" 0 1 0 0 (Some 43020000) None.

End Coop.

Section Server.

(** The parts of the dependencies taken as given: Joi's ISO-8601 date
    recogniser and string conversions, PostgreSQL's reading of a bound
    timestamp and its evaluation of read-only SELECTs, and
    [date.toISOString().split('T')[0]]. *)
Variable isoDate : json -> bool.
Variable convert : Joi.kind -> string -> option json.
Variable pgTimestamp : json -> option Z.
Variable pgSelect : string -> list Pg.param -> Z -> Pg.Database -> option (list Pg.row).
Variable toISODate : Z -> string.

(** [await pool.query(text, params)]: the query is sent; the store rejects
    it, or runs it and returns its rows. *)
Definition pool_query (q : Pg.Statement) : M (list Pg.row) :=
  fun env x =>
    let w := world x in
    let sent := (issued x ++ [q])%list in
    match store env (List.length (issued x)) with
    | None => (Throw DbError, mkExec w sent)
    | Some t =>
        match Pg.exec pgTimestamp pgSelect q t (db w) with
        | None => (Throw DbError, mkExec w sent)
        | Some (rows, d) => (Ok rows, mkExec (mkWorld (deviceConfigs w) d (logger w)) sent)
        end
    end.

(** server.js, lines 53-58 *)
Definition feedingLogSchema : list Joi.key_schema :=
  [ ("device_id", Joi.required, Joi.string_);
    ("action", Joi.required, Joi.valid ["open"; "close"; "error"; "startup"; "shutdown"]);
    ("timestamp", Joi.required, Joi.date_iso isoDate);
    ("details", Joi.optional, Joi.object_ convert) ].

(** server.js, lines 60-64 *)
Definition configUpdateSchema : list Joi.key_schema :=
  [ ("device_id", Joi.required, Joi.string_);
    ("feeding_times", Joi.required, Joi.array_items convert (Joi.string_pattern hhmm));
    ("duration_minutes", Joi.required, Joi.number_min_max convert (1#1) (120#1)) ].

(** GET /api/health (lines 72-74) *)
Definition getHealth : M Response :=
  now <- newDate ;;
  ret (mkResponse 200 (Healthy now)).

(** POST /api/device/config (lines 77-108) *)
Definition postDeviceConfig (body : json) : M Response :=
  tryCatch
    (match Joi.validate configUpdateSchema body with
     | Some e => ret (mkResponse 400 (ValidationError e))
     | None =>
         let device_id := str (field "device_id" body) in
         let feeding_times := val (field "feeding_times" body) in
         let duration_minutes := val (field "duration_minutes" body) in
         now <- newDate ;;
         deviceConfigs_set device_id (mkDeviceConfig feeding_times duration_minutes now) ;;
         pool_query (Pg.UpsertDeviceConfig device_id feeding_times duration_minutes) ;;
         log info ("Device config updated: " ++ device_id) ;;
         ret (mkResponse 200 (Success (Some "Configuration updated")))
     end)
    (fun _ =>
       log error "Error updating device config:" ;;
       ret (mkResponse 500 InternalServerError)).

(** [details || {}] *)
Definition orEmptyObject (v : option json) : json :=
  match v with
  | Some j => if truthy j then j else JObj []
  | None => JObj []
  end.

(** POST /api/feeding/log (lines 111-132) *)
Definition postFeedingLog (body : json) : M Response :=
  tryCatch
    (match Joi.validate feedingLogSchema body with
     | Some e => ret (mkResponse 400 (ValidationError e))
     | None =>
         let device_id := str (field "device_id" body) in
         let action := str (field "action" body) in
         let timestamp := val (field "timestamp" body) in
         let details := field "details" body in
         pool_query (Pg.InsertFeedingLog device_id action timestamp (orEmptyObject details)) ;;
         log info ("Feeding event logged: " ++ device_id ++ " - " ++ action) ;;
         ret (mkResponse 200 (Success None))
     end)
    (fun _ =>
       log error "Error logging feeding event:" ;;
       ret (mkResponse 500 InternalServerError)).

(** [if (v)] on a query-string value. *)
Definition given (v : option string) : bool :=
  match v with
  | Some s => negb (String.eqb s "")
  | None => false
  end.

(** [$${params.length + 1}] *)
Definition placeholder (params : list Pg.param) : string :=
  "$" ++ JS.toString (Z.of_nat (List.length params) + 1).

(** The text and parameters assembled by GET /api/feeding/logs (lines 140-157). *)
Definition feedingLogsQuery (device_id : string) (start_date end_date limit : option string)
  : string * list Pg.param :=
  let query := Pg.nl ++ "      SELECT * FROM feeding_logs" ++ Pg.nl ++
               "      WHERE device_id = $1" ++ Pg.nl ++ "    " in
  let params := [Pg.PJson (JStr device_id)] in
  let '(query, params) :=
    if given start_date
    then (query ++ " AND timestamp >= " ++ placeholder params,
          (params ++ [Pg.PJson (val (option_map JStr start_date))])%list)
    else (query, params) in
  let '(query, params) :=
    if given end_date
    then (query ++ " AND timestamp <= " ++ placeholder params,
          (params ++ [Pg.PJson (val (option_map JStr end_date))])%list)
    else (query, params) in
  (query ++ " ORDER BY timestamp DESC LIMIT " ++ placeholder params,
   (params ++ [Pg.PJson (match limit with Some s => JStr s | None => JNum (100#1) end)])%list).

(** GET /api/feeding/logs/:device_id (lines 135-165) *)
Definition getFeedingLogs (device_id : string) (start_date end_date limit : option string)
  : M Response :=
  tryCatch
    (let '(query, params) := feedingLogsQuery device_id start_date end_date limit in
     rows <- pool_query (Pg.Select query params) ;;
     ret (mkResponse 200 (Rows rows)))
    (fun _ =>
       log error "Error fetching logs:" ;;
       ret (mkResponse 500 InternalServerError)).

Definition missedSql : string :=
  "SELECT * FROM missed_feedings" ++ Pg.nl ++
  "       WHERE device_id = $1 AND DATE(scheduled_time) = $2" ++ Pg.nl ++
  "       ORDER BY scheduled_time".

(** GET /api/feeding/missed/:device_id (lines 168-185) *)
Definition getMissed (device_id : string) (date : option string) : M Response :=
  tryCatch
    (now <- newDate ;;
     let date := match date with Some s => s | None => toISODate now end in
     rows <- pool_query (Pg.Select missedSql [Pg.PJson (JStr device_id); Pg.PJson (JStr date)]) ;;
     ret (mkResponse 200 (Rows rows)))
    (fun _ =>
       log error "Error fetching missed feedings:" ;;
       ret (mkResponse 500 InternalServerError)).

(** [`${days}`] with [const { days = 7 } = req.query]. *)
Definition daysText (days : option string) : string :=
  match days with
  | Some s => s
  | None => JS.toString 7
  end.

(** The first statistics query (lines 194-203): the text before the
    interval literal, the literal with [${days}] inside, the text after. *)
Definition statsSqlHead : string :=
  "SELECT" ++ Pg.nl ++
  "        DATE(timestamp) as date," ++ Pg.nl ++
  "        COUNT(CASE WHEN action = 'open' THEN 1 END) as opens," ++ Pg.nl ++
  "        COUNT(CASE WHEN action = 'close' THEN 1 END) as closes," ++ Pg.nl ++
  "        COUNT(CASE WHEN action = 'error' THEN 1 END) as errors" ++ Pg.nl ++
  "       FROM feeding_logs" ++ Pg.nl ++
  "       WHERE device_id = $1" ++ Pg.nl ++
  "       AND timestamp >= NOW() - ".

Definition statsSqlTail : string :=
  Pg.nl ++
  "       GROUP BY DATE(timestamp)" ++ Pg.nl ++
  "       ORDER BY date DESC".

Definition statsSql (days : option string) : string :=
  statsSqlHead ++ "INTERVAL '" ++ daysText days ++ " days'" ++ statsSqlTail.

(** The second statistics query (lines 208-212). *)
Definition missedStatsSqlHead : string :=
  "SELECT DATE(scheduled_time) as date, COUNT(*) as missed_count" ++ Pg.nl ++
  "       FROM missed_feedings" ++ Pg.nl ++
  "       WHERE device_id = $1" ++ Pg.nl ++
  "       AND scheduled_time >= NOW() - ".

Definition missedStatsSqlTail : string :=
  Pg.nl ++
  "       GROUP BY DATE(scheduled_time)".

Definition missedStatsSql (days : option string) : string :=
  missedStatsSqlHead ++ "INTERVAL '" ++ daysText days ++ " days'" ++ missedStatsSqlTail.

(** GET /api/stats/:device_id (lines 188-224) *)
Definition getStats (device_id : string) (days : option string) : M Response :=
  tryCatch
    (stats <- pool_query (Pg.Select (statsSql days) [Pg.PJson (JStr device_id)]) ;;
     missed <- pool_query (Pg.Select (missedStatsSql days) [Pg.PJson (JStr device_id)]) ;;
     ret (mkResponse 200 (Stats stats missed)))
    (fun _ =>
       log error "Error fetching statistics:" ;;
       ret (mkResponse 500 InternalServerError)).

(** [config.feeding_times.includes(currentTime)]: on an array the element
    test, on a string the substring test; anything else has no such method. *)
Definition includes (ft : json) (x : string) : M bool :=
  match ft with
  | JArr items => ret (JS.arrIncludes x items)
  | JStr s => ret (JS.strIncludes x s)
  | _ => throw TypeError
  end.

(** [result.rows[0].count === '0'] *)
Definition countIsZero (rows : list Pg.row) : M bool :=
  match rows with
  | [] => throw TypeError
  | r :: _ => ret (match prop "count" r with
                   | Some (JStr s) => String.eqb s "0"
                   | _ => false
                   end)
  end.

(** The body of the detector's loop (lines 233-254). *)
Definition checkDevice (now : Z) (currentTime : string) (entry : string * DeviceConfig)
  : M unit :=
  let '(deviceId, config) := entry in
  due <- includes (feeding_times config) currentTime ;;
  if due : bool then
    result <- pool_query (Pg.CountRecentOpens deviceId) ;;
    none <- countIsZero result ;;
    if none : bool then
      pool_query (Pg.InsertMissedFeeding deviceId now) ;;
      log warn ("Missed feeding detected for device: " ++ deviceId ++ " at " ++ currentTime)
    else ret tt
  else ret tt.

(** The cron callback (lines 227-259). *)
Definition cronTick : M unit :=
  tryCatch
    (now <- newDate ;;
     tz <- hostZone ;;
     let currentTime := currentTime tz now in
     entries <- deviceConfigs_entries ;;
     forEach entries (checkDevice now currentTime))
    (fun _ => log error "Error checking for missed feedings:").

Definition handle (r : Request) : M Response :=
  match r with
  | GetHealth => getHealth
  | PostDeviceConfig body => postDeviceConfig body
  | PostFeedingLog body => postFeedingLog body
  | GetFeedingLogs d s e l => getFeedingLogs d s e l
  | GetMissed d date => getMissed d date
  | GetStats d days => getStats d days
  end.

(** One operation from start to end: what it answered ([None] for the cron
    tick, which answers nobody), whether something was thrown out of it, the
    queries it sent, and the world it leaves. *)
Definition operation (o : Op) : M (option Response) :=
  match o with
  | Http r => resp <- handle r ;; ret (Some resp)
  | CronTick => cronTick ;; ret None
  end.

Definition run {A} (m : M A) (env : Env) (w : World) : Result A * Exec :=
  m env (mkExec w []).

Definition step (o : Op) (env : Env) (w : World) : World :=
  world (snd (run (operation o) env w)).

(** A history of the process: operations, each with its environment. *)
Fixpoint steps (h : list (Op * Env)) (w : World) : World :=
  match h with
  | [] => w
  | (o, env) :: rest => steps rest (step o env w)
  end.

(** The process as it starts (line 67): an empty map over whatever the
    store holds. *)
Definition boot (d : Pg.Database) : World := mkWorld [] d [].

(** ** The process and its pool

    [pool] is created in lines 28-31 and used for nothing but [pool.query]:
    no ['error'] listener is ever registered on it.  The pool emits ['error']
    when the store drops a connection that idles in it; an emitter with no
    listener for ['error'] throws the error, and nothing in server.js
    catches what is thrown outside the callbacks, so the process ends. *)

(** The listeners of [pool.on('error', ...)]: server.js has no such call. *)
Definition poolErrorListeners : list (M unit) := [].

(** [emitter.emit('error', err)]: with no listener, [err] is thrown. *)
Definition emitError {L} (listeners : list L) : Result unit :=
  match listeners with
  | [] => Throw DbError
  | _ :: _ => Ok tt
  end.

Inductive Process :=
| Running (w : World)
| Exited.

(** What the event loop takes up: a request or a tick of the cron, or the
    pool's ['error'] for an idle connection the store has dropped. *)
Inductive Event :=
| Handled (o : Op) (env : Env)
| IdleClientError.

(** One turn of the event loop.  The callback of a request or of the cron
    ends inside its own [try]/[catch]; what [emit] throws ends the process. *)
Definition turn (ev : Event) (p : Process) : Process :=
  match p with
  | Exited => Exited
  | Running w =>
      match ev with
      | Handled o env => Running (step o env w)
      | IdleClientError =>
          match emitError poolErrorListeners with
          | Ok _ => Running w
          | Throw _ => Exited
          end
      end
  end.

Fixpoint turns (evs : list Event) (p : Process) : Process :=
  match evs with
  | [] => p
  | ev :: rest => turns rest (turn ev p)
  end.

(** What a client gets for a request: nothing from a process that has ended. *)
Definition served (r : Request) (env : Env) (p : Process) : option Response :=
  match p with
  | Exited => None
  | Running w =>
      match fst (run (handle r) env w) with
      | Ok resp => Some resp
      | Throw _ => None
      end
  end.

(** Whether the cron's callback runs: not in a process that has ended. *)
Definition ticks (p : Process) : bool :=
  match p with
  | Exited => false
  | Running _ => true
  end.

Definition isHandled (ev : Event) : bool :=
  match ev with
  | Handled _ _ => true
  | IdleClientError => false
  end.

(** ** The notions the properties are stated with *)

(** A relation between the running operation before and after a computation
    that holds whichever way the computation ends, in every environment of a
    given kind. *)
Definition preserves {A} (E : Env -> Prop) (R : Exec -> Exec -> Prop) (m : M A) : Prop :=
  forall env x, E env -> R x (snd (m env x)).

(** The schedule test of the detector, as a plain function: [true] when
    [feeding_times] includes the time. *)
Definition isDue (cur : string) (config : DeviceConfig) : bool :=
  match feeding_times config with
  | JArr items => JS.arrIncludes cur items
  | JStr s => JS.strIncludes cur s
  | _ => false
  end.

(** The one request whose handler writes to the map. *)
Definition writesMap (r : Request) : bool :=
  match r with PostDeviceConfig _ => true | _ => false end.

Definition anyEnv (env : Env) : Prop := True.

(** The event log has kept its rows, in place, and may have gained some. *)
Definition logs_kept (x x' : Exec) : Prop :=
  exists appended,
    Pg.feeding_logs (db (world x')) = (Pg.feeding_logs (db (world x)) ++ appended)%list.

Definition incident_key (r : Pg.MissedFeeding) : string * Z :=
  (Pg.mf_device_id r, Pg.mf_scheduled_time r).

(** The constraint [UNIQUE(device_id, scheduled_time)] of init.sql. *)
Definition keys_unique (rows : list Pg.MissedFeeding) : Prop :=
  NoDup (map incident_key rows).

Definition has_incident (d : string) (scheduled : Z) (rows : list Pg.MissedFeeding) : bool :=
  existsb (Pg.same_incident d scheduled) rows.

(** The constraint, once it holds, still holds. *)
Definition unique_kept (x x' : Exec) : Prop :=
  keys_unique (Pg.missed_feedings (db (world x))) ->
  keys_unique (Pg.missed_feedings (db (world x'))).

(** Every due device already has its incident for the instant [now]. *)
Definition incidents_present (now : Z) (cur : string)
  (entries : list (string * DeviceConfig)) (x : Exec) : Prop :=
  forall d config, In (d, config) entries -> isDue cur config = true ->
    has_incident d now (Pg.missed_feedings (db (world x))) = true.

(** The incident table stays as it is when every due device has its incident. *)
Definition table_kept (now : Z) (cur : string)
  (entries : list (string * DeviceConfig)) (x x' : Exec) : Prop :=
  incidents_present now cur entries x ->
  Pg.missed_feedings (db (world x')) = Pg.missed_feedings (db (world x)).

(** The map, the configuration table and the event log are as before; the
    incident table has gained rows, each satisfying [P]; the queries sent
    each satisfy [Q]. *)
Definition tick_effect (P : Pg.MissedFeeding -> Prop) (Q : Pg.Statement -> Prop)
  (x x' : Exec) : Prop :=
  deviceConfigs (world x') = deviceConfigs (world x)
  /\ Pg.device_configs (db (world x')) = Pg.device_configs (db (world x))
  /\ Pg.feeding_logs (db (world x')) = Pg.feeding_logs (db (world x))
  /\ (exists new,
        Pg.missed_feedings (db (world x')) = (Pg.missed_feedings (db (world x)) ++ new)%list
        /\ Forall P new)
  /\ (exists sent, issued x' = (issued x ++ sent)%list /\ Forall Q sent).

(** A row the tick of [env] over the map [entries] may add. *)
Definition recorded_by (env : Env) (entries : list (string * DeviceConfig))
  (r : Pg.MissedFeeding) : Prop :=
  Pg.mf_scheduled_time r = clock env
  /\ Pg.mf_resolved r = false
  /\ (exists i, store env i = Some (Pg.mf_detected_at r))
  /\ exists config, In (Pg.mf_device_id r, config) entries
                    /\ isDue (currentTime (tzOffset env) (clock env)) config = true.

(** A query the tick of [env] over the map [entries] may send. *)
Definition sent_by (env : Env) (entries : list (string * DeviceConfig))
  (q : Pg.Statement) : Prop :=
  exists d config, In (d, config) entries
    /\ isDue (currentTime (tzOffset env) (clock env)) config = true
    /\ (q = Pg.CountRecentOpens d \/ q = Pg.InsertMissedFeeding d (clock env)).

(** The instant at which the minute of [now] began: second 0 of the minute
    that [currentTime] names. *)
Definition minuteStart (now : Z) : Z := 60000 * (now / 60000).

(** Minutes since local midnight on the host's clock face. *)
Definition minuteOfDay (tz now : Z) : Z := ((now + tz * 60000) / 60000) mod 1440.

(** [HH:MM] for a minute of the day. *)
Definition clockFace (m : Z) : string :=
  JS.padStart0 2 (JS.toString (m / 60)) ++ ":" ++ JS.padStart0 2 (JS.toString (m mod 60)).

Definition digitOf (c : ascii) : Z := Z.of_nat (nat_of_ascii c) - 48.

(** Reading [HH:MM] back. *)
Definition readFace (s : string) : Z :=
  match s with
  | String a (String b (String _ (String c (String d _)))) =>
      (digitOf a * 10 + digitOf b) * 60 + digitOf c * 10 + digitOf d
  | _ => -1
  end.

(** Two running operations that differ at most in what the logger has written. *)
Definition alike (x1 x2 : Exec) : Prop :=
  deviceConfigs (world x1) = deviceConfigs (world x2)
  /\ db (world x1) = db (world x2)
  /\ issued x1 = issued x2.

(** From two such states the computation answers alike and leaves them alike. *)
Definition respects {A} (m : M A) : Prop :=
  forall env x1 x2, alike x1 x2 ->
    fst (m env x1) = fst (m env x2) /\ alike (snd (m env x1)) (snd (m env x2)).

(** An entry the loop passes over without a query and without an error:
    its schedule is an array or a string and does not include the time. *)
Definition quiet (cur : string) (entry : string * DeviceConfig) : bool :=
  match feeding_times (snd entry) with
  | JArr items => negb (JS.arrIncludes cur items)
  | JStr s => negb (JS.strIncludes cur s)
  | _ => false
  end.

Definition tickError : level * string := (error, "Error checking for missed feedings:").

Definition actions : list string := ["open"; "close"; "error"; "startup"; "shutdown"].

(** The event schema in words: an object with a non-empty string
    [device_id], an [action] among the five, a [timestamp] that is an
    ISO-8601 date, [details] absent or an object, and no other key. *)
Definition event_schema_ok (body : json) : Prop :=
  exists fields, body = JObj fields
    /\ (exists s, prop "device_id" fields = Some (JStr s) /\ s <> "")
    /\ (exists a, prop "action" fields = Some (JStr a) /\ In a actions)
    /\ (exists ts, prop "timestamp" fields = Some ts /\ isoDate ts = true)
    /\ (forall j, prop "details" fields = Some j -> Joi.isObject convert j = true)
    /\ (forall k v, In (k, v) fields ->
          In k ["device_id"; "action"; "timestamp"; "details"]).

(** The config schema in words: an object with a non-empty string
    [device_id], [feeding_times] an array of strings that each match
    HH:MM, [duration_minutes] a number from 1 to 120, and no other key. *)
Definition config_shape_ok (body : json) : Prop :=
  exists fields, body = JObj fields
    /\ (exists s, prop "device_id" fields = Some (JStr s) /\ s <> "")
    /\ (exists ft items, prop "feeding_times" fields = Some ft
          /\ Joi.asArray convert ft = Some items
          /\ Forall (fun j => exists s, j = JStr s /\ hhmm s = true) items)
    /\ (exists dm q, prop "duration_minutes" fields = Some dm
          /\ Joi.asNumber convert dm = Some q
          /\ (1 <= q)%Q /\ (q <= 120)%Q)
    /\ (forall k v, In (k, v) fields ->
          In k ["device_id"; "feeding_times"; "duration_minutes"]).

(** The INSERT that POST /api/feeding/log sends for a body. *)
Definition feedingLogInsert (body : json) : Pg.Statement :=
  Pg.InsertFeedingLog (str (field "device_id" body)) (str (field "action" body))
    (val (field "timestamp" body)) (orEmptyObject (field "details" body)).

(** [map.get(key)] *)
Fixpoint mapGet {V} (key : string) (m : list (string * V)) : option V :=
  match m with
  | [] => None
  | (k, v) :: rest => if String.eqb k key then Some v else mapGet key rest
  end.

(** The row of a device in [device_configs]. *)
Definition config_row (d : string) (rows : list Pg.ConfigRow) : option Pg.ConfigRow :=
  find (fun r => String.eqb (Pg.cfg_device_id r) d) rows.

(** The upsert that POST /api/device/config sends for a body, and the entry
    it sets in the map at [now]. *)
Definition configUpsert (body : json) : Pg.Statement :=
  Pg.UpsertDeviceConfig (str (field "device_id" body)) (val (field "feeding_times" body))
    (val (field "duration_minutes" body)).

Definition configEntry (body : json) (now : Z) : DeviceConfig :=
  mkDeviceConfig (val (field "feeding_times" body)) (val (field "duration_minutes" body)) now.

(** A POST /api/device/config for device [d] with a body inside the config
    schema occurs in the history. *)
Definition registered (h : list (Op * Env)) (d : string) : Prop :=
  exists reqBody env,
    In (Http (PostDeviceConfig reqBody), env) h
    /\ config_shape_ok reqBody
    /\ str (field "device_id" reqBody) = d.

(** The map is as it was. *)
Definition map_kept (x x' : Exec) : Prop :=
  deviceConfigs (world x') = deviceConfigs (world x).

(** The device has an [open] event stamped [t0] or later. *)
Definition open_since (d : string) (t0 : Z) (logs : list Pg.FeedingLog) : Prop :=
  exists r, In r logs
            /\ Pg.log_device_id r = d
            /\ Pg.log_action r = "open"
            /\ t0 <= Pg.log_timestamp r.

(** The incidents of a device among some rows. *)
Definition rows_for (d : string) (rows : list Pg.MissedFeeding) : list Pg.MissedFeeding :=
  filter (fun r => String.eqb (Pg.mf_device_id r) d) rows.

(** A map entry whose schedule has an [includes] method. *)
Definition schedule_ok (entry : string * DeviceConfig) : Prop :=
  match feeding_times (snd entry) with
  | JArr _ | JStr _ => True
  | _ => False
  end.

(** What [NOW()] reads at the i-th query of the operation (0 when the store
    rejects that query). *)
Definition clockAt (env : Env) (i : nat) : Z :=
  match store env i with Some t => t | None => 0 end.

(** What one pass of the loop body does when the store answers: from the
    queries sent so far and the tables, to the same afterwards.  A due device
    costs the COUNT query, and the INSERT when the count is 0. *)
Definition detect (env : Env) (now : Z) (cur : string)
  (acc : list Pg.Statement * Pg.Database) (entry : string * DeviceConfig)
  : list Pg.Statement * Pg.Database :=
  let n := List.length (fst acc) in
  if isDue cur (snd entry)
  then if Pg.count_recent_opens (fst entry) (clockAt env n) (snd acc) =? 0
       then ((fst acc ++ [Pg.CountRecentOpens (fst entry);
                          Pg.InsertMissedFeeding (fst entry) now])%list,
             Pg.insert_missed (fst entry) now (clockAt env (n + 1)) (snd acc))
       else ((fst acc ++ [Pg.CountRecentOpens (fst entry)])%list, snd acc)
  else acc.

(** The rows that pass adds. *)
Definition added (env : Env) (now : Z) (cur : string)
  (acc : list Pg.Statement * Pg.Database) (entry : string * DeviceConfig)
  : list Pg.MissedFeeding :=
  if isDue cur (snd entry)
     && (Pg.count_recent_opens (fst entry) (clockAt env (List.length (fst acc))) (snd acc) =? 0)
     && negb (has_incident (fst entry) now (Pg.missed_feedings (snd acc)))
  then [Pg.mkMissedFeeding (Pg.missed_feedings_id_seq (snd acc)) (fst entry) now
          (clockAt env (List.length (fst acc) + 1)) false]
  else [].

(** A map as the process builds it: no key twice, every schedule an array or
    a string. *)
Definition map_ok (m : list (string * DeviceConfig)) : Prop :=
  NoDup (map fst m) /\ Forall schedule_ok m.

(** The statements the handler of a request sends, in order, when none fails. *)
Definition statementsOf (r : Request) (env : Env) : list Pg.Statement :=
  match r with
  | GetHealth => []
  | PostDeviceConfig reqBody => [configUpsert reqBody]
  | PostFeedingLog reqBody => [feedingLogInsert reqBody]
  | GetFeedingLogs d s e l =>
      [Pg.Select (fst (feedingLogsQuery d s e l)) (snd (feedingLogsQuery d s e l))]
  | GetMissed d date =>
      [Pg.Select missedSql
         [Pg.PJson (JStr d);
          Pg.PJson (JStr (match date with Some s => s | None => toISODate (clock env) end))]]
  | GetStats d days =>
      [Pg.Select (statsSql days) [Pg.PJson (JStr d)];
       Pg.Select (missedStatsSql days) [Pg.PJson (JStr d)]]
  end.

(** The requests served by the GET routes. *)
Definition isGet (r : Request) : bool :=
  match r with
  | PostDeviceConfig _ | PostFeedingLog _ => false
  | _ => true
  end.

Definition isSpace (c : ascii) : bool :=
  Ascii.eqb c " " || Ascii.eqb c (ascii_of_nat 10)
  || Ascii.eqb c (ascii_of_nat 9) || Ascii.eqb c (ascii_of_nat 13).

Fixpoint trimStart (s : string) : string :=
  match s with
  | String c rest => if isSpace c then trimStart rest else s
  | EmptyString => EmptyString
  end.

(** The text of the statement begins, after white space, with the keyword
    SELECT. *)
Definition selects (q : Pg.Statement) : bool :=
  match trimStart (Pg.sqlText q) with
  | String "S" (String "E" (String "L" (String "E" (String "C" (String "T"
      (String c _)))))) => isSpace c
  | _ => false
  end.

(** The statement goes out with values bound, which makes it one statement
    for the store: a text with parameters cannot hold a second command. *)
Definition bindsValues (q : Pg.Statement) : bool :=
  match Pg.sqlParams q with
  | [] => false
  | _ :: _ => true
  end.

(** The map and the rows of the three tables are as they were. *)
Definition rows_same (x x' : Exec) : Prop :=
  deviceConfigs (world x') = deviceConfigs (world x)
  /\ Pg.device_configs (db (world x')) = Pg.device_configs (db (world x))
  /\ Pg.feeding_logs (db (world x')) = Pg.feeding_logs (db (world x))
  /\ Pg.missed_feedings (db (world x')) = Pg.missed_feedings (db (world x)).

(** The parameter references [$n] of a statement's text, in order: after
    each [$], the digits that follow it. *)
Fixpoint digitsOf (s : string) : string :=
  match s with
  | String c rest => if between "0" "9" c then String c (digitsOf rest) else ""
  | EmptyString => ""
  end.

Fixpoint references (s : string) : list string :=
  match s with
  | String c rest =>
      if Ascii.eqb c "$" then digitsOf rest :: references rest else references rest
  | EmptyString => []
  end.

(** Text and parameters fit: with n parameters bound, the text refers to
    [$1] ... [$n], to each of them and to nothing else. *)
Definition wellBound (q : Pg.Statement) : bool :=
  let refs := references (Pg.sqlText q) in
  let names := map (fun i => JS.toString (Z.of_nat i)) (seq 1 (List.length (Pg.sqlParams q))) in
  forallb (fun r => existsb (String.eqb r) names) refs
  && forallb (fun n => existsb (String.eqb n) refs) names.

Fixpoint hasDollar (s : string) : bool :=
  match s with
  | String c rest => Ascii.eqb c "$" || hasDollar rest
  | EmptyString => false
  end.

(** The request text an operation writes into the text of a statement: the
    [days] of GET /api/stats, and nothing anywhere else. *)
Definition spliced (o : Op) : string :=
  match o with
  | Http (GetStats _ days) => daysText days
  | _ => ""
  end.

(** The entry of device [d] after the valid POSTs /api/device/config of a
    history, [before] being the entry it started with. *)
Fixpoint latestConfig (h : list (Op * Env)) (d : string) (before : option DeviceConfig)
  : option DeviceConfig :=
  match h with
  | [] => before
  | (Http (PostDeviceConfig reqBody), env) :: rest =>
      match Joi.validate configUpdateSchema reqBody with
      | None =>
          if String.eqb (str (field "device_id" reqBody)) d
          then latestConfig rest d (Some (configEntry reqBody (clock env)))
          else latestConfig rest d before
      | Some _ => latestConfig rest d before
      end
  | _ :: rest => latestConfig rest d before
  end.

(** The primary key of [device_configs]. *)
Definition config_keys_unique (rows : list Pg.ConfigRow) : Prop :=
  NoDup (map Pg.cfg_device_id rows).

(** The key stays unique, and every row stays, with the creation time it has. *)
Definition configs_kept (rows rows' : list Pg.ConfigRow) : Prop :=
  (config_keys_unique rows -> config_keys_unique rows')
  /\ (forall d r, config_row d rows = Some r ->
        exists r', config_row d rows' = Some r'
                   /\ Pg.cfg_created_at r' = Pg.cfg_created_at r).

Definition config_rows_kept (x x' : Exec) : Prop :=
  configs_kept (Pg.device_configs (db (world x))) (Pg.device_configs (db (world x'))).


(** The event a POST /api/feeding/log leaves in [feeding_logs]: device,
    action, timestamp, details and the store's time of the insert; none when
    the body fails validation or the store rejects the INSERT. *)
Definition eventOf (oe : Op * Env) : option (string * string * Z * json * Z) :=
  match fst oe with
  | Http (PostFeedingLog reqBody) =>
      match Joi.validate feedingLogSchema reqBody,
            store (snd oe) 0%nat,
            pgTimestamp (val (field "timestamp" reqBody)) with
      | None, Some t, Some z =>
          Some (str (field "device_id" reqBody), str (field "action" reqBody), z,
                orEmptyObject (field "details" reqBody), t)
      | _, _, _ => None
      end
  | _ => None
  end.

Definition eventsOf (h : list (Op * Env)) : list (string * string * Z * json * Z) :=
  flat_map (fun oe => match eventOf oe with Some ev => [ev] | None => [] end) h.

Definition logEvent (r : Pg.FeedingLog) : string * string * Z * json * Z :=
  (Pg.log_device_id r, Pg.log_action r, Pg.log_timestamp r, Pg.log_details r,
   Pg.log_created_at r).

(** The event log is as it was. *)
Definition log_table_same (x x' : Exec) : Prop :=
  Pg.feeding_logs (db (world x')) = Pg.feeding_logs (db (world x)).

Definition isLogInsert (q : Pg.Statement) : bool :=
  match q with Pg.InsertFeedingLog _ _ _ _ => true | _ => false end.

(** The incident table has kept its rows and gained unresolved ones. *)
Definition incidents_kept (x x' : Exec) : Prop :=
  exists new,
    Pg.missed_feedings (db (world x')) = (Pg.missed_feedings (db (world x)) ++ new)%list
    /\ Forall (fun r => Pg.mf_resolved r = false) new.

(** In an environment whose store rejects the statement of index [i], a
    computation begun before that statement went out does not get past it:
    it returns without having sent it, or throws having sent at most it. *)
Definition halts {A} (env : Env) (i : nat) (m : M A) : Prop :=
  forall x, (List.length (issued x) <= i)%nat ->
    match m env x with
    | (Ok _, x') => (List.length (issued x') <= i)%nat
    | (Throw _, x') => (List.length (issued x') <= i + 1)%nat
    end.

(** Neither the log nor the list of statements sent has become shorter. *)
Definition grown (x x' : Exec) : Prop :=
  (List.length (logger (world x)) <= List.length (logger (world x')))%nat
  /\ (List.length (issued x) <= List.length (issued x'))%nat.

(** The event log is as it was, and so are the incidents of device [d]. *)
Definition incidents_same (d : string) (x x' : Exec) : Prop :=
  Pg.feeding_logs (db (world x')) = Pg.feeding_logs (db (world x))
  /\ rows_for d (Pg.missed_feedings (db (world x')))
     = rows_for d (Pg.missed_feedings (db (world x))).

(** The sum of a column of the view. *)
Definition column_sum (f : Pg.DailyFeedingStats -> Z) (rows : list Pg.DailyFeedingStats) : Z :=
  fold_right Z.add 0 (map f rows).

Definition stats_key (s : Pg.DailyFeedingStats) : string * Z :=
  (Pg.dfs_device_id s, Pg.dfs_date s).

(** ** Reasoning about operations *)

Lemma cronTick_unfold env x :
  cronTick env x =
  tryCatch (forEach (deviceConfigs (world x))
              (checkDevice (clock env) (currentTime (tzOffset env) (clock env))))
           (fun _ => log error "Error checking for missed feedings:") env x.
Proof. reflexivity. Qed.

Section Preserves.
Variable E : Env -> Prop.
Variable R : Exec -> Exec -> Prop.
Hypothesis R_refl : forall x, R x x.
Hypothesis R_trans : forall x y z, R x y -> R y z -> R x z.

Lemma preserves_ret {A} (a : A) : preserves E R (ret a).
Proof. intros env x _. apply R_refl. Qed.

Lemma preserves_throw {A} (e : exn) : preserves E R (@throw A e).
Proof. intros env x _. apply R_refl. Qed.

Lemma preserves_newDate : preserves E R newDate.
Proof. intros env x _. apply R_refl. Qed.

Lemma preserves_hostZone : preserves E R hostZone.
Proof. intros env x _. apply R_refl. Qed.

Lemma preserves_entries : preserves E R deviceConfigs_entries.
Proof. intros env x _. apply R_refl. Qed.

Lemma preserves_bind {A B} (m : M A) (k : A -> M B) :
  preserves E R m -> (forall a, preserves E R (k a)) -> preserves E R (bind m k).
Proof.
  intros Hm Hk env x He. unfold bind.
  specialize (Hm env x He). destruct (m env x) as [[a | e] x1]; simpl in *.
  - eapply R_trans; [exact Hm | now apply Hk].
  - exact Hm.
Qed.

Lemma preserves_tryCatch {A} (m : M A) (h : exn -> M A) :
  preserves E R m -> (forall e, preserves E R (h e)) -> preserves E R (tryCatch m h).
Proof.
  intros Hm Hh env x He. unfold tryCatch.
  specialize (Hm env x He). destruct (m env x) as [[a | e] x1]; simpl in *.
  - exact Hm.
  - eapply R_trans; [exact Hm | now apply Hh].
Qed.

Lemma preserves_forEach {A} (xs : list A) (body : A -> M unit) :
  (forall a, In a xs -> preserves E R (body a)) -> preserves E R (forEach xs body).
Proof.
  induction xs as [| a rest IH]; intros Hbody; simpl.
  - apply preserves_ret.
  - apply preserves_bind.
    + apply Hbody. now left.
    + intros _. apply IH. intros b Hb. apply Hbody. now right.
Qed.

Lemma preserves_includes ft cur : preserves E R (includes ft cur).
Proof. destruct ft; simpl; auto using preserves_ret, preserves_throw. Qed.

Lemma preserves_countIsZero rows : preserves E R (countIsZero rows).
Proof. destruct rows; simpl; auto using preserves_ret, preserves_throw. Qed.

Hypothesis R_log : forall l msg, preserves E R (log l msg).

(** The loop body sends the COUNT query of its device, and the INSERT only
    when the device is due. *)
Lemma checkDevice_rule now cur deviceId config :
  (isDue cur config = true ->
   preserves E R (pool_query (Pg.CountRecentOpens deviceId))) ->
  (isDue cur config = true ->
   preserves E R (pool_query (Pg.InsertMissedFeeding deviceId now))) ->
  preserves E R (checkDevice now cur (deviceId, config)).
Proof.
  intros Hcount Hinsert. unfold checkDevice.
  assert (Hdue : forall env x b x',
             includes (feeding_times config) cur env x = (Ok b, x') ->
             b = isDue cur config).
  { unfold includes, isDue. intros env x b x'.
    destruct (feeding_times config); simpl; unfold ret, throw; congruence. }
  assert (Hrest : preserves E R
              (result <- pool_query (Pg.CountRecentOpens deviceId) ;;
               none <- countIsZero result ;;
               if none : bool
               then pool_query (Pg.InsertMissedFeeding deviceId now) ;;
                    log warn ("Missed feeding detected for device: " ++ deviceId
                              ++ " at " ++ cur)
               else ret tt) \/ isDue cur config = false).
  { destruct (isDue cur config) eqn:Hd; [left | now right].
    apply preserves_bind; [now apply Hcount |]. intros rows.
    apply preserves_bind; [apply preserves_countIsZero |].
    intros [|]; [| apply preserves_ret].
    apply preserves_bind; [now apply Hinsert |]. intros _. apply R_log. }
  intros env x He. unfold bind at 1.
  pose proof (preserves_includes (feeding_times config) cur env x He) as Hx1.
  destruct (includes (feeding_times config) cur env x) as [[b | e] x1] eqn:Hinc;
    simpl in Hx1; [| exact Hx1].
  apply Hdue in Hinc. destruct b.
  - destruct Hrest as [Hrest | Hf]; [| congruence].
    eapply R_trans; [exact Hx1 | now apply Hrest].
  - unfold ret. simpl. exact Hx1.
Qed.

(** The tick sends queries only for the entries of the map it starts from. *)
Lemma cronTick_rule env x :
  E env ->
  (forall d config, In (d, config) (deviceConfigs (world x)) ->
     isDue (currentTime (tzOffset env) (clock env)) config = true ->
     preserves E R (pool_query (Pg.CountRecentOpens d))) ->
  (forall d config, In (d, config) (deviceConfigs (world x)) ->
     isDue (currentTime (tzOffset env) (clock env)) config = true ->
     preserves E R (pool_query (Pg.InsertMissedFeeding d (clock env)))) ->
  R x (snd (cronTick env x)).
Proof.
  intros He Hcount Hinsert. rewrite cronTick_unfold.
  apply preserves_tryCatch; [| intros _; apply R_log | exact He].
  apply preserves_forEach. intros [d config] Hin.
  apply checkDevice_rule; eauto.
Qed.

(** What is left to check for a relation to hold across every operation
    of the server: the places where the world changes.  Only one handler
    writes to the map. *)
Hypothesis R_query : forall q, preserves E R (pool_query q).

Lemma preserves_cronTick : preserves E R cronTick.
Proof. intros env x He. apply cronTick_rule; auto. Qed.

Lemma preserves_handle_when r :
  (writesMap r = true -> forall k v, preserves E R (deviceConfigs_set k v)) ->
  preserves E R (handle r).
Proof.
  destruct r as [| body0 | body0 | device_id start_date end_date limit
                 | device_id date | device_id days]; simpl; intros R_set.
  - unfold getHealth. apply preserves_bind; [apply preserves_newDate |].
    intros now. apply preserves_ret.
  - unfold postDeviceConfig. apply preserves_tryCatch.
    + destruct (Joi.validate configUpdateSchema body0); [apply preserves_ret |].
      apply preserves_bind; [apply preserves_newDate |]. intros now.
      apply preserves_bind; [now apply R_set |]. intros _.
      apply preserves_bind; [apply R_query |]. intros _.
      apply preserves_bind; [apply R_log |]. intros _. apply preserves_ret.
    + intros _. apply preserves_bind; [apply R_log |]. intros _. apply preserves_ret.
  - unfold postFeedingLog. apply preserves_tryCatch.
    + destruct (Joi.validate feedingLogSchema body0); [apply preserves_ret |].
      apply preserves_bind; [apply R_query |]. intros _.
      apply preserves_bind; [apply R_log |]. intros _. apply preserves_ret.
    + intros _. apply preserves_bind; [apply R_log |]. intros _. apply preserves_ret.
  - unfold getFeedingLogs. apply preserves_tryCatch.
    + destruct (feedingLogsQuery device_id start_date end_date limit) as [query params].
      apply preserves_bind; [apply R_query |]. intros rows. apply preserves_ret.
    + intros _. apply preserves_bind; [apply R_log |]. intros _. apply preserves_ret.
  - unfold getMissed. apply preserves_tryCatch.
    + apply preserves_bind; [apply preserves_newDate |]. intros now.
      apply preserves_bind; [apply R_query |]. intros rows. apply preserves_ret.
    + intros _. apply preserves_bind; [apply R_log |]. intros _. apply preserves_ret.
  - unfold getStats. apply preserves_tryCatch.
    + apply preserves_bind; [apply R_query |]. intros stats.
      apply preserves_bind; [apply R_query |]. intros missed. apply preserves_ret.
    + intros _. apply preserves_bind; [apply R_log |]. intros _. apply preserves_ret.
Qed.

Hypothesis R_set : forall k v, preserves E R (deviceConfigs_set k v).

Lemma preserves_handle r : preserves E R (handle r).
Proof. apply preserves_handle_when. intros _. exact R_set. Qed.

Lemma preserves_operation o : preserves E R (operation o).
Proof.
  destruct o; simpl.
  - apply preserves_bind; [apply preserves_handle |]. intros resp. apply preserves_ret.
  - apply preserves_bind; [apply preserves_cronTick |]. intros _. apply preserves_ret.
Qed.
End Preserves.

(** ** The event log only grows *)

Lemma logs_kept_refl x : logs_kept x x.
Proof. exists []. now rewrite app_nil_r. Qed.

Lemma logs_kept_trans x y z : logs_kept x y -> logs_kept y z -> logs_kept x z.
Proof.
  intros [a Ha] [b Hb]. exists (a ++ b)%list. now rewrite Hb, Ha, app_assoc.
Qed.

Lemma exec_logs_kept q t d rows d' :
  Pg.exec pgTimestamp pgSelect q t d = Some (rows, d') ->
  exists appended, Pg.feeding_logs d' = (Pg.feeding_logs d ++ appended)%list.
Proof.
  destruct q; simpl.
  - intros [= _ <-]. exists []. simpl. now rewrite app_nil_r.
  - destruct (pgTimestamp timestamp); [| discriminate].
    intros [= _ <-]. simpl. eauto.
  - intros [= _ <-]. exists []. now rewrite app_nil_r.
  - intros [= _ <-]. exists []. simpl. now rewrite app_nil_r.
  - destruct (pgSelect text params t d); [| discriminate].
    intros [= _ <-]. exists []. now rewrite app_nil_r.
Qed.

Lemma pool_query_logs_kept q : preserves anyEnv logs_kept (pool_query q).
Proof.
  intros env x _. unfold pool_query.
  destruct (store env _) as [t |]; simpl;
    [| exists []; simpl; now rewrite app_nil_r].
  destruct (Pg.exec _ _ q t _) as [[rows d'] |] eqn:E; simpl;
    [| exists []; simpl; now rewrite app_nil_r].
  apply exec_logs_kept in E. exact E.
Qed.

Lemma operation_logs_kept o : preserves anyEnv logs_kept (operation o).
Proof.
  apply preserves_operation.
  - apply logs_kept_refl.
  - apply logs_kept_trans.
  - intros l msg env x _. exists []. simpl. now rewrite app_nil_r.
  - apply pool_query_logs_kept.
  - intros k v env x _. exists []. simpl. now rewrite app_nil_r.
Qed.

Lemma steps_logs_kept h : forall w,
  exists appended,
    Pg.feeding_logs (db (steps h w)) = (Pg.feeding_logs (db w) ++ appended)%list.
Proof.
  induction h as [| [o env] rest IH]; intros w; simpl.
  - exists []. now rewrite app_nil_r.
  - destruct (IH (step o env w)) as [b Hb].
    destruct (operation_logs_kept o env (mkExec w []) I) as [a Ha]. simpl in Ha.
    exists (a ++ b)%list. unfold step, run in *. now rewrite Hb, Ha, app_assoc.
Qed.

(** C8. Whatever requests and detector ticks the collector handles, in any
    order and under any behaviour of the store, the rows of feeding_logs that
    were there before are there afterwards, unchanged and at the same place:
    the table after is the table before with rows appended. *)
Theorem feeding_logs_append_only (h : list (Op * Env)) (w : World) :
  (exists appended,
     Pg.feeding_logs (db (steps h w)) = (Pg.feeding_logs (db w) ++ appended)%list)
  /\ (forall i r, nth_error (Pg.feeding_logs (db w)) i = Some r ->
                  nth_error (Pg.feeding_logs (db (steps h w))) i = Some r).
Proof.
  destruct (steps_logs_kept h w) as [a Ha]. split.
  - now exists a.
  - intros i r Hi. rewrite Ha. rewrite nth_error_app1; [exact Hi |].
    apply nth_error_Some. now rewrite Hi.
Qed.

(** ** One incident per device and scheduled time *)

Lemma has_incident_spec d s rows :
  has_incident d s rows = true <-> In (d, s) (map incident_key rows).
Proof.
  unfold has_incident. rewrite existsb_exists, in_map_iff. unfold Pg.same_incident, incident_key.
  split.
  - intros [r [Hin Hr]]. apply andb_true_iff in Hr as [Hd Hs].
    apply String.eqb_eq in Hd. apply Z.eqb_eq in Hs. exists r. now subst.
  - intros [r [[= Hd Hs] Hin]]. exists r. split; [exact Hin |].
    now rewrite Hd, Hs, String.eqb_refl, Z.eqb_refl.
Qed.

Lemma NoDup_snoc {A} (l : list A) (a : A) :
  NoDup l -> ~ In a l -> NoDup (l ++ [a]).
Proof.
  intros Hl Ha. apply NoDup_app; [exact Hl | repeat constructor; intros [] |].
  intros x Hx [<- | []]. now apply Ha.
Qed.

Lemma exec_keys_unique q t d rows d' :
  Pg.exec pgTimestamp pgSelect q t d = Some (rows, d') ->
  keys_unique (Pg.missed_feedings d) -> keys_unique (Pg.missed_feedings d').
Proof.
  destruct q; simpl.
  - now intros [= _ <-].
  - destruct (pgTimestamp timestamp); [| discriminate]. now intros [= _ <-].
  - now intros [= _ <-].
  - intros [= _ <-] Hu. simpl.
    fold (has_incident deviceId now (Pg.missed_feedings d)).
    destruct (has_incident deviceId now (Pg.missed_feedings d)) eqn:Hhas; [exact Hu |].
    unfold keys_unique. rewrite map_app. simpl.
    apply NoDup_snoc; [exact Hu |].
    intros Hin. apply has_incident_spec in Hin. simpl in Hin. congruence.
  - destruct (pgSelect text params t d); [| discriminate]. now intros [= _ <-].
Qed.

Lemma pool_query_unique_kept q : preserves anyEnv unique_kept (pool_query q).
Proof.
  intros env x _. unfold pool_query, unique_kept.
  destruct (store env _) as [t |]; simpl; [| tauto].
  destruct (Pg.exec _ _ q t _) as [[rows d'] |] eqn:Ex; simpl; [| tauto].
  intros Hu. eapply exec_keys_unique; eauto.
Qed.

Lemma operation_unique_kept o : preserves anyEnv unique_kept (operation o).
Proof.
  apply preserves_operation; unfold unique_kept.
  - tauto.
  - tauto.
  - intros l msg env x _. simpl. tauto.
  - apply pool_query_unique_kept.
  - intros k v env x _. simpl. tauto.
Qed.

Lemma steps_keys_unique h : forall w,
  keys_unique (Pg.missed_feedings (db w)) ->
  keys_unique (Pg.missed_feedings (db (steps h w))).
Proof.
  induction h as [| [o env] rest IH]; intros w Hu; simpl; [exact Hu |].
  apply IH. exact (operation_unique_kept o env (mkExec w []) I Hu).
Qed.

Lemma table_kept_trans now cur entries x y z :
  table_kept now cur entries x y -> table_kept now cur entries y z ->
  table_kept now cur entries x z.
Proof.
  unfold table_kept, incidents_present. intros Hxy Hyz Hx.
  rewrite Hyz; [now apply Hxy |].
  intros d config Hin Hd. rewrite (Hxy Hx). now apply (Hx d config).
Qed.

Lemma cronTick_table_kept env w :
  incidents_present (clock env) (currentTime (tzOffset env) (clock env))
    (deviceConfigs w) (mkExec w []) ->
  Pg.missed_feedings (db (step CronTick env w)) = Pg.missed_feedings (db w).
Proof.
  intros Hpresent.
  set (now := clock env). set (cur := currentTime (tzOffset env) (clock env)).
  assert (table_kept now cur (deviceConfigs w) (mkExec w [])
            (snd (cronTick env (mkExec w [])))) as Hkept.
  { apply cronTick_rule with (E := anyEnv).
    - unfold table_kept. reflexivity.
    - apply table_kept_trans.
    - intros l msg e x _ _. reflexivity.
    - exact I.
    - intros d config _ _ e x _ _. unfold pool_query.
      destruct (store e _); reflexivity.
    - intros d config Hin Hdue e x _ Hx. unfold pool_query.
      destruct (store e _) as [t |]; [| reflexivity]. simpl.
      specialize (Hx d config Hin Hdue). unfold has_incident in Hx.
      fold now. now rewrite Hx. }
  specialize (Hkept Hpresent). simpl in Hkept.
  unfold step, run, operation, bind.
  destruct (cronTick env (mkExec w [])) as [[[] | e] x']; exact Hkept.
Qed.

(** ** What a tick changes *)

Lemma tick_effect_refl P Q x : tick_effect P Q x x.
Proof.
  repeat split; try reflexivity.
  - exists []. now rewrite app_nil_r.
  - exists []. now rewrite app_nil_r.
Qed.

Lemma tick_effect_trans P Q x y z :
  tick_effect P Q x y -> tick_effect P Q y z -> tick_effect P Q x z.
Proof.
  intros (H1 & H2 & H3 & (n1 & Hn1 & Pn1) & (s1 & Hs1 & Qs1))
         (K1 & K2 & K3 & (n2 & Hn2 & Pn2) & (s2 & Hs2 & Qs2)).
  repeat split; try congruence.
  - exists (n1 ++ n2)%list. split; [now rewrite Hn2, Hn1, app_assoc |].
    apply Forall_app. now split.
  - exists (s1 ++ s2)%list. split; [now rewrite Hs2, Hs1, app_assoc |].
    apply Forall_app. now split.
Qed.

Lemma cronTick_effect env w :
  tick_effect (recorded_by env (deviceConfigs w)) (sent_by env (deviceConfigs w))
    (mkExec w []) (snd (cronTick env (mkExec w []))).
Proof.
  apply cronTick_rule with (E := eq env).
  - apply tick_effect_refl.
  - apply tick_effect_trans.
  - intros l msg e x _. repeat split; simpl; try reflexivity.
    + exists []. now rewrite app_nil_r.
    + exists []. now rewrite app_nil_r.
  - reflexivity.
  - intros d config Hin Hdue e x <-. simpl in Hin.
    assert (sent_by env (deviceConfigs w) (Pg.CountRecentOpens d)) as Hq.
    { exists d, config. auto. }
    unfold pool_query. destruct (store env _) as [t |]; simpl;
      (repeat split; simpl; try reflexivity;
       [exists []; now rewrite app_nil_r | eexists; split; [reflexivity | now constructor]]).
  - intros d config Hin Hdue e x <-. simpl in Hin.
    assert (sent_by env (deviceConfigs w) (Pg.InsertMissedFeeding d (clock env))) as Hq.
    { exists d, config. auto. }
    unfold pool_query. destruct (store env _) as [t |] eqn:Hstore; simpl.
    + repeat split; simpl; try reflexivity.
      * destruct (existsb _ _).
        -- exists []. now rewrite app_nil_r.
        -- eexists. split; [reflexivity |]. constructor; [| constructor].
           repeat split; simpl; eauto.
      * eexists. split; [reflexivity | now constructor].
    + repeat split; simpl; try reflexivity.
      * exists []. now rewrite app_nil_r.
      * eexists. split; [reflexivity | now constructor].
Qed.

Lemma step_cronTick env w :
  step CronTick env w = world (snd (cronTick env (mkExec w []))).
Proof.
  unfold step, run, operation, bind.
  now destruct (cronTick env (mkExec w [])) as [[[] | e] x'].
Qed.

(** ** The instant an incident is filed under *)

Lemma currentTime_minuteStart tz now :
  currentTime tz (minuteStart now) = currentTime tz now.
Proof.
  unfold currentTime, JS.getHours, JS.getMinutes, minuteStart.
  assert ((60000 * (now / 60000) + tz * 60000) / 60000 = (now + tz * 60000) / 60000) as Hm.
  { replace (60000 * (now / 60000) + tz * 60000) with ((now / 60000 + tz) * 60000) by ring.
    rewrite Z.div_mul by lia. rewrite Z.div_add by lia. reflexivity. }
  assert (forall a, a / 3600000 = a / 60000 / 60) as Hh.
  { intros a. rewrite Z.div_div by lia. reflexivity. }
  rewrite !Hh, Hm. reflexivity.
Qed.

(** C3 (as the code has it). Every incident a detector tick records has
    scheduled_time equal to the instant the tick read from the clock,
    milliseconds included.  That instant lies in the minute of a feeding
    time of the recorded device, at most a minute after the minute began,
    and is the start of the minute exactly when the tick read a whole
    minute. *)
Theorem incident_scheduled_time (env : Env) (w : World) :
  exists new,
    Pg.missed_feedings (db (step CronTick env w)) = (Pg.missed_feedings (db w) ++ new)%list
    /\ Forall (fun r =>
                 Pg.mf_scheduled_time r = clock env
                 /\ (exists config,
                       In (Pg.mf_device_id r, config) (deviceConfigs w)
                       /\ isDue (currentTime (tzOffset env) (Pg.mf_scheduled_time r)) config
                          = true)
                 /\ minuteStart (clock env) <= Pg.mf_scheduled_time r
                    < minuteStart (clock env) + 60000
                 /\ (Pg.mf_scheduled_time r = minuteStart (clock env)
                     <-> clock env mod 60000 = 0)) new.
Proof.
  destruct (cronTick_effect env w) as (_ & _ & _ & (new & Hnew & Pnew) & _).
  exists new. rewrite step_cronTick. split; [exact Hnew |].
  eapply Forall_impl; [| exact Pnew].
  intros r (Hs & _ & _ & config & Hin & Hdue). rewrite Hs.
  unfold minuteStart.
  pose proof (Z.div_mod (clock env) 60000 ltac:(lia)) as Hdm.
  pose proof (Z.mod_pos_bound (clock env) 60000 ltac:(lia)) as Hb.
  repeat split; eauto; lia.
Qed.

(** ** The time of day the detector matches against *)

Lemma currentTime_clockFace tz now : currentTime tz now = clockFace (minuteOfDay tz now).
Proof.
  unfold currentTime, clockFace, JS.getHours, JS.getMinutes, minuteOfDay.
  set (a := now + tz * 60000).
  assert (a / 3600000 = a / 60000 / 60) as -> by (rewrite Z.div_div by lia; reflexivity).
  set (q := a / 60000).
  assert ((q mod 1440) / 60 = (q / 60) mod 24 /\ (q mod 1440) mod 60 = q mod 60) as [-> ->].
  { pose proof (Z.div_mod q 60 ltac:(lia)) as H1.
    pose proof (Z.mod_pos_bound q 60 ltac:(lia)) as B1.
    pose proof (Z.div_mod (q / 60) 24 ltac:(lia)) as H2.
    pose proof (Z.mod_pos_bound (q / 60) 24 ltac:(lia)) as B2.
    assert (q mod 1440 = 60 * ((q / 60) mod 24) + q mod 60) as ->.
    { symmetry. apply Z.mod_unique with (q := q / 60 / 24); lia. }
    split.
    - symmetry. apply Z.div_unique with (r := q mod 60); lia.
    - symmetry. apply Z.mod_unique with (q := (q / 60) mod 24); lia. }
  reflexivity.
Qed.

Lemma readFace_clockFace m : 0 <= m < 1440 -> readFace (clockFace m) = m.
Proof.
  intros Hm.
  assert (forallb (fun n => readFace (clockFace (Z.of_nat n)) =? Z.of_nat n)
            (seq 0 1440) = true) as Hall by (vm_compute; reflexivity).
  rewrite forallb_forall in Hall.
  specialize (Hall (Z.to_nat m)). rewrite Z2Nat.id in Hall by lia.
  apply Z.eqb_eq, Hall, in_seq. lia.
Qed.

Lemma currentTime_eq_iff tz1 tz2 now :
  currentTime tz1 now = currentTime tz2 now <-> (tz1 - tz2) mod 1440 = 0.
Proof.
  rewrite !currentTime_clockFace.
  assert (forall tz, 0 <= minuteOfDay tz now < 1440) as Hb.
  { intros tz. apply Z.mod_pos_bound. lia. }
  assert (minuteOfDay tz1 now = minuteOfDay tz2 now <-> (tz1 - tz2) mod 1440 = 0) as <-.
  { unfold minuteOfDay. rewrite !Z.div_add by lia. rewrite Z.cong_iff_0.
    now replace (now / 60000 + tz1 - (now / 60000 + tz2)) with (tz1 - tz2) by ring. }
  split; [| now intros ->].
  intros H. apply (f_equal readFace) in H. now rewrite !readFace_clockFace in H.
Qed.

(** C4 (as the code has it). The detector matches feeding times against the
    hour and minute of the host's own zone.  At one and the same instant two
    hosts compute the same time of day exactly when their zone offsets
    differ by a whole number of days; when they do, the two ticks run alike
    (same outcome, same queries, same world afterwards). *)
Theorem matching_follows_host_zone (tz1 tz2 now : Z) :
  (currentTime tz1 now = currentTime tz2 now <-> (tz1 - tz2) mod 1440 = 0)
  /\ (forall st w, (tz1 - tz2) mod 1440 = 0 ->
        run cronTick (mkEnv now tz1 st) w = run cronTick (mkEnv now tz2 st) w).
Proof.
  split; [apply currentTime_eq_iff |].
  intros st w H. apply currentTime_eq_iff with (now := now) in H.
  unfold run. rewrite !cronTick_unfold. simpl. rewrite H.
  unfold tryCatch.
  assert (forall entries x,
             forEach entries (checkDevice now (currentTime tz2 now)) (mkEnv now tz1 st) x =
             forEach entries (checkDevice now (currentTime tz2 now)) (mkEnv now tz2 st) x)
    as Hloop.
  { induction entries as [| [d config] rest IH]; intros x; [reflexivity |].
    assert (checkDevice now (currentTime tz2 now) (d, config) (mkEnv now tz1 st) x =
            checkDevice now (currentTime tz2 now) (d, config) (mkEnv now tz2 st) x) as Hbody.
    { unfold checkDevice, bind, includes, pool_query, countIsZero, ret, throw, log.
      destruct (feeding_times config); try reflexivity;
        (match goal with |- context [if ?b then _ else _] => destruct b end;
         [| reflexivity]; simpl;
         destruct (st (List.length (issued x))) as [t |]; [| reflexivity];
         simpl; destruct (String.eqb _ "0"); reflexivity). }
    cbn [forEach].
    unfold bind. rewrite Hbody. clear Hbody.
    destruct (checkDevice _ _ _ _ x) as [[[] | e] x1]; [apply IH | reflexivity]. }
  now rewrite Hloop.
Qed.

(** ** Operations do not read the log *)

Lemma respects_ret {A} (a : A) : respects (ret a).
Proof. intros env x1 x2 H. now split. Qed.

Lemma respects_throw {A} (e : exn) : respects (@throw A e).
Proof. intros env x1 x2 H. now split. Qed.

Lemma respects_bind {A B} (m : M A) (k : A -> M B) :
  respects m -> (forall a, respects (k a)) -> respects (bind m k).
Proof.
  intros Hm Hk env x1 x2 H. unfold bind.
  destruct (Hm env x1 x2 H) as [Hr Hx].
  destruct (m env x1) as [[a1 | e1] y1], (m env x2) as [[a2 | e2] y2];
    simpl in *; try discriminate.
  - injection Hr as ->. now apply Hk.
  - injection Hr as ->. split; [reflexivity | exact Hx].
Qed.

Lemma respects_tryCatch {A} (m : M A) (h : exn -> M A) :
  respects m -> (forall e, respects (h e)) -> respects (tryCatch m h).
Proof.
  intros Hm Hh env x1 x2 H. unfold tryCatch.
  destruct (Hm env x1 x2 H) as [Hr Hx].
  destruct (m env x1) as [[a1 | e1] y1], (m env x2) as [[a2 | e2] y2];
    simpl in *; try discriminate.
  - injection Hr as ->. split; [reflexivity | exact Hx].
  - injection Hr as ->. now apply Hh.
Qed.

Lemma respects_forEach {A} (xs : list A) (body : A -> M unit) :
  (forall a, respects (body a)) -> respects (forEach xs body).
Proof.
  intros Hbody. induction xs as [| a rest IH]; simpl.
  - apply respects_ret.
  - apply respects_bind; [apply Hbody | intros _; exact IH].
Qed.

Lemma respects_log l msg : respects (log l msg).
Proof. intros env x1 x2 (H1 & H2 & H3). repeat split; simpl; assumption. Qed.

Lemma respects_set k v : respects (deviceConfigs_set k v).
Proof.
  intros env x1 x2 (H1 & H2 & H3). repeat split; simpl; try assumption.
  now rewrite H1.
Qed.

Lemma respects_pool_query q : respects (pool_query q).
Proof.
  intros env x1 x2 (H1 & H2 & H3). unfold pool_query. rewrite H2, H3.
  destruct (store env _) as [t |]; simpl.
  - destruct (Pg.exec _ _ q t _) as [[rows d] |]; simpl; repeat split; simpl; auto.
  - repeat split; simpl; auto.
Qed.

Lemma respects_cronTick : respects cronTick.
Proof.
  unfold cronTick. apply respects_tryCatch; [| intros _; apply respects_log].
  apply respects_bind; [intros env x1 x2 H; now split |]. intros now.
  apply respects_bind; [intros env x1 x2 H; now split |]. intros tz.
  intros env x1 x2 H.
  unfold bind, deviceConfigs_entries. destruct H as (H1 & H2 & H3). rewrite H1.
  apply respects_forEach; [| now repeat split].
  intros [d config]. unfold checkDevice.
  apply respects_bind.
  { unfold includes. destruct (feeding_times config);
      auto using respects_ret, respects_throw. }
  intros [|]; [| apply respects_ret].
  apply respects_bind; [apply respects_pool_query |]. intros rows.
  apply respects_bind.
  { unfold countIsZero. destruct rows; auto using respects_ret, respects_throw. }
  intros [|]; [| apply respects_ret].
  apply respects_bind; [apply respects_pool_query |]. intros _. apply respects_log.
Qed.

Lemma respects_handle r : respects (handle r).
Proof.
  assert (respects newDate) as HnewDate by (intros env x1 x2 H; now split).
  destruct r as [| body0 | body0 | device_id start_date end_date limit
                 | device_id date | device_id days]; simpl.
  - unfold getHealth. apply respects_bind; [exact HnewDate |].
    intros now. apply respects_ret.
  - unfold postDeviceConfig. apply respects_tryCatch.
    + destruct (Joi.validate configUpdateSchema body0); [apply respects_ret |].
      apply respects_bind; [exact HnewDate |]. intros now.
      apply respects_bind; [apply respects_set |]. intros _.
      apply respects_bind; [apply respects_pool_query |]. intros _.
      apply respects_bind; [apply respects_log |]. intros _. apply respects_ret.
    + intros _. apply respects_bind; [apply respects_log |]. intros _. apply respects_ret.
  - unfold postFeedingLog. apply respects_tryCatch.
    + destruct (Joi.validate feedingLogSchema body0); [apply respects_ret |].
      apply respects_bind; [apply respects_pool_query |]. intros _.
      apply respects_bind; [apply respects_log |]. intros _. apply respects_ret.
    + intros _. apply respects_bind; [apply respects_log |]. intros _. apply respects_ret.
  - unfold getFeedingLogs. apply respects_tryCatch.
    + destruct (feedingLogsQuery device_id start_date end_date limit) as [query params].
      apply respects_bind; [apply respects_pool_query |]. intros rows. apply respects_ret.
    + intros _. apply respects_bind; [apply respects_log |]. intros _. apply respects_ret.
  - unfold getMissed. apply respects_tryCatch.
    + apply respects_bind; [exact HnewDate |]. intros now.
      apply respects_bind; [apply respects_pool_query |]. intros rows. apply respects_ret.
    + intros _. apply respects_bind; [apply respects_log |]. intros _. apply respects_ret.
  - unfold getStats. apply respects_tryCatch.
    + apply respects_bind; [apply respects_pool_query |]. intros stats.
      apply respects_bind; [apply respects_pool_query |]. intros missed. apply respects_ret.
    + intros _. apply respects_bind; [apply respects_log |]. intros _. apply respects_ret.
Qed.

Lemma respects_operation o : respects (operation o).
Proof.
  destruct o; simpl.
  - apply respects_bind; [apply respects_handle |]. intros resp. apply respects_ret.
  - apply respects_bind; [apply respects_cronTick |]. intros _. apply respects_ret.
Qed.

(** ** A tick while the store is unreachable *)

Lemma checkDevice_down env now cur entry x :
  (forall i, store env i = None) ->
  if quiet cur entry
  then checkDevice now cur entry env x = (Ok tt, x)
  else exists e sent, checkDevice now cur entry env x = (Throw e, mkExec (world x) sent).
Proof.
  intros Hdown. destruct entry as [d config].
  unfold quiet, checkDevice, bind, includes, pool_query. simpl.
  destruct (feeding_times config) as [| b | q | s | items | fields]; simpl;
    try (exists TypeError, (issued x); now destruct x).
  - destruct (JS.strIncludes cur s); simpl; [| reflexivity].
    rewrite Hdown. eauto.
  - destruct (JS.arrIncludes cur items); simpl; [| reflexivity].
    rewrite Hdown. eauto.
Qed.

Lemma forEach_down env now cur entries : forall x,
  (forall i, store env i = None) ->
  if forallb (quiet cur) entries
  then forEach entries (checkDevice now cur) env x = (Ok tt, x)
  else exists e sent,
      forEach entries (checkDevice now cur) env x = (Throw e, mkExec (world x) sent).
Proof.
  induction entries as [| entry rest IH]; intros x Hdown; [reflexivity |].
  cbn [forEach forallb]. unfold bind.
  pose proof (checkDevice_down env now cur entry x Hdown) as Hc.
  destruct (quiet cur entry); simpl.
  - rewrite Hc. now apply IH.
  - destruct Hc as (e & sent & ->). eauto.
Qed.

Lemma cronTick_never_throws env x : fst (cronTick env x) = Ok tt.
Proof.
  rewrite cronTick_unfold. unfold tryCatch.
  destruct (forEach _ _ env x) as [[[] | e] x1]; reflexivity.
Qed.

Lemma handle_never_throws r env x : exists resp, fst (handle r env x) = Ok resp.
Proof.
  assert (forall (m : M Response) msg,
             exists resp,
               fst (tryCatch m (fun _ => log error msg ;;
                                         ret (mkResponse 500 InternalServerError)) env x)
               = Ok resp) as Htry.
  { intros m msg. unfold tryCatch. destruct (m env x) as [[resp | e] x1]; simpl; eauto. }
  destruct r; simpl; try apply Htry.
  unfold getHealth, bind, newDate, ret. simpl. eauto.
Qed.

(** A tick during which the store rejects every query: it ends without
    throwing, changes nothing but the log, and every later operation answers
    and acts as if it had not run. *)
Lemma tick_store_down (env : Env) (w : World) :
  (forall i, store env i = None) ->
  fst (run cronTick env w) = Ok tt
  /\ deviceConfigs (step CronTick env w) = deviceConfigs w
  /\ db (step CronTick env w) = db w
  /\ logger (step CronTick env w) =
       (if forallb (quiet (currentTime (tzOffset env) (clock env))) (deviceConfigs w)
        then logger w else logger w ++ [tickError])%list
  /\ (forall o env',
        fst (run (operation o) env' (step CronTick env w)) = fst (run (operation o) env' w)
        /\ deviceConfigs (step o env' (step CronTick env w)) = deviceConfigs (step o env' w)
        /\ db (step o env' (step CronTick env w)) = db (step o env' w)).
Proof.
  intros Hdown.
  assert (deviceConfigs (step CronTick env w) = deviceConfigs w
          /\ db (step CronTick env w) = db w
          /\ logger (step CronTick env w) =
               (if forallb (quiet (currentTime (tzOffset env) (clock env))) (deviceConfigs w)
                then logger w else logger w ++ [tickError])%list) as (Hmap & Hdb & Hlog).
  { rewrite step_cronTick, cronTick_unfold. unfold tryCatch. simpl.
    pose proof (forEach_down env (clock env) (currentTime (tzOffset env) (clock env))
                  (deviceConfigs w) (mkExec w []) Hdown) as Hloop.
    destruct (forallb _ (deviceConfigs w)).
    - rewrite Hloop. simpl. auto.
    - destruct Hloop as (e & sent & ->). simpl. auto. }
  split; [apply cronTick_never_throws |].
  repeat split; try assumption;
    destruct (respects_operation o env' (mkExec (step CronTick env w) []) (mkExec w []))
      as (Hr & Hm & Hd & _); try (repeat split; simpl; assumption);
    unfold step, run; assumption.
Qed.

Lemma turns_exited evs : turns evs Exited = Exited.
Proof. induction evs as [| ev rest IH]; [reflexivity | exact IH]. Qed.

Lemma turns_handled evs : forall w,
  forallb isHandled evs = true -> exists w', turns evs (Running w) = Running w'.
Proof.
  induction evs as [| ev rest IH]; intros w H; [now exists w |].
  cbn [forallb] in H. apply andb_true_iff in H as [Hev Hrest].
  destruct ev as [o env |]; [| discriminate]. cbn [turns turn]. now apply IH.
Qed.


(** ** The two schemas, spelled out *)

Lemma unknown_key_none sch fields :
  Joi.unknown_key sch fields = None <->
  forall k v, In (k, v) fields -> Joi.declared sch k = true.
Proof.
  induction fields as [| [k v] rest IH]; simpl.
  - split; [intros _ k v [] | reflexivity].
  - destruct (Joi.declared sch k) eqn:Hk.
    + rewrite IH. split.
      * intros H k' v' [[= <- <-] | Hin]; [exact Hk | eauto].
      * intros H k' v' Hin. eauto.
    + split; [discriminate |]. intros H. specialize (H k v (or_introl eq_refl)). congruence.
Qed.

Lemma declared_in sch k :
  Joi.declared sch k = true <-> In k (map (fun ks => fst (fst ks)) sch).
Proof.
  unfold Joi.declared. rewrite existsb_exists, in_map_iff. split.
  - intros [ks [Hin Heq]]. apply String.eqb_eq in Heq. eauto.
  - intros [ks [Heq Hin]]. exists ks. split; [exact Hin |]. now apply String.eqb_eq.
Qed.

Lemma string_ok j : Joi.string_ j = None <-> exists s, j = JStr s /\ s <> "".
Proof.
  destruct j as [| b | q | s | l | f]; simpl;
    try (split; [discriminate | intros [s' [[=] _]]]).
  destruct s; simpl.
  - split; [discriminate | intros [s' [[= <-] Hne]]; congruence].
  - split; [intros _; eexists; split; [reflexivity | discriminate] | reflexivity].
Qed.

Lemma valid_ok allowed j :
  Joi.valid allowed j = None <-> exists a, j = JStr a /\ In a allowed.
Proof.
  destruct j as [| b | q | s | l | f]; simpl;
    try (split; [discriminate | intros [s' [[=] _]]]).
  destruct (existsb (String.eqb s) allowed) eqn:Hex.
  - apply existsb_exists in Hex as [a [Hin Heq]]. apply String.eqb_eq in Heq. subst a.
    split; eauto.
  - split; [discriminate |]. intros [a [[= <-] Hin]].
    assert (existsb (String.eqb s) allowed = true) as Hyes.
    { apply existsb_exists. exists s. split; [exact Hin | apply String.eqb_refl]. }
    congruence.
Qed.

Lemma string_pattern_ok re j :
  Joi.string_pattern re j = None <-> exists s, j = JStr s /\ s <> "" /\ re s = true.
Proof.
  destruct j as [| b | q | s | l | f]; simpl;
    try (split; [discriminate | intros [s' [[=] _]]]).
  destruct s as [| c s]; simpl.
  - split; [discriminate | intros [s' [[= <-] [Hne _]]]; congruence].
  - destruct (re (String c s)) eqn:Hre.
    + split; [| reflexivity]. intros _. eexists. repeat split; [discriminate | exact Hre].
    + split; [discriminate |]. intros [s' [[= <-] [_ Hs]]]. congruence.
Qed.

Lemma hhmm_nonempty s : hhmm s = true -> s <> "".
Proof. now destruct s. Qed.

Lemma validate_feedingLog body :
  Joi.validate feedingLogSchema body = None <-> event_schema_ok body.
Proof.
  unfold event_schema_ok. destruct body as [| b | q | s | l | fields];
    try (split; [discriminate | intros [f [[=] _]]]).
  unfold Joi.validate, feedingLogSchema. cbn [Joi.validate_keys].
  pose proof (string_ok) as Hstr. pose proof (valid_ok actions) as Hval.
  split.
  - intros H. exists fields. split; [reflexivity |].
    destruct (prop "device_id" fields) as [v1 |]; [| discriminate].
    destruct (Joi.string_ v1) eqn:E1; [discriminate |]. apply Hstr in E1.
    destruct (prop "action" fields) as [v2 |]; [| discriminate].
    fold actions in H.
    destruct (Joi.valid actions v2) eqn:E2; [discriminate |]. apply Hval in E2.
    destruct (prop "timestamp" fields) as [v3 |]; [| discriminate].
    unfold Joi.date_iso in H. destruct (isoDate v3) eqn:E3; [| discriminate].
    destruct E1 as [s1 [-> Hs1]]. destruct E2 as [a [-> Ha]].
    assert ((forall j, prop "details" fields = Some j -> Joi.isObject convert j = true)
            /\ Joi.unknown_key feedingLogSchema fields = None) as [Hdet Hunk].
    { unfold feedingLogSchema. fold actions.
      destruct (prop "details" fields) as [v4 |].
      - unfold Joi.object_ in H. destruct (Joi.isObject convert v4) eqn:E4; [| discriminate].
        split; [now intros j [= <-] | exact H].
      - split; [discriminate | exact H]. }
    repeat split; eauto.
    intros k v Hin. rewrite unknown_key_none in Hunk.
    apply Hunk, declared_in in Hin. exact Hin.
  - intros (f & [= <-] & (s1 & -> & Hs1) & (a & -> & Ha) & (ts & -> & Hts) & Hdet & Hkeys).
    assert (Joi.string_ (JStr s1) = None) as -> by (apply Hstr; eauto).
    fold actions.
    assert (Joi.valid actions (JStr a) = None) as -> by (apply Hval; eauto).
    unfold Joi.date_iso. rewrite Hts.
    assert (Joi.unknown_key
              [("device_id", Joi.required, Joi.string_);
               ("action", Joi.required, Joi.valid actions);
               ("timestamp", Joi.required,
                fun j => if isoDate j then None else Some "date.format");
               ("details", Joi.optional, Joi.object_ convert)] fields = None) as Hunk.
    { apply unknown_key_none. intros k v Hin. apply declared_in.
      exact (Hkeys k v Hin). }
    destruct (prop "details" fields) as [v4 |]; [| exact Hunk].
    unfold Joi.object_ at 1. rewrite (Hdet v4 eq_refl). exact Hunk.
Qed.

Lemma array_items_ok j :
  Joi.array_items convert (Joi.string_pattern hhmm) j = None <->
  exists items, Joi.asArray convert j = Some items
                /\ Forall (fun x => exists s, x = JStr s /\ hhmm s = true) items.
Proof.
  unfold Joi.array_items. destruct (Joi.asArray convert j) as [items |].
  - destruct (forallb _ items) eqn:Hall.
    + split; [| reflexivity]. intros _. exists items. split; [reflexivity |].
      rewrite forallb_forall in Hall. apply Forall_forall. intros x Hx.
      specialize (Hall x Hx).
      destruct (Joi.string_pattern hhmm x) eqn:Ex; [discriminate |].
      apply string_pattern_ok in Ex as (s & -> & _ & Hs). eauto.
    + split; [discriminate |]. intros (items' & [= <-] & Hitems).
      assert (forallb (fun x => match Joi.string_pattern hhmm x with
                                | None => true | Some _ => false end) items = true) as Hyes.
      { apply forallb_forall. intros x Hx. rewrite Forall_forall in Hitems.
        destruct (Hitems x Hx) as (s & -> & Hs).
        assert (Joi.string_pattern hhmm (JStr s) = None) as ->; [| reflexivity].
        apply string_pattern_ok. exists s. auto using hhmm_nonempty. }
      congruence.
  - split; [discriminate | intros (items & [=] & _)].
Qed.

Lemma number_min_max_ok j :
  Joi.number_min_max convert (1#1) (120#1) j = None <->
  exists q, Joi.asNumber convert j = Some q /\ (1 <= q)%Q /\ (q <= 120)%Q.
Proof.
  unfold Joi.number_min_max. destruct (Joi.asNumber convert j) as [q |].
  - destruct (Qle_bool (1#1) q) eqn:Hlo; simpl.
    + destruct (Qle_bool q (120#1)) eqn:Hhi; simpl.
      * split; [| reflexivity]. intros _. exists q.
        apply Qle_bool_iff in Hlo. apply Qle_bool_iff in Hhi. auto.
      * split; [discriminate |]. intros (q' & [= <-] & _ & H).
        apply Qle_bool_iff in H. congruence.
    + split; [discriminate |]. intros (q' & [= <-] & H & _).
      apply Qle_bool_iff in H. congruence.
  - split; [discriminate | intros (q & [=] & _)].
Qed.

Lemma validate_configUpdate body :
  Joi.validate configUpdateSchema body = None <-> config_shape_ok body.
Proof.
  unfold config_shape_ok. destruct body as [| b | q | s | l | fields];
    try (split; [discriminate | intros [f [[=] _]]]).
  unfold Joi.validate, configUpdateSchema. cbn [Joi.validate_keys].
  split.
  - intros H. exists fields. split; [reflexivity |].
    destruct (prop "device_id" fields) as [v1 |]; [| discriminate].
    destruct (Joi.string_ v1) eqn:E1; [discriminate |]. apply string_ok in E1.
    destruct (prop "feeding_times" fields) as [v2 |]; [| discriminate].
    destruct (Joi.array_items convert (Joi.string_pattern hhmm) v2) eqn:E2; [discriminate |].
    apply array_items_ok in E2.
    destruct (prop "duration_minutes" fields) as [v3 |]; [| discriminate].
    destruct (Joi.number_min_max convert (1#1) (120#1) v3) eqn:E3; [discriminate |].
    apply number_min_max_ok in E3.
    destruct E1 as [s1 [-> Hs1]]. destruct E2 as (items & Hitems & Hall).
    destruct E3 as (q & Hq & Hlo & Hhi).
    repeat split; eauto 6.
    intros k v Hin. rewrite unknown_key_none in H.
    apply H, declared_in in Hin. exact Hin.
  - intros (f & [= <-] & (s1 & -> & Hs1) & (ft & items & -> & Hitems & Hall)
            & (dm & q & -> & Hq & Hlo & Hhi) & Hkeys).
    assert (Joi.string_ (JStr s1) = None) as -> by (apply string_ok; eauto).
    assert (Joi.array_items convert (Joi.string_pattern hhmm) ft = None) as ->
        by (apply array_items_ok; eauto).
    assert (Joi.number_min_max convert (1#1) (120#1) dm = None) as ->
        by (apply number_min_max_ok; eauto).
    apply unknown_key_none. intros k v Hin. apply declared_in.
    exact (Hkeys k v Hin).
Qed.

(** ** POST /api/feeding/log *)

Lemma postFeedingLog_invalid body e env x :
  Joi.validate feedingLogSchema body = Some e ->
  postFeedingLog body env x = (Ok (mkResponse 400 (ValidationError e)), x).
Proof. intros H. unfold postFeedingLog, tryCatch. now rewrite H. Qed.

Lemma postFeedingLog_stored body env x t z :
  Joi.validate feedingLogSchema body = None ->
  store env (List.length (issued x)) = Some t ->
  pgTimestamp (val (field "timestamp" body)) = Some z ->
  postFeedingLog body env x =
  (Ok (mkResponse 200 (Success None)),
   let w := world x in
   let d := db w in
   mkExec
     (mkWorld (deviceConfigs w)
        (Pg.mkDatabase (Pg.device_configs d)
           (Pg.feeding_logs d ++
              [Pg.mkFeedingLog (Pg.feeding_logs_id_seq d)
                 (str (field "device_id" body)) (str (field "action" body)) z
                 (orEmptyObject (field "details" body)) t])
           (Pg.missed_feedings d) (Pg.feeding_logs_id_seq d + 1)
           (Pg.missed_feedings_id_seq d))
        (logger w ++ [(info, "Feeding event logged: " ++ str (field "device_id" body)
                             ++ " - " ++ str (field "action" body))]))
     (issued x ++ [feedingLogInsert body])).
Proof.
  intros Hv Hs Hz. unfold postFeedingLog, tryCatch, bind, pool_query. rewrite Hv, Hs.
  simpl. now rewrite Hz.
Qed.

Lemma postFeedingLog_failed body env x :
  Joi.validate feedingLogSchema body = None ->
  store env (List.length (issued x)) = None
  \/ pgTimestamp (val (field "timestamp" body)) = None ->
  postFeedingLog body env x =
  (Ok (mkResponse 500 InternalServerError),
   let w := world x in
   mkExec (mkWorld (deviceConfigs w) (db w)
             (logger w ++ [(error, "Error logging feeding event:")]))
          (issued x ++ [feedingLogInsert body])).
Proof.
  intros Hv Hf. unfold postFeedingLog, tryCatch, bind, pool_query. rewrite Hv.
  destruct (store env _) as [t |]; [| reflexivity].
  destruct Hf as [Hf | Hf]; [discriminate |]. simpl. now rewrite Hf.
Qed.

(** C6 (as the code has it). POST /api/feeding/log answers 400 exactly when
    the body violates the event schema, and then changes nothing.  On a
    body that satisfies the schema it sends one INSERT: when the store
    takes it, one row is appended to feeding_logs and the answer is 200;
    when the store rejects it (unreachable, or the timestamp is not one it
    can read) no row is inserted and the answer is 500. *)
Theorem feeding_log_endpoint (reqBody : json) (env : Env) (w : World) :
  let out := run (postFeedingLog reqBody) env w in
  let w' := world (snd out) in
  exists resp,
    fst out = Ok resp
    /\ (status resp = 400 <-> ~ event_schema_ok reqBody)
    /\ (~ event_schema_ok reqBody -> w' = w)
    /\ (event_schema_ok reqBody ->
          issued (snd out) = [feedingLogInsert reqBody]
          /\ match store env 0%nat, pgTimestamp (val (field "timestamp" reqBody)) with
             | Some t, Some z =>
                 status resp = 200
                 /\ Pg.feeding_logs (db w') =
                    (Pg.feeding_logs (db w) ++
                       [Pg.mkFeedingLog (Pg.feeding_logs_id_seq (db w))
                          (str (field "device_id" reqBody)) (str (field "action" reqBody)) z
                          (orEmptyObject (field "details" reqBody)) t])%list
                 /\ Pg.device_configs (db w') = Pg.device_configs (db w)
                 /\ Pg.missed_feedings (db w') = Pg.missed_feedings (db w)
                 /\ deviceConfigs w' = deviceConfigs w
             | _, _ => status resp = 500 /\ db w' = db w /\ deviceConfigs w' = deviceConfigs w
             end).
Proof.
  intros out w'. subst out w'. unfold run.
  destruct (Joi.validate feedingLogSchema reqBody) as [e |] eqn:Hv.
  - assert (~ event_schema_ok reqBody) as Hbad.
    { intros Hok. apply validate_feedingLog in Hok. congruence. }
    rewrite (postFeedingLog_invalid reqBody e env (mkExec w []) Hv). simpl.
    eexists. split; [reflexivity |]. simpl. repeat split; auto; intros; tauto.
  - assert (event_schema_ok reqBody) as Hok by (now apply validate_feedingLog).
    destruct (store env 0%nat) as [t |] eqn:Hs.
    + destruct (pgTimestamp (val (field "timestamp" reqBody))) as [z |] eqn:Hz.
      * rewrite (postFeedingLog_stored reqBody env (mkExec w []) t z Hv Hs Hz). simpl.
        eexists. split; [reflexivity |]. simpl.
        repeat split; auto; try tauto; discriminate.
      * rewrite (postFeedingLog_failed reqBody env (mkExec w []) Hv (or_intror Hz)). simpl.
        eexists. split; [reflexivity |]. simpl.
        repeat split; auto; try tauto; discriminate.
    + rewrite (postFeedingLog_failed reqBody env (mkExec w []) Hv (or_introl Hs)). simpl.
      eexists. split; [reflexivity |]. simpl.
      repeat split; auto; try tauto; discriminate.
Qed.

(** ** POST /api/device/config *)

Lemma mapGet_mapSet_same {V} key (v : V) m : mapGet key (mapSet key v m) = Some v.
Proof.
  induction m as [| [k v0] rest IH]; simpl.
  - now rewrite String.eqb_refl.
  - destruct (String.eqb k key) eqn:Hk; simpl; now rewrite Hk.
Qed.

Lemma mapGet_mapSet_other {V} key key' (v : V) m :
  key' <> key -> mapGet key' (mapSet key v m) = mapGet key' m.
Proof.
  intros Hne. induction m as [| [k v0] rest IH]; simpl.
  - destruct (String.eqb key key') eqn:Hk; [| reflexivity].
    apply String.eqb_eq in Hk. congruence.
  - destruct (String.eqb k key) eqn:Hk; simpl.
    + apply String.eqb_eq in Hk. subst k.
      destruct (String.eqb key key') eqn:Hk'; [| reflexivity].
      apply String.eqb_eq in Hk'. congruence.
    + now rewrite IH.
Qed.

Lemma mapSet_keys {V} key (v : V) m k :
  In k (map fst (mapSet key v m)) <-> k = key \/ In k (map fst m).
Proof.
  induction m as [| [k0 v0] rest IH]; simpl.
  - intuition.
  - destruct (String.eqb k0 key) eqn:Hk; simpl.
    + apply String.eqb_eq in Hk. subst k0. intuition.
    + rewrite IH. intuition.
Qed.

Lemma config_row_updated d ft dm t rows :
  config_row d
    (map (fun r => if String.eqb (Pg.cfg_device_id r) d
                   then Pg.mkConfigRow d ft dm (Pg.cfg_created_at r) t else r) rows) =
  match config_row d rows with
  | Some r => Some (Pg.mkConfigRow d ft dm (Pg.cfg_created_at r) t)
  | None => None
  end.
Proof.
  unfold config_row. induction rows as [| r rest IH]; simpl; [reflexivity |].
  destruct (String.eqb (Pg.cfg_device_id r) d) eqn:Hr; simpl.
  - now rewrite String.eqb_refl.
  - now rewrite Hr.
Qed.

Lemma config_row_none d rows :
  existsb (fun r => String.eqb (Pg.cfg_device_id r) d) rows = false <->
  config_row d rows = None.
Proof.
  unfold config_row. induction rows as [| r rest IH]; simpl; [tauto |].
  destruct (String.eqb (Pg.cfg_device_id r) d); simpl; [split; discriminate | exact IH].
Qed.

Lemma config_row_app d rows more :
  config_row d (rows ++ more) =
  match config_row d rows with Some r => Some r | None => config_row d more end.
Proof.
  unfold config_row. induction rows as [| r rest IH]; simpl; [reflexivity |].
  now destruct (String.eqb (Pg.cfg_device_id r) d).
Qed.

(** The upsert: the device's row carries the new schedule and duration and
    the time of the update; it keeps its creation time when the row was
    there already. *)
Lemma upsert_config_same d ft dm t rows :
  config_row d (Pg.upsert_config d ft dm t rows) =
  Some (Pg.mkConfigRow d ft dm
          (match config_row d rows with Some r => Pg.cfg_created_at r | None => t end) t).
Proof.
  unfold Pg.upsert_config.
  destruct (existsb _ rows) eqn:Hex.
  - rewrite config_row_updated. destruct (config_row d rows) eqn:Hrow; [reflexivity |].
    apply config_row_none in Hrow. congruence.
  - apply config_row_none in Hex. rewrite config_row_app, Hex.
    unfold config_row. simpl. now rewrite String.eqb_refl.
Qed.

(** The upsert leaves the rows of other devices as they are. *)
Lemma upsert_config_other d d' ft dm t rows :
  d' <> d -> config_row d' (Pg.upsert_config d ft dm t rows) = config_row d' rows.
Proof.
  intros Hne. unfold Pg.upsert_config.
  destruct (existsb _ rows).
  - unfold config_row. induction rows as [| r rest IH]; simpl; [reflexivity |].
    destruct (String.eqb (Pg.cfg_device_id r) d) eqn:Hr; simpl.
    + apply String.eqb_eq in Hr.
      destruct (String.eqb d d') eqn:Hd; [apply String.eqb_eq in Hd; congruence |].
      rewrite Hr, Hd. exact IH.
    + now rewrite IH.
  - rewrite config_row_app. destruct (config_row d' rows); [reflexivity |].
    unfold config_row. simpl.
    destruct (String.eqb d d') eqn:Hd; [apply String.eqb_eq in Hd; congruence | reflexivity].
Qed.

Lemma postDeviceConfig_invalid body e env x :
  Joi.validate configUpdateSchema body = Some e ->
  postDeviceConfig body env x = (Ok (mkResponse 400 (ValidationError e)), x).
Proof. intros H. unfold postDeviceConfig, tryCatch. now rewrite H. Qed.

Lemma postDeviceConfig_stored body env x t :
  Joi.validate configUpdateSchema body = None ->
  store env (List.length (issued x)) = Some t ->
  postDeviceConfig body env x =
  (Ok (mkResponse 200 (Success (Some "Configuration updated"))),
   let w := world x in
   let d := db w in
   let device_id := str (field "device_id" body) in
   mkExec
     (mkWorld (mapSet device_id (configEntry body (clock env)) (deviceConfigs w))
        (Pg.mkDatabase
           (Pg.upsert_config device_id (val (field "feeding_times" body))
              (val (field "duration_minutes" body)) t (Pg.device_configs d))
           (Pg.feeding_logs d) (Pg.missed_feedings d)
           (Pg.feeding_logs_id_seq d) (Pg.missed_feedings_id_seq d))
        (logger w ++ [(info, "Device config updated: " ++ device_id)]))
     (issued x ++ [configUpsert body])).
Proof.
  intros Hv Hs.
  unfold postDeviceConfig, tryCatch, bind, pool_query, newDate, deviceConfigs_set.
  rewrite Hv. simpl. now rewrite Hs.
Qed.

Lemma postDeviceConfig_failed body env x :
  Joi.validate configUpdateSchema body = None ->
  store env (List.length (issued x)) = None ->
  postDeviceConfig body env x =
  (Ok (mkResponse 500 InternalServerError),
   let w := world x in
   mkExec
     (mkWorld (mapSet (str (field "device_id" body)) (configEntry body (clock env))
                 (deviceConfigs w))
        (db w) (logger w ++ [(error, "Error updating device config:")]))
     (issued x ++ [configUpsert body])).
Proof.
  intros Hv Hs.
  unfold postDeviceConfig, tryCatch, bind, pool_query, newDate, deviceConfigs_set.
  rewrite Hv. simpl. now rewrite Hs.
Qed.

(** C7 (as the code has it). POST /api/device/config answers 400 exactly
    when the body is outside the config schema, and then leaves the map and
    the tables as they were.  On a body inside the schema the handler first
    sets the device's entry in the in-memory map, then sends the upsert:
    when the store takes it, the device's row is created, or its
    feeding_times and duration_minutes replaced, other rows untouched, and
    the answer is 200; when the store rejects it, the tables are unchanged
    and the answer is 500, the in-memory entry staying set. *)
Theorem device_config_endpoint (reqBody : json) (env : Env) (w : World) :
  let out := run (postDeviceConfig reqBody) env w in
  let w' := world (snd out) in
  let d := str (field "device_id" reqBody) in
  let ft := val (field "feeding_times" reqBody) in
  let dm := val (field "duration_minutes" reqBody) in
  exists resp,
    fst out = Ok resp
    /\ (status resp = 400 <-> ~ config_shape_ok reqBody)
    /\ (~ config_shape_ok reqBody -> deviceConfigs w' = deviceConfigs w /\ db w' = db w)
    /\ (config_shape_ok reqBody ->
          mapGet d (deviceConfigs w') = Some (mkDeviceConfig ft dm (clock env))
          /\ (forall d', d' <> d -> mapGet d' (deviceConfigs w') = mapGet d' (deviceConfigs w))
          /\ match store env 0%nat with
             | Some t =>
                 status resp = 200
                 /\ config_row d (Pg.device_configs (db w')) =
                    Some (Pg.mkConfigRow d ft dm
                            (match config_row d (Pg.device_configs (db w)) with
                             | Some r => Pg.cfg_created_at r
                             | None => t
                             end) t)
                 /\ (forall d', d' <> d ->
                       config_row d' (Pg.device_configs (db w')) =
                       config_row d' (Pg.device_configs (db w)))
                 /\ Pg.feeding_logs (db w') = Pg.feeding_logs (db w)
                 /\ Pg.missed_feedings (db w') = Pg.missed_feedings (db w)
             | None => status resp = 500 /\ db w' = db w
             end).
Proof.
  intros out w' d ft dm. subst out w'. unfold run.
  destruct (Joi.validate configUpdateSchema reqBody) as [e |] eqn:Hv.
  - assert (~ config_shape_ok reqBody) as Hbad.
    { intros Hok. apply validate_configUpdate in Hok. congruence. }
    rewrite (postDeviceConfig_invalid reqBody e env (mkExec w []) Hv). simpl.
    eexists. split; [reflexivity |]. simpl. repeat split; auto; intros; tauto.
  - assert (config_shape_ok reqBody) as Hok by (now apply validate_configUpdate).
    destruct (store env 0%nat) as [t |] eqn:Hs.
    + rewrite (postDeviceConfig_stored reqBody env (mkExec w []) t Hv Hs). simpl.
      eexists. split; [reflexivity |]. simpl.
      repeat split; auto; try tauto; try discriminate.
      * apply mapGet_mapSet_same.
      * intros d' Hne. now apply mapGet_mapSet_other.
      * apply upsert_config_same.
      * intros d' Hne. now apply upsert_config_other.
    + rewrite (postDeviceConfig_failed reqBody env (mkExec w []) Hv Hs). simpl.
      eexists. split; [reflexivity |]. simpl.
      repeat split; auto; try tauto; try discriminate.
      * apply mapGet_mapSet_same.
      * intros d' Hne. now apply mapGet_mapSet_other.
Qed.

(** ** Which devices the detector looks at *)

Lemma handle_map_kept r : writesMap r = false -> preserves anyEnv map_kept (handle r).
Proof.
  intros Hr. apply preserves_handle_when; unfold map_kept.
  - reflexivity.
  - intros x y z H1 H2. now rewrite H2.
  - intros l msg env x _. reflexivity.
  - intros q env x _. unfold pool_query.
    destruct (store env _) as [t |]; [| reflexivity].
    destruct (Pg.exec _ _ q t _) as [[rows d] |]; reflexivity.
  - congruence.
Qed.

(** An operation leaves the map alone, unless it is a POST
    /api/device/config with a body inside the schema, which sets the entry of
    its device. *)
Lemma step_map o env w :
  deviceConfigs (step o env w) = deviceConfigs w
  \/ exists reqBody,
      o = Http (PostDeviceConfig reqBody)
      /\ config_shape_ok reqBody
      /\ deviceConfigs (step o env w) =
         mapSet (str (field "device_id" reqBody)) (configEntry reqBody (clock env))
           (deviceConfigs w).
Proof.
  destruct o as [r |].
  - destruct (writesMap r) eqn:Hr.
    + destruct r as [| reqBody | | | |]; try discriminate.
      unfold step, run, operation, handle, bind.
      destruct (Joi.validate configUpdateSchema reqBody) as [e |] eqn:Hv.
      * rewrite (postDeviceConfig_invalid reqBody e env (mkExec w []) Hv). simpl. auto.
      * assert (config_shape_ok reqBody) as Hok by (now apply validate_configUpdate).
        right. exists reqBody. repeat split; [exact Hok |].
        destruct (store env 0%nat) as [t |] eqn:Hs.
        -- now rewrite (postDeviceConfig_stored reqBody env (mkExec w []) t Hv Hs).
        -- now rewrite (postDeviceConfig_failed reqBody env (mkExec w []) Hv Hs).
    + left. pose proof (handle_map_kept r Hr env (mkExec w []) I) as Hkept.
      unfold map_kept in Hkept. simpl in Hkept.
      unfold step, run, operation, bind.
      destruct (handle r env (mkExec w [])) as [[resp | e] x1]; exact Hkept.
  - left. rewrite step_cronTick.
    destruct (cronTick_effect env w) as (Hmap & _). exact Hmap.
Qed.

Lemma step_keys o env w k :
  In k (map fst (deviceConfigs (step o env w))) ->
  In k (map fst (deviceConfigs w))
  \/ exists reqBody, o = Http (PostDeviceConfig reqBody)
                     /\ config_shape_ok reqBody
                     /\ str (field "device_id" reqBody) = k.
Proof.
  destruct (step_map o env w) as [-> | (reqBody & Ho & Hok & ->)]; [auto |].
  rewrite mapSet_keys. intros [-> | Hin]; eauto.
Qed.

Lemma steps_keys h : forall w k,
  In k (map fst (deviceConfigs (steps h w))) ->
  In k (map fst (deviceConfigs w)) \/ registered h k.
Proof.
  induction h as [| [o env] rest IH]; intros w k Hk; simpl in *; [now left |].
  destruct (IH _ _ Hk) as [Hin | (reqBody & env' & Hin & Hok & Hd)].
  - destruct (step_keys o env w k Hin) as [Hw | (reqBody & -> & Hok & Hd)]; [now left |].
    right. exists reqBody, env. repeat split; auto. now left.
  - right. exists reqBody, env'. repeat split; auto. now right.
Qed.

(** C9 (as the code has it). From the start of the process on, a detector
    tick records incidents only for devices for which a POST
    /api/device/config with a body inside the schema has been handled, be
    its answer 200 or, the store failing, 500.  The tick sends nothing but
    the COUNT on feeding_logs and the INSERT into missed_feedings, and only
    for keys of the in-memory map: the device_configs table is never read,
    whatever it holds. *)
Theorem incidents_only_for_posted_configs
  (d0 : Pg.Database) (h : list (Op * Env)) (env : Env) :
  let w := steps h (boot d0) in
  let out := run cronTick env w in
  (exists new,
      Pg.missed_feedings (db (world (snd out))) = (Pg.missed_feedings (db w) ++ new)%list
      /\ Forall (fun r => registered h (Pg.mf_device_id r)) new)
  /\ Forall (fun q => exists d,
                 registered h d
                 /\ In d (map fst (deviceConfigs w))
                 /\ (q = Pg.CountRecentOpens d
                     \/ q = Pg.InsertMissedFeeding d (clock env)))
       (issued (snd out)).
Proof.
  intros w out. subst out. unfold run.
  destruct (cronTick_effect env w) as (_ & _ & _ & (new & Hnew & Pnew) & (sent & Hsent & Qsent)).
  assert (forall d config, In (d, config) (deviceConfigs w) ->
                           registered h d /\ In d (map fst (deviceConfigs w))) as Hreg.
  { intros d config Hin.
    assert (In d (map fst (deviceConfigs w))) as Hk.
    { apply in_map_iff. exists (d, config). auto. }
    split; [| exact Hk].
    destruct (steps_keys h (boot d0) d Hk) as [[] | Hr]. exact Hr. }
  split.
  - exists new. split; [exact Hnew |].
    eapply Forall_impl; [| exact Pnew].
    intros r (_ & _ & _ & config & Hin & _). now apply (Hreg _ config).
  - simpl in Hsent. rewrite Hsent.
    eapply Forall_impl; [| exact Qsent].
    intros q (d & config & Hin & _ & Hq). exists d.
    destruct (Hreg d config Hin). auto.
Qed.

(** ** The statistics queries *)

Lemma list_ascii_of_append s1 s2 :
  list_ascii_of_string (s1 ++ s2) =
  (list_ascii_of_string s1 ++ list_ascii_of_string s2)%list.
Proof. induction s1 as [| c s1 IH]; simpl; [reflexivity | now rewrite IH]. Qed.

Lemma list_ascii_inj s1 s2 :
  list_ascii_of_string s1 = list_ascii_of_string s2 -> s1 = s2.
Proof.
  intros H. rewrite <- (string_of_list_ascii_of_string s1), H.
  apply string_of_list_ascii_of_string.
Qed.

Lemma interval_text_inj head tail s1 s2 :
  head ++ "INTERVAL '" ++ s1 ++ " days'" ++ tail =
  head ++ "INTERVAL '" ++ s2 ++ " days'" ++ tail -> s1 = s2.
Proof.
  intros H. apply (f_equal list_ascii_of_string) in H.
  rewrite !list_ascii_of_append in H.
  apply app_inv_head, app_inv_head, app_inv_tail in H. now apply list_ascii_inj.
Qed.

(** C10. GET /api/stats/:device_id always sends the first statistics
    query, and sends the second whenever the store takes the first (and only
    then).  The text of each has the [days] value of the request, whatever
    string it is, spliced in between [INTERVAL '] and [ days'], inside text
    that is the same for every request; the only bound parameter is the
    device id.  Different [days] strings give different query texts. *)
Theorem stats_query_embeds_days
  (device_id : string) (days : option string) (env : Env) (w : World) :
  let out := run (getStats device_id days) env w in
  let q1 := Pg.Select (statsSqlHead ++ "INTERVAL '" ++ daysText days ++ " days'"
                         ++ statsSqlTail)
              [Pg.PJson (JStr device_id)] in
  let q2 := Pg.Select (missedStatsSqlHead ++ "INTERVAL '" ++ daysText days ++ " days'"
                         ++ missedStatsSqlTail)
              [Pg.PJson (JStr device_id)] in
  (issued (snd out) = [q1] \/ issued (snd out) = [q1; q2])
  /\ (forall t rows,
        store env 0%nat = Some t ->
        pgSelect (Pg.sqlText q1) (Pg.sqlParams q1) t (db w) = Some rows ->
        issued (snd out) = [q1; q2])
  /\ (store env 0%nat = None
      \/ (exists t, store env 0%nat = Some t
                    /\ pgSelect (Pg.sqlText q1) (Pg.sqlParams q1) t (db w) = None) ->
      issued (snd out) = [q1])
  /\ (forall resp, fst out = Ok resp -> status resp = 200 -> issued (snd out) = [q1; q2])
  /\ (forall s, daysText (Some s) = s)
  /\ (forall s1 s2, statsSql (Some s1) = statsSql (Some s2) -> s1 = s2)
  /\ (forall s1 s2, missedStatsSql (Some s1) = missedStatsSql (Some s2) -> s1 = s2).
Proof.
  intros out q1 q2.
  assert ((issued (snd out) = [q1]
           /\ (forall resp, fst out = Ok resp -> status resp <> 200)
           /\ (store env 0%nat = None
               \/ exists t, store env 0%nat = Some t
                            /\ pgSelect (Pg.sqlText q1) (Pg.sqlParams q1) t (db w) = None))
          \/ (issued (snd out) = [q1; q2]
              /\ exists t rows,
                  store env 0%nat = Some t
                  /\ pgSelect (Pg.sqlText q1) (Pg.sqlParams q1) t (db w) = Some rows))
    as Hsent.
  { subst out q1 q2. fold (statsSql days). fold (missedStatsSql days).
    unfold run, getStats. cbn [Pg.sqlText Pg.sqlParams].
    generalize (statsSql days) as sql1. generalize (missedStatsSql days) as sql2.
    intros sql2 sql1.
    unfold tryCatch, bind, pool_query. simpl.
    destruct (store env 0%nat) as [t |]; simpl.
    - destruct (pgSelect sql1 _ t (db w)) as [rows |] eqn:Hfirst; simpl.
      + right. split; [| eauto].
        destruct (store env 1%nat) as [t' |]; simpl; [| reflexivity].
        destruct (pgSelect sql2 _ t' (db w)); reflexivity.
      + left. split; [reflexivity |]. split; [intros resp [= <-]; discriminate |].
        right. eauto.
    - left. split; [reflexivity |]. split; [intros resp [= <-]; discriminate |].
      now left. }
  split; [destruct Hsent as [[H _] | [H _]]; auto |].
  split.
  { intros t rows Hs Hq. destruct Hsent as [(_ & _ & Hrej) | [H _]]; [| exact H].
    destruct Hrej as [Hnone | (t' & Hs' & Hq')]; congruence. }
  split.
  { intros Hrej. destruct Hsent as [[H _] | (_ & t & rows & Hs & Hq)]; [exact H |].
    destruct Hrej as [Hnone | (t' & Hs' & Hq')]; congruence. }
  split.
  { intros resp Hr Hs. destruct Hsent as [(_ & H & _) | [H _]]; [| exact H].
    now apply H in Hr. }
  split; [reflexivity |].
  split; intros s1 s2; unfold statsSql, missedStatsSql, daysText; apply interval_text_inj.
Qed.

(** ** When the detector records an incident *)

Lemma toString_zero c : 0 <= c -> String.eqb (JS.toString c) "0" = (c =? 0).
Proof.
  intros Hc. destruct (Z.eqb_spec c 0) as [-> | Hne]; [reflexivity |].
  apply String.eqb_neq. intros H. apply Hne. unfold JS.toString in H.
  assert (Z.to_N c = 0%N) as Hn; [| lia].
  rewrite <- (DecimalN.Unsigned.of_to (Z.to_N c)).
  destruct (N.to_uint (Z.to_N c)) eqn:Hu; try reflexivity;
    pose proof (NilZero.usu (N.to_uint (Z.to_N c))) as Husu;
    rewrite Hu in Husu; rewrite H in Husu;
    specialize (Husu ltac:(discriminate)); simpl in Husu;
    injection Husu as <-; reflexivity.
Qed.

Lemma count_zero_iff d t database :
  Pg.count_recent_opens d t database = 0 <->
  ~ open_since d (t - Pg.five_minutes) (Pg.feeding_logs database).
Proof.
  unfold Pg.count_recent_opens, open_since.
  set (logs := Pg.feeding_logs database). clearbody logs.
  split.
  - intros H (r & Hin & Hd & Ha & Ht).
    assert (In r (filter (Pg.recent_open d t) logs)) as Hf.
    { apply filter_In. split; [exact Hin |]. unfold Pg.recent_open.
      rewrite Hd, Ha, String.eqb_refl. simpl. now apply Z.leb_le. }
    destruct (filter (Pg.recent_open d t) logs); [destruct Hf | discriminate].
  - intros H. destruct (filter (Pg.recent_open d t) logs) as [| r rest] eqn:Hf; [reflexivity |].
    exfalso. apply H. exists r.
    assert (In r (filter (Pg.recent_open d t) logs)) as Hin by (rewrite Hf; now left).
    apply filter_In in Hin as [Hin Hr]. unfold Pg.recent_open in Hr.
    apply andb_true_iff in Hr as [Hr Ht]. apply andb_true_iff in Hr as [Hd Ha].
    apply String.eqb_eq in Hd. apply String.eqb_eq in Ha. apply Z.leb_le in Ht. auto.
Qed.

Lemma clockAt_up env i : store env i <> None -> store env i = Some (clockAt env i).
Proof. unfold clockAt. destruct (store env i); [reflexivity | congruence]. Qed.

Lemma checkDevice_up env now cur entry x :
  (forall i, store env i <> None) ->
  schedule_ok entry ->
  exists x',
    checkDevice now cur entry env x = (Ok tt, x')
    /\ deviceConfigs (world x') = deviceConfigs (world x)
    /\ (issued x', db (world x')) = detect env now cur (issued x, db (world x)) entry.
Proof.
  intros Hup Hok. destruct entry as [d config].
  unfold schedule_ok, detect, isDue in *. simpl in *.
  unfold checkDevice, bind, includes, pool_query, countIsZero.
  assert (forall q, List.length (issued x ++ [q]) = (List.length (issued x) + 1)%nat) as Hlen1
      by (intros q; rewrite length_app; reflexivity).
  assert (forall t, 0 <= Pg.count_recent_opens d t (db (world x))) as Hc
      by (intros t; unfold Pg.count_recent_opens; lia).
  destruct (feeding_times config) as [| b | q | s | items | fields]; try contradiction; simpl.
  - destruct (JS.strIncludes cur s); simpl;
      [| eexists; repeat split; reflexivity].
    rewrite (clockAt_up env _ (Hup _)). simpl. rewrite (toString_zero _ (Hc _)).
    destruct (Pg.count_recent_opens d _ (db (world x)) =? 0); simpl.
    + rewrite (clockAt_up env _ (Hup _)). simpl. rewrite Hlen1.
      eexists; repeat split. simpl. now rewrite <- app_assoc.
    + eexists; repeat split.
  - destruct (JS.arrIncludes cur items); simpl;
      [| eexists; repeat split; reflexivity].
    rewrite (clockAt_up env _ (Hup _)). simpl. rewrite (toString_zero _ (Hc _)).
    destruct (Pg.count_recent_opens d _ (db (world x)) =? 0); simpl.
    + rewrite (clockAt_up env _ (Hup _)). simpl. rewrite Hlen1.
      eexists; repeat split. simpl. now rewrite <- app_assoc.
    + eexists; repeat split.
Qed.

Lemma forEach_up env now cur entries : forall x,
  (forall i, store env i <> None) ->
  Forall schedule_ok entries ->
  exists x',
    forEach entries (checkDevice now cur) env x = (Ok tt, x')
    /\ deviceConfigs (world x') = deviceConfigs (world x)
    /\ (issued x', db (world x')) =
       fold_left (detect env now cur) entries (issued x, db (world x)).
Proof.
  induction entries as [| entry rest IH]; intros x Hup Hok.
  - exists x. auto.
  - inversion Hok as [| ? ? Hentry Hrest]; subst.
    destruct (checkDevice_up env now cur entry x Hup Hentry) as (x1 & Hrun & Hmap & Hdb).
    destruct (IH x1 Hup Hrest) as (x2 & Hrun2 & Hmap2 & Hdb2).
    exists x2. cbn [forEach fold_left]. unfold bind. rewrite Hrun.
    repeat split; [exact Hrun2 | congruence | congruence].
Qed.

Lemma has_incident_app d s rows more :
  has_incident d s (rows ++ more) = has_incident d s rows || has_incident d s more.
Proof. unfold has_incident. apply existsb_app. Qed.

Lemma rows_for_app d rows more :
  rows_for d (rows ++ more) = (rows_for d rows ++ rows_for d more)%list.
Proof. unfold rows_for. apply filter_app. Qed.

Lemma rows_for_none d rows :
  (forall r, In r rows -> Pg.mf_device_id r <> d) -> rows_for d rows = [].
Proof.
  intros H. unfold rows_for. induction rows as [| r rest IH]; simpl; [reflexivity |].
  destruct (String.eqb (Pg.mf_device_id r) d) eqn:Hr.
  - apply String.eqb_eq in Hr. exfalso. apply (H r); [now left | exact Hr].
  - apply IH. intros r' Hr'. apply H. now right.
Qed.

Lemma detect_added env now cur acc entry :
  Pg.feeding_logs (snd (detect env now cur acc entry)) = Pg.feeding_logs (snd acc)
  /\ Pg.missed_feedings (snd (detect env now cur acc entry)) =
     (Pg.missed_feedings (snd acc) ++ added env now cur acc entry)%list
  /\ (exists more, fst (detect env now cur acc entry) = (fst acc ++ more)%list)
  /\ (isDue cur (snd entry) = true ->
      nth_error (fst (detect env now cur acc entry)) (List.length (fst acc)) =
      Some (Pg.CountRecentOpens (fst entry))).
Proof.
  unfold detect, added, Pg.insert_missed, has_incident.
  destruct (isDue cur (snd entry)); simpl.
  - destruct (Pg.count_recent_opens _ _ _ =? 0); simpl.
    + repeat split.
      * destruct (existsb _ (Pg.missed_feedings (snd acc))); simpl; [| reflexivity].
        now rewrite app_nil_r.
      * eauto.
      * intros _. rewrite nth_error_app2 by lia. now rewrite Nat.sub_diag.
    + repeat split.
      * now rewrite app_nil_r.
      * eauto.
      * intros _. rewrite nth_error_app2 by lia. now rewrite Nat.sub_diag.
  - repeat split.
    + now rewrite app_nil_r.
    + exists []. now rewrite app_nil_r.
    + discriminate.
Qed.

Lemma detect_fold_sent env now cur entries : forall acc,
  exists more, fst (fold_left (detect env now cur) entries acc) = (fst acc ++ more)%list.
Proof.
  induction entries as [| e0 rest IH]; intros acc; cbn [fold_left].
  - exists []. now rewrite app_nil_r.
  - destruct (IH (detect env now cur acc e0)) as [m1 H1].
    destruct (detect_added env now cur acc e0) as (_ & _ & [m0 H0] & _).
    exists (m0 ++ m1)%list. now rewrite H1, H0, app_assoc.
Qed.

(** The whole loop, for a map with no key twice: the event log is untouched,
    the incident table gains rows, and for each due entry the query of the
    tick that is the entry's COUNT decides, by what [NOW()] reads when it
    runs, whether the entry's device gains its one row. *)
Lemma detect_fold env now cur entries : forall acc,
  NoDup (map fst entries) ->
  Pg.feeding_logs (snd (fold_left (detect env now cur) entries acc)) = Pg.feeding_logs (snd acc)
  /\ exists new,
      Pg.missed_feedings (snd (fold_left (detect env now cur) entries acc)) =
      (Pg.missed_feedings (snd acc) ++ new)%list
      /\ (forall r, In r new -> In (Pg.mf_device_id r) (map fst entries))
      /\ (forall entry, In entry entries ->
            exists i,
              (isDue cur (snd entry) = true ->
               nth_error (fst (fold_left (detect env now cur) entries acc)) i =
               Some (Pg.CountRecentOpens (fst entry)))
              /\ List.length (rows_for (fst entry) new) =
                 if isDue cur (snd entry)
                    && (Pg.count_recent_opens (fst entry) (clockAt env i) (snd acc) =? 0)
                    && negb (has_incident (fst entry) now (Pg.missed_feedings (snd acc)))
                 then 1%nat else 0%nat).
Proof.
  induction entries as [| e0 rest IH]; intros acc Hnd; cbn [fold_left].
  - split; [reflexivity |]. exists []. rewrite app_nil_r. repeat split; intros ? [].
  - simpl in Hnd. inversion Hnd as [| ? ? Hnotin Hnd']; subst.
    destruct (detect_added env now cur acc e0) as (Hlogs0 & Hmiss0 & _ & Hnth0).
    destruct (IH (detect env now cur acc e0) Hnd') as (Hlogs & new1 & Hmiss & Hdev & Hcount).
    split; [congruence |].
    exists (added env now cur acc e0 ++ new1)%list.
    assert (forall r, In r (added env now cur acc e0) -> Pg.mf_device_id r = fst e0) as Hadd0.
    { unfold added. intros r.
      destruct (_ && _ && _); [intros [<- | []]; reflexivity | intros []]. }
    repeat split.
    + rewrite Hmiss, Hmiss0. now rewrite app_assoc.
    + intros r Hr. simpl. apply in_app_iff in Hr as [Hr | Hr]; [left | right; auto].
      symmetry. now apply Hadd0.
    + intros entry [<- | Hin].
      * exists (List.length (fst acc)). split.
        -- intros Hdue. specialize (Hnth0 Hdue).
           destruct (detect_fold_sent env now cur rest (detect env now cur acc e0))
             as [more ->].
           rewrite nth_error_app1; [exact Hnth0 |].
           apply nth_error_Some. now rewrite Hnth0.
        -- rewrite rows_for_app, length_app.
           rewrite (rows_for_none (fst e0) new1).
           ++ simpl. rewrite Nat.add_0_r. unfold added.
              destruct (_ && _ && _); simpl; [now rewrite String.eqb_refl | reflexivity].
           ++ intros r Hr Heq. apply Hnotin. rewrite <- Heq. now apply Hdev.
      * assert (fst entry <> fst e0) as Hne.
        { intros Heq. apply Hnotin. rewrite <- Heq. now apply in_map. }
        destruct (Hcount entry Hin) as [i [Hnth Hi]]. exists i.
        split; [exact Hnth |].
        rewrite rows_for_app, length_app.
        rewrite (rows_for_none (fst entry) (added env now cur acc e0)).
        -- simpl. rewrite Hi. clear Hi Hcount Hnth.
           assert (Pg.count_recent_opens (fst entry) (clockAt env i)
                     (snd (detect env now cur acc e0)) =
                   Pg.count_recent_opens (fst entry) (clockAt env i) (snd acc)) as ->.
           { unfold Pg.count_recent_opens. now rewrite Hlogs0. }
           rewrite Hmiss0, has_incident_app.
           assert (has_incident (fst entry) now (added env now cur acc e0) = false) as ->.
           { unfold added. destruct (_ && _ && _); [| reflexivity].
             unfold has_incident, Pg.same_incident. simpl.
             destruct (String.eqb (fst e0) (fst entry)) eqn:He; [| reflexivity].
             apply String.eqb_eq in He. congruence. }
           now rewrite orb_false_r.
        -- intros r Hr Heq. apply Hadd0 in Hr. congruence.
Qed.

(** ** The map of a running process *)

Lemma mapSet_ok key v m : schedule_ok (key, v) -> map_ok m -> map_ok (mapSet key v m).
Proof.
  intros Hv [Hnd Hall]. induction m as [| [k v0] rest IH]; simpl.
  - split; [repeat constructor; intros [] | repeat constructor; exact Hv].
  - simpl in Hnd. inversion Hnd as [| ? ? Hnotin Hnd']; subst.
    inversion Hall as [| ? ? Hk Hrest]; subst.
    destruct (String.eqb k key) eqn:Hkey.
    + apply String.eqb_eq in Hkey. subst k. split; simpl.
      * now constructor.
      * constructor; assumption.
    + destruct (IH Hnd' Hrest) as [IHnd IHall]. split; simpl.
      * constructor; [| exact IHnd]. rewrite mapSet_keys. intros [-> | Hin].
        -- now rewrite String.eqb_refl in Hkey.
        -- contradiction.
      * constructor; assumption.
Qed.

Lemma configEntry_ok reqBody d now :
  config_shape_ok reqBody -> schedule_ok (d, configEntry reqBody now).
Proof.
  intros (fields & -> & _ & (ft & items & Hft & Harr & _) & _).
  unfold schedule_ok, configEntry. simpl. rewrite Hft. simpl.
  destruct ft; simpl in Harr; try discriminate; exact I.
Qed.

Lemma steps_map_ok h : forall w, map_ok (deviceConfigs w) -> map_ok (deviceConfigs (steps h w)).
Proof.
  induction h as [| [o env] rest IH]; intros w Hw; simpl; [exact Hw |].
  apply IH. destruct (step_map o env w) as [-> | (reqBody & _ & Hok & ->)]; [exact Hw |].
  apply mapSet_ok; [now apply configEntry_ok | exact Hw].
Qed.

(** C2 (as the code has it). An incident is keyed by its device and by the
    instant the tick read from the clock, to the millisecond.  That key stays
    unique in missed_feedings over any history of requests and ticks,
    whatever the store does, and a tick at an instant for which every due
    device already has its incident leaves the table unchanged.  A run at
    any other instant is not idempotent, be it in the same minute: with the
    store up, a due device with no 'open' event and no incident at that very
    instant gets one more row, filed under the new instant, whatever
    incidents it already has. *)
Theorem detector_idempotent (h : list (Op * Env)) (env : Env) (w : World) :
  keys_unique (Pg.missed_feedings (db w)) ->
  keys_unique (Pg.missed_feedings (db (steps h w)))
  /\ ((forall d config, In (d, config) (deviceConfigs w) ->
         isDue (currentTime (tzOffset env) (clock env)) config = true ->
         has_incident d (clock env) (Pg.missed_feedings (db w)) = true) ->
      Pg.missed_feedings (db (step CronTick env w)) = Pg.missed_feedings (db w))
  /\ (forall d config,
        map_ok (deviceConfigs w) ->
        (forall i, store env i <> None) ->
        In (d, config) (deviceConfigs w) ->
        isDue (currentTime (tzOffset env) (clock env)) config = true ->
        (forall t, ~ open_since d t (Pg.feeding_logs (db w))) ->
        has_incident d (clock env) (Pg.missed_feedings (db w)) = false ->
        exists new r,
          Pg.missed_feedings (db (step CronTick env w))
          = (Pg.missed_feedings (db w) ++ new)%list
          /\ rows_for d new = [r]
          /\ Pg.mf_scheduled_time r = clock env).
Proof.
  intros Hu. split; [now apply steps_keys_unique |].
  split; [intros Hpresent; apply cronTick_table_kept; exact Hpresent |].
  intros d config [Hnd Hall] Hup Hin Hdue Hnoopen Hnone.
  set (now := clock env) in *. set (cur := currentTime (tzOffset env) now) in *.
  destruct (forEach_up env now cur (deviceConfigs w) (mkExec w []) Hup Hall)
    as (x' & Hrun & _ & Hdb).
  simpl in Hdb.
  assert (db (step CronTick env w) = db (world x')) as Hstep.
  { rewrite step_cronTick, cronTick_unfold. unfold tryCatch. cbn [world]. fold now.
    fold cur. now rewrite Hrun. }
  destruct (detect_fold env now cur (deviceConfigs w) ([], db w) Hnd)
    as (_ & new & Hnew & _ & Hcount).
  rewrite <- Hdb in Hnew. simpl in Hnew.
  destruct (Hcount (d, config) Hin) as [i [_ Hi]]. simpl in Hi.
  rewrite Hdue, Hnone in Hi.
  assert (Pg.count_recent_opens d (clockAt env i) (db w) = 0) as Hzero.
  { apply count_zero_iff. apply Hnoopen. }
  rewrite Hzero in Hi. simpl in Hi.
  destruct (rows_for d new) as [| r [| r' rest]] eqn:Hrows; try discriminate.
  exists new, r. split; [rewrite Hstep; exact Hnew |]. split; [exact Hrows |].
  destruct (cronTick_effect env w) as (_ & _ & _ & (new' & Hnew' & Pnew) & _).
  rewrite <- step_cronTick, Hstep, Hnew in Hnew'. simpl in Hnew'.
  apply app_inv_head in Hnew'. subst new'.
  assert (In r new) as Hr.
  { assert (In r (rows_for d new)) as Hf by (rewrite Hrows; now left).
    unfold rows_for in Hf. now apply filter_In in Hf. }
  rewrite Forall_forall in Pnew. destruct (Pnew r Hr) as [Hs _]. exact Hs.
Qed.

(** C1 (as the code has it). In a running process, at a tick during which
    the store answers every query, take a device of the map whose schedule
    includes the current time of day, and let [t] be what [NOW()] reads when
    the device's COUNT query runs.  The tick records an incident for the
    device exactly when the event log holds no [open] event of the device
    stamped [t] minus five minutes or later, and the device has no incident
    yet under the tick's instant; it never records more than one. *)
Theorem detector_records_iff
  (d0 : Pg.Database) (h : list (Op * Env)) (env : Env)
  (deviceId : string) (config : DeviceConfig) :
  let w := steps h (boot d0) in
  let w' := step CronTick env w in
  (forall i, store env i <> None) ->
  In (deviceId, config) (deviceConfigs w) ->
  isDue (currentTime (tzOffset env) (clock env)) config = true ->
  exists new i t,
    nth_error (issued (snd (run cronTick env w))) i = Some (Pg.CountRecentOpens deviceId)
    /\ store env i = Some t
    /\ Pg.missed_feedings (db w') = (Pg.missed_feedings (db w) ++ new)%list
    /\ ((exists r, In r new /\ Pg.mf_device_id r = deviceId)
        <-> ~ open_since deviceId (t - Pg.five_minutes) (Pg.feeding_logs (db w))
            /\ has_incident deviceId (clock env) (Pg.missed_feedings (db w)) = false)
    /\ (List.length (rows_for deviceId new) <= 1)%nat.
Proof.
  intros w w' Hup Hin Hdue. subst w'.
  assert (map_ok (deviceConfigs w)) as [Hnd Hall].
  { apply steps_map_ok. split; constructor. }
  set (now := clock env). set (cur := currentTime (tzOffset env) (clock env)) in *.
  destruct (forEach_up env now cur (deviceConfigs w) (mkExec w []) Hup Hall)
    as (x' & Hrun & _ & Hdb).
  simpl in Hdb.
  assert (snd (run cronTick env w) = x') as Hout.
  { unfold run. rewrite cronTick_unfold. unfold tryCatch. cbn [world]. fold now.
    change (currentTime (tzOffset env) now) with cur. now rewrite Hrun. }
  assert (db (step CronTick env w) = db (world x')) as Hstep.
  { rewrite step_cronTick. unfold run in Hout. now rewrite Hout. }
  destruct (detect_fold env now cur (deviceConfigs w) ([], db w) Hnd)
    as (_ & new & Hnew & Hdev & Hcount).
  rewrite <- Hdb in Hnew, Hcount.
  destruct (Hcount (deviceId, config) Hin) as [i [Hnth Hi]]. simpl in Hi, Hnth.
  rewrite Hdue in Hi. simpl in Hi, Hnew.
  exists new, i, (clockAt env i).
  split; [rewrite Hout; now apply Hnth |].
  split; [apply clockAt_up, Hup |].
  rewrite Hstep. split; [exact Hnew |].
  assert ((exists r, In r new /\ Pg.mf_device_id r = deviceId)
          <-> List.length (rows_for deviceId new) <> 0%nat) as ->.
  { unfold rows_for. split.
    - intros (r & Hr & Hd) Hlen.
      assert (In r (filter (fun r => String.eqb (Pg.mf_device_id r) deviceId) new)) as Hf.
      { apply filter_In. split; [exact Hr |]. now apply String.eqb_eq. }
      destruct (filter _ new); [destruct Hf | discriminate].
    - intros Hlen. destruct (filter _ new) as [| r rest] eqn:Hf;
        [exfalso; apply Hlen; reflexivity |].
      assert (In r (filter (fun r => String.eqb (Pg.mf_device_id r) deviceId) new)) as Hr
          by (rewrite Hf; now left).
      apply filter_In in Hr as [Hr Hd]. apply String.eqb_eq in Hd. eauto. }
  rewrite Hi, <- count_zero_iff.
  destruct (Z.eqb_spec (Pg.count_recent_opens deviceId (clockAt env i) (db w)) 0) as [Hz | Hz];
    destruct (has_incident deviceId now (Pg.missed_feedings (db w))); simpl;
    (split; [split; [intuition (congruence || lia) | intuition (congruence || lia)] | lia]).
Qed.

(** ** Feeding times and the detector's clock *)

Lemma between_in lo hi c :
  between lo hi c = true ->
  In c (map ascii_of_nat (seq (nat_of_ascii lo) (nat_of_ascii hi - nat_of_ascii lo + 1))).
Proof.
  unfold between. intros H. apply andb_true_iff in H as [H1 H2].
  apply Nat.leb_le in H1. apply Nat.leb_le in H2.
  apply in_map_iff. exists (nat_of_ascii c). split; [apply ascii_nat_embedding |].
  apply in_seq. lia.
Qed.

Ltac each_char :=
  repeat match goal with
         | H : _ \/ _ |- _ => destruct H as [<- | H]
         | H : False |- _ => destruct H
         end.

(** A string the pattern accepts is the clock face of the minute it reads as. *)
Lemma hhmm_readFace s :
  hhmm s = true -> 0 <= readFace s < 1440 /\ s = clockFace (readFace s).
Proof.
  destruct s as [| a [| b [| colon [| c [| d [| ? ?]]]]]]; try discriminate.
  unfold hhmm. intros H.
  apply andb_true_iff in H as [H Hd]. apply andb_true_iff in H as [H Hc].
  apply andb_true_iff in H as [Hab Hcolon].
  apply Ascii.eqb_eq in Hcolon. subst colon.
  apply between_in in Hc. apply between_in in Hd.
  vm_compute in Hc. vm_compute in Hd.
  apply orb_true_iff in Hab as [Hab | Hab]; apply andb_true_iff in Hab as [Ha Hb].
  - apply between_in in Ha. apply between_in in Hb.
    vm_compute in Ha. vm_compute in Hb.
    each_char; now vm_compute.
  - apply Ascii.eqb_eq in Ha. subst a. apply between_in in Hb. vm_compute in Hb.
    each_char; now vm_compute.
Qed.

Lemma clockFace_hhmm m : 0 <= m < 1440 -> hhmm (clockFace m) = true.
Proof.
  intros Hm.
  assert (forallb (fun n => hhmm (clockFace (Z.of_nat n))) (seq 0 1440) = true) as Hall
      by (vm_compute; reflexivity).
  rewrite forallb_forall in Hall.
  specialize (Hall (Z.to_nat m)). rewrite Z2Nat.id in Hall by lia.
  apply Hall, in_seq. lia.
Qed.

Lemma minuteOfDay_bound tz now : 0 <= minuteOfDay tz now < 1440.
Proof. apply Z.mod_pos_bound. lia. Qed.

(** X1. The pattern of the config schema accepts exactly the strings the
    detector can compute as the current time: every feeding time that passes
    validation can come due, and the current time always has the form the
    schema demands. *)
Theorem pattern_accepts_what_the_clock_shows (s : string) :
  hhmm s = true <-> exists tz now, s = currentTime tz now.
Proof.
  split.
  - intros H. destruct (hhmm_readFace s H) as [Hb Hs].
    exists 0, (readFace s * 60000). rewrite currentTime_clockFace.
    unfold minuteOfDay. rewrite Z.add_0_r, Z.div_mul by lia.
    rewrite Z.mod_small by lia. exact Hs.
  - intros (tz & now & ->). rewrite currentTime_clockFace.
    apply clockFace_hhmm, minuteOfDay_bound.
Qed.

(** X2. A schedule of validated feeding times is due at an instant exactly
    when one of its entries names the minute of the host's day the instant
    falls in. *)
Theorem feeding_time_due_in_its_minute
  (tz now : Z) (items : list json) (dm : json) (lu : Z) :
  Forall (fun j => exists s, j = JStr s /\ hhmm s = true) items ->
  (isDue (currentTime tz now) (mkDeviceConfig (JArr items) dm lu) = true
   <-> exists s, In (JStr s) items /\ readFace s = minuteOfDay tz now).
Proof.
  intros Hall. unfold isDue. simpl. unfold JS.arrIncludes. rewrite existsb_exists. split.
  - intros (j & Hin & Hj). destruct j as [| | | s | |]; try discriminate.
    apply String.eqb_eq in Hj. subst s. exists (currentTime tz now). split; [exact Hin |].
    rewrite currentTime_clockFace. apply readFace_clockFace, minuteOfDay_bound.
  - intros (s & Hin & Hs). exists (JStr s). split; [exact Hin |]. apply String.eqb_eq.
    rewrite Forall_forall in Hall. destruct (Hall _ Hin) as (s' & [= <-] & Hv).
    destruct (hhmm_readFace s Hv) as [_ Hface]. rewrite Hface, Hs.
    symmetry. apply currentTime_clockFace.
Qed.

(** ** What a handler sends *)

Lemma getMissed_unfold d date env x :
  getMissed d date env x =
  tryCatch
    (rows <- pool_query
               (Pg.Select missedSql
                  [Pg.PJson (JStr d);
                   Pg.PJson (JStr (match date with
                                   | Some s => s
                                   | None => toISODate (clock env)
                                   end))]) ;;
     ret (mkResponse 200 (Rows rows)))
    (fun _ =>
       log error "Error fetching missed feedings:" ;;
       ret (mkResponse 500 InternalServerError)) env x.
Proof. reflexivity. Qed.

Lemma getFeedingLogs_unfold d s e l env x :
  getFeedingLogs d s e l env x =
  tryCatch
    (rows <- pool_query (Pg.Select (fst (feedingLogsQuery d s e l))
                                   (snd (feedingLogsQuery d s e l))) ;;
     ret (mkResponse 200 (Rows rows)))
    (fun _ =>
       log error "Error fetching logs:" ;;
       ret (mkResponse 500 InternalServerError)) env x.
Proof. unfold getFeedingLogs. now destruct (feedingLogsQuery d s e l). Qed.

Section Sends.
Variable R : Exec -> Exec -> Prop.
Hypothesis R_refl : forall x, R x x.
Hypothesis R_trans : forall x y z, R x y -> R y z -> R x z.
Hypothesis R_log : forall l msg env, preserves (eq env) R (log l msg).

(** A relation holds across a handler as soon as it holds across the
    statements of that handler, and across the write to the map for the one
    handler that writes to it. *)
Lemma handle_rule r env x :
  (forall q, In q (statementsOf r env) -> preserves (eq env) R (pool_query q)) ->
  (writesMap r = true -> forall k v, preserves (eq env) R (deviceConfigs_set k v)) ->
  R x (snd (handle r env x)).
Proof.
  pose proof (fun A a => @preserves_ret (eq env) R R_refl A a) as Hret.
  pose proof (@preserves_bind (eq env) R R_trans) as Hbind.
  pose proof (@preserves_tryCatch (eq env) R R_trans) as Htry.
  assert (forall msg, preserves (eq env) R
                        (log error msg ;; ret (mkResponse 500 InternalServerError))) as Hcatch.
  { intros msg. apply Hbind; [apply R_log |]. intros _. apply Hret. }
  destruct r as [| reqBody | reqBody | d s e l | d date | d days];
    cbn [handle statementsOf writesMap]; intros Hq Hset.
  - apply R_refl.
  - refine (Htry _ _ _ _ _ env x eq_refl); [| intros _; apply Hcatch].
    destruct (Joi.validate configUpdateSchema reqBody); [apply Hret |].
    apply Hbind; [apply preserves_newDate, R_refl |]. intros now.
    apply Hbind; [now apply Hset |]. intros _.
    apply Hbind; [apply Hq; now left |]. intros _.
    apply Hbind; [apply R_log |]. intros _. apply Hret.
  - refine (Htry _ _ _ _ _ env x eq_refl); [| intros _; apply Hcatch].
    destruct (Joi.validate feedingLogSchema reqBody); [apply Hret |].
    apply Hbind; [apply Hq; now left |]. intros _.
    apply Hbind; [apply R_log |]. intros _. apply Hret.
  - rewrite getFeedingLogs_unfold.
    refine (Htry _ _ _ _ _ env x eq_refl); [| intros _; apply Hcatch].
    apply Hbind; [apply Hq; now left |]. intros rows. apply Hret.
  - rewrite getMissed_unfold.
    refine (Htry _ _ _ _ _ env x eq_refl); [| intros _; apply Hcatch].
    apply Hbind; [apply Hq; now left |]. intros rows. apply Hret.
  - refine (Htry _ _ _ _ _ env x eq_refl); [| intros _; apply Hcatch].
    apply Hbind; [apply Hq; now left |]. intros stats.
    apply Hbind; [apply Hq; right; now left |]. intros missed. apply Hret.
Qed.
End Sends.

Lemma operation_http r env x :
  snd (operation (Http r) env x) = snd (handle r env x).
Proof.
  unfold operation, bind. now destruct (handle r env x) as [[resp | e] x1].
Qed.

Lemma operation_tick env x :
  snd (operation CronTick env x) = snd (cronTick env x).
Proof.
  unfold operation, bind. now destruct (cronTick env x) as [[[] | e] x1].
Qed.

(** ** Statements and their parameters *)

Lemma references_skip s post :
  hasDollar s = false -> references (s ++ post) = references post.
Proof.
  induction s as [| c s IH]; simpl; [reflexivity |].
  intros H. apply orb_false_iff in H as [Hc Hs]. rewrite Hc. now apply IH.
Qed.

Lemma references_statsSql days :
  hasDollar (daysText days) = false ->
  references (statsSql days) = ["1"] /\ references (missedStatsSql days) = ["1"].
Proof.
  intros H. unfold statsSql, missedStatsSql.
  assert (forall rest, references (statsSqlHead ++ "INTERVAL '" ++ rest)
                       = "1" :: references rest) as H1
      by (intros rest; vm_compute; reflexivity).
  assert (forall rest, references (missedStatsSqlHead ++ "INTERVAL '" ++ rest)
                       = "1" :: references rest) as H2
      by (intros rest; vm_compute; reflexivity).
  split.
  - rewrite H1, (references_skip _ _ H). vm_compute. reflexivity.
  - rewrite H2, (references_skip _ _ H). vm_compute. reflexivity.
Qed.

Lemma statementsOf_wellBound r env q :
  hasDollar (spliced (Http r)) = false ->
  In q (statementsOf r env) -> wellBound q = true.
Proof.
  destruct r as [| reqBody | reqBody | d s e l | d date | d days];
    cbn [statementsOf spliced]; intros Hd Hin.
  - destruct Hin.
  - destruct Hin as [<- | []]. reflexivity.
  - destruct Hin as [<- | []]. reflexivity.
  - destruct Hin as [<- | []]. unfold feedingLogsQuery.
    destruct (given s); destruct (given e); vm_compute; reflexivity.
  - destruct Hin as [<- | []]. vm_compute. reflexivity.
  - destruct (references_statsSql days Hd) as [H1 H2].
    destruct Hin as [<- | [<- | []]]; unfold wellBound; cbn [Pg.sqlText Pg.sqlParams].
    + rewrite H1. reflexivity.
    + rewrite H2. reflexivity.
Qed.

Lemma pool_query_issued q env x : issued (snd (pool_query q env x)) = (issued x ++ [q])%list.
Proof.
  unfold pool_query. destruct (store env _) as [t |]; [| reflexivity].
  now destruct (Pg.exec _ _ q t _) as [[rows d] |].
Qed.

(** X3. In every statement the server sends, text and parameters fit: with
    n values bound, the text refers to $1 ... $n, to each of them and to no
    other.  This holds for every request and for the detector's tick, in any
    state of the store; for GET /api/stats it needs the [days] of the request
    to be free of [$], since that text is written into the statement. *)
Theorem statements_fit_their_parameters (o : Op) (env : Env) (w : World) :
  hasDollar (spliced o) = false ->
  Forall (fun q => wellBound q = true) (issued (snd (run (operation o) env w))).
Proof.
  intros Hd. unfold run.
  set (ok := Forall (fun q => wellBound q = true)).
  set (R := fun x x' : Exec => ok (issued x) -> ok (issued x')).
  assert (forall x, R x x) as R_refl by (intros x H; exact H).
  assert (forall x y z, R x y -> R y z -> R x z) as R_trans
      by (intros x y z H1 H2 H; auto).
  assert (forall l msg e, preserves (eq e) R (log l msg)) as R_log
      by (intros l msg e e' x _ H; exact H).
  assert (forall q e, wellBound q = true -> preserves (eq e) R (pool_query q)) as R_query.
  { intros q e Hq e' x _ H. rewrite pool_query_issued. apply Forall_app. split; [exact H |].
    constructor; [exact Hq | constructor]. }
  assert (R (mkExec w []) (snd (operation o env (mkExec w [])))) as HR;
    [| apply HR; constructor].
  destruct o as [r |].
  - rewrite operation_http. apply (handle_rule R R_refl R_trans R_log).
    + intros q Hin. apply R_query. now apply (statementsOf_wellBound r env).
    + intros _ k v e' x _ H. exact H.
  - rewrite operation_tick.
    apply (cronTick_rule (eq env) R R_refl R_trans (fun l msg => R_log l msg env));
      [reflexivity | |]; intros d config _ _; now apply R_query.
Qed.

(** X4. The text of the query of GET /api/feeding/logs depends on nothing
    but whether [start_date] and [end_date] are given: the device, the two
    dates and the limit reach the store as bound values, never as text. *)
Theorem feeding_logs_text_ignores_values
  (d d' : string) (s s' e e' l l' : option string) :
  given s = given s' -> given e = given e' ->
  fst (feedingLogsQuery d s e l) = fst (feedingLogsQuery d' s' e' l').
Proof.
  intros Hs He. unfold feedingLogsQuery. rewrite Hs, He.
  destruct (given s'); destruct (given e'); reflexivity.
Qed.

(** ** The GET routes *)

Lemma selects_stats days :
  selects (Pg.Select (statsSql days) []) = true
  /\ selects (Pg.Select (missedStatsSql days) []) = true.
Proof.
  unfold selects, statsSql, missedStatsSql. cbn [Pg.sqlText].
  generalize ("INTERVAL '" ++ daysText days ++ " days'" ++ statsSqlTail).
  generalize ("INTERVAL '" ++ daysText days ++ " days'" ++ missedStatsSqlTail).
  intros rest2 rest1. split; vm_compute; reflexivity.
Qed.

(** The statements of a GET route: each a SELECT by its text, with values
    bound, and one the store evaluates as a read. *)
Lemma statementsOf_get r env q :
  isGet r = true -> In q (statementsOf r env) ->
  selects q = true /\ bindsValues q = true /\ exists text ps, q = Pg.Select text ps.
Proof.
  destruct r as [| reqBody | reqBody | d s e l | d date | d days];
    try discriminate; cbn [statementsOf]; intros _ Hin.
  - destruct Hin.
  - destruct Hin as [<- | []]. split; [| split; [| eauto]].
    + unfold feedingLogsQuery. destruct (given s); destruct (given e); vm_compute; reflexivity.
    + unfold feedingLogsQuery. destruct (given s); destruct (given e); reflexivity.
  - destruct Hin as [<- | []]. split; [vm_compute; reflexivity |]. split; [reflexivity | eauto].
  - destruct (selects_stats days) as [H1 H2].
    destruct Hin as [<- | [<- | []]]; (split; [assumption |]); split; (reflexivity || eauto).
Qed.

(** X5. A GET request, whatever its parameters and whatever the store does,
    sends nothing but statements whose text begins with SELECT, each with
    values bound (one statement for the store, also when [days] carries text
    of its own), and leaves the in-memory map and the rows of the three
    tables as they were. *)
Theorem get_requests_only_read (r : Request) (env : Env) (w : World) :
  isGet r = true ->
  Forall (fun q => selects q = true /\ bindsValues q = true)
    (issued (snd (run (handle r) env w)))
  /\ deviceConfigs (step (Http r) env w) = deviceConfigs w
  /\ Pg.device_configs (db (step (Http r) env w)) = Pg.device_configs (db w)
  /\ Pg.feeding_logs (db (step (Http r) env w)) = Pg.feeding_logs (db w)
  /\ Pg.missed_feedings (db (step (Http r) env w)) = Pg.missed_feedings (db w).
Proof.
  intros Hget. unfold step, run. rewrite operation_http.
  set (sel := Forall (fun q => selects q = true /\ bindsValues q = true)).
  set (R := fun x x' : Exec => rows_same x x' /\ (sel (issued x) -> sel (issued x'))).
  assert (R (mkExec w []) (snd (handle r env (mkExec w [])))) as [Hrows Hsel].
  { apply handle_rule.
    - intros x. split; [repeat split | auto].
    - intros x y z [(M1 & C1 & L1 & I1) S1] [(M2 & C2 & L2 & I2) S2].
      split; [repeat split; congruence | auto].
    - intros l msg e e' x _. split; [repeat split | auto].
    - intros q Hin e x _.
      destruct (statementsOf_get r env q Hget Hin) as (Hq & Hb & text & ps & ->).
      unfold R. rewrite pool_query_issued. split.
      + unfold rows_same, pool_query. destruct (store e _) as [t |]; simpl.
        * destruct (pgSelect text ps t (db (world x))); simpl; repeat split.
        * repeat split.
      + intros H. apply Forall_app. split; [exact H |]. constructor; [now split | constructor].
    - destruct r; discriminate. }
  destruct Hrows as (Hmap & Hc & Hl & Hi).
  split; [apply Hsel; constructor |]. repeat split; assumption.
Qed.

(** ** Answers and log lines *)

Ltac error_line :=
  split;
  [ first [ discriminate | intros _; eexists; reflexivity ]
  | intros Hline;
    first [ reflexivity
          | exfalso; destruct Hline as [msg Hm];
            first [ apply app_inv_head in Hm; discriminate
                  | apply (f_equal (@List.length _)) in Hm; rewrite length_app in Hm;
                    simpl in Hm; lia ] ] ].

Ltac answered :=
  eexists; split; [reflexivity |]; simpl;
  split; [tauto |]; split; [error_line |];
  first [ discriminate | intros _; split; reflexivity ].

(** X6. Every request is answered, with status 200, 400 or 500, whatever
    the store does.  The answer is 500 exactly when the handler wrote one
    error line to the log, and a request answered 400 has sent no statement
    and changed nothing, the log included. *)
Theorem every_request_is_answered (r : Request) (env : Env) (w : World) :
  exists resp,
    fst (run (handle r) env w) = Ok resp
    /\ In (status resp) [200; 400; 500]
    /\ (status resp = 500 <->
        exists msg, logger (world (snd (run (handle r) env w)))
                    = (logger w ++ [(error, msg)])%list)
    /\ (status resp = 400 ->
        world (snd (run (handle r) env w)) = w /\ issued (snd (run (handle r) env w)) = []).
Proof.
  unfold run.
  destruct r as [| reqBody | reqBody | d s e l | d date | d days]; cbn [handle].
  - unfold getHealth, bind, newDate, ret. simpl. answered.
  - destruct (Joi.validate configUpdateSchema reqBody) as [err |] eqn:Hv.
    + rewrite (postDeviceConfig_invalid reqBody err env _ Hv). answered.
    + destruct (store env 0%nat) as [t |] eqn:Hs.
      * rewrite (postDeviceConfig_stored reqBody env (mkExec w []) t Hv Hs). answered.
      * rewrite (postDeviceConfig_failed reqBody env (mkExec w []) Hv Hs). answered.
  - destruct (Joi.validate feedingLogSchema reqBody) as [err |] eqn:Hv.
    + rewrite (postFeedingLog_invalid reqBody err env _ Hv). answered.
    + destruct (store env 0%nat) as [t |] eqn:Hs;
        [destruct (pgTimestamp (val (field "timestamp" reqBody))) as [z |] eqn:Hz |].
      * rewrite (postFeedingLog_stored reqBody env (mkExec w []) t z Hv Hs Hz). answered.
      * rewrite (postFeedingLog_failed reqBody env (mkExec w []) Hv (or_intror Hz)).
        answered.
      * rewrite (postFeedingLog_failed reqBody env (mkExec w []) Hv (or_introl Hs)).
        answered.
  - rewrite getFeedingLogs_unfold. unfold tryCatch, bind, pool_query. simpl.
    destruct (store env 0%nat) as [t |]; simpl; [| answered].
    destruct (pgSelect _ _ t (db w)); simpl; answered.
  - rewrite getMissed_unfold. unfold tryCatch, bind, pool_query. simpl.
    destruct (store env 0%nat) as [t |]; simpl; [| answered].
    destruct (pgSelect _ _ t (db w)); simpl; answered.
  - unfold getStats, tryCatch, bind, pool_query. simpl.
    destruct (store env 0%nat) as [t |]; simpl; [| answered].
    destruct (pgSelect _ _ t (db w)); simpl; [| answered].
    destruct (store env 1%nat) as [t' |]; simpl; [| answered].
    destruct (pgSelect _ _ t' (db w)); simpl; answered.
Qed.

(** ** The map and the configuration table over a history *)

Lemma step_map_post reqBody env w :
  deviceConfigs (step (Http (PostDeviceConfig reqBody)) env w) =
  match Joi.validate configUpdateSchema reqBody with
  | None => mapSet (str (field "device_id" reqBody)) (configEntry reqBody (clock env))
              (deviceConfigs w)
  | Some _ => deviceConfigs w
  end.
Proof.
  unfold step, run. rewrite operation_http. cbn [handle].
  destruct (Joi.validate configUpdateSchema reqBody) as [err |] eqn:Hv.
  - now rewrite (postDeviceConfig_invalid reqBody err env _ Hv).
  - destruct (store env 0%nat) as [t |] eqn:Hs.
    + now rewrite (postDeviceConfig_stored reqBody env (mkExec w []) t Hv Hs).
    + now rewrite (postDeviceConfig_failed reqBody env (mkExec w []) Hv Hs).
Qed.

Lemma step_map_other o env w :
  (forall reqBody, o <> Http (PostDeviceConfig reqBody)) ->
  deviceConfigs (step o env w) = deviceConfigs w.
Proof.
  intros Hne. destruct (step_map o env w) as [H | (reqBody & Ho & _)]; [exact H |].
  now destruct (Hne reqBody).
Qed.

(** X7. After any history, the in-memory map holds for a device the entry
    of the latest POST /api/device/config for it whose body passed
    validation: its feeding times and duration, stamped with the time of that
    request, whether the store took the upsert or not.  A device no such
    request named has the entry it started with, none after a start. *)
Theorem map_holds_latest_valid_post (h : list (Op * Env)) (w : World) (d : string) :
  mapGet d (deviceConfigs (steps h w)) = latestConfig h d (mapGet d (deviceConfigs w)).
Proof.
  revert w. induction h as [| [o env] rest IH]; intros w; [reflexivity |].
  cbn [steps]. rewrite IH.
  destruct o as [[| reqBody | reqBody | d1 s e l | d1 date | d1 days] |]; cbn [latestConfig];
    try (rewrite step_map_other; [reflexivity | discriminate]).
  rewrite step_map_post.
  destruct (Joi.validate configUpdateSchema reqBody) as [err |]; [reflexivity |].
  destruct (String.eqb_spec (str (field "device_id" reqBody)) d) as [<- | Hne].
  - now rewrite mapGet_mapSet_same.
  - rewrite mapGet_mapSet_other; [reflexivity | congruence].
Qed.

Lemma upsert_config_keys d ft dm t rows :
  map Pg.cfg_device_id (Pg.upsert_config d ft dm t rows) =
  if existsb (fun r => String.eqb (Pg.cfg_device_id r) d) rows
  then map Pg.cfg_device_id rows
  else (map Pg.cfg_device_id rows ++ [d])%list.
Proof.
  unfold Pg.upsert_config. destruct (existsb _ rows).
  - rewrite map_map. apply map_ext_in. intros r _.
    destruct (String.eqb_spec (Pg.cfg_device_id r) d) as [-> | Hne]; reflexivity.
  - now rewrite map_app.
Qed.

Lemma upsert_configs_kept d ft dm t rows :
  configs_kept rows (Pg.upsert_config d ft dm t rows).
Proof.
  split.
  - unfold config_keys_unique. rewrite upsert_config_keys.
    destruct (existsb _ rows) eqn:Hex; [auto |].
    intros Hu. apply NoDup_snoc; [exact Hu |].
    intros Hin. apply in_map_iff in Hin as (r & Hr & Hin).
    assert (existsb (fun r => String.eqb (Pg.cfg_device_id r) d) rows = true) as Hyes.
    { apply existsb_exists. exists r. split; [exact Hin | now apply String.eqb_eq]. }
    congruence.
  - intros d' r Hrow. destruct (String.eqb_spec d' d) as [-> | Hne].
    + rewrite upsert_config_same, Hrow. eexists. split; reflexivity.
    + rewrite upsert_config_other by exact Hne. eauto.
Qed.

Lemma configs_kept_refl rows : configs_kept rows rows.
Proof. split; [auto | eauto]. Qed.

Lemma configs_kept_trans a b c : configs_kept a b -> configs_kept b c -> configs_kept a c.
Proof.
  intros [U1 P1] [U2 P2]. split; [auto |].
  intros d r Hr. destruct (P1 d r Hr) as (r1 & Hr1 & C1).
  destruct (P2 d r1 Hr1) as (r2 & Hr2 & C2). exists r2. split; [exact Hr2 | congruence].
Qed.

Lemma operation_config_rows_kept o : preserves anyEnv config_rows_kept (operation o).
Proof.
  apply preserves_operation; unfold config_rows_kept.
  - intros x. apply configs_kept_refl.
  - intros x y z. apply configs_kept_trans.
  - intros l msg env x _. apply configs_kept_refl.
  - intros q env x _. unfold pool_query.
    destruct (store env _) as [t |]; [| apply configs_kept_refl].
    destruct q as [d ft dm | d a ts det | d | d now | text ps]; simpl;
      try apply configs_kept_refl.
    + apply upsert_configs_kept.
    + destruct (pgTimestamp ts); apply configs_kept_refl.
    + destruct (pgSelect text ps t (db (world x))); apply configs_kept_refl.
  - intros k v env x _. apply configs_kept_refl.
Qed.

(** X9. Whatever the collector handles, the primary key of device_configs
    holds once it holds (the upsert never adds a second row for a device),
    and a device's row, once there, stays there with the creation time it
    has: no operation deletes a configuration or resets created_at. *)
Theorem device_configs_rows_stay (h : list (Op * Env)) (w : World) :
  config_keys_unique (Pg.device_configs (db w)) ->
  config_keys_unique (Pg.device_configs (db (steps h w)))
  /\ (forall d r, config_row d (Pg.device_configs (db w)) = Some r ->
        exists r', config_row d (Pg.device_configs (db (steps h w))) = Some r'
                   /\ Pg.cfg_created_at r' = Pg.cfg_created_at r).
Proof.
  assert (configs_kept (Pg.device_configs (db w)) (Pg.device_configs (db (steps h w))))
    as [Hu Hp]; [| now split; [apply Hu | exact Hp]].
  revert w. induction h as [| [o env] rest IH]; intros w; [apply configs_kept_refl |].
  cbn [steps]. eapply configs_kept_trans; [| apply IH].
  exact (operation_config_rows_kept o env (mkExec w []) I).
Qed.

(** ** More on the detector *)

Lemma includes_state ft cur env x :
  snd (includes ft cur env x) = x.
Proof. now destruct ft. Qed.

Lemma checkDevice_blocked env now cur entry x d z :
  open_since d z (Pg.feeding_logs (db (world x))) ->
  (forall i t, store env i = Some t -> t - Pg.five_minutes <= z) ->
  incidents_same d x (snd (checkDevice now cur entry env x)).
Proof.
  intros Hopen Hclock. destruct entry as [d' config]. unfold incidents_same.
  remember (snd (checkDevice now cur (d', config) env x)) as x' eqn:Hx'.
  unfold checkDevice, bind in Hx'.
  pose proof (includes_state (feeding_times config) cur env x) as Hst.
  destruct (includes (feeding_times config) cur env x) as [[due | e] x1];
    simpl in Hst; subst x1; [| subst x'; simpl; auto].
  destruct due; [| subst x'; simpl; auto].
  unfold pool_query at 1 in Hx'.
  destruct (store env (List.length (issued x))) as [t |] eqn:Hs;
    [| subst x'; simpl; auto].
  assert (0 <= Pg.count_recent_opens d' t (db (world x))) as Hc
      by (unfold Pg.count_recent_opens; lia).
  cbn [Pg.exec countIsZero prop String.eqb Ascii.eqb Bool.eqb ret world db deviceConfigs
       logger issued] in Hx'.
  rewrite (toString_zero _ Hc) in Hx'.
  destruct (Pg.count_recent_opens d' t (db (world x)) =? 0) eqn:Hzero;
    [| subst x'; simpl; auto].
  apply Z.eqb_eq, count_zero_iff in Hzero.
  unfold pool_query, log in Hx'.
  cbn [Pg.exec world db deviceConfigs logger issued] in Hx'.
  destruct (store env (List.length (issued x ++ [Pg.CountRecentOpens d']))) as [t' |];
    subst x'; cbn [snd world db deviceConfigs logger issued]; [| auto].
  unfold Pg.insert_missed. cbn [Pg.feeding_logs Pg.missed_feedings].
  split; [reflexivity |].
  destruct (existsb (Pg.same_incident d' now) (Pg.missed_feedings (db (world x))));
    [reflexivity |].
  rewrite rows_for_app. unfold rows_for at 2. cbn [filter Pg.mf_device_id].
  destruct (String.eqb_spec d' d) as [-> | Hne]; [| apply app_nil_r].
  exfalso. apply Hzero. destruct Hopen as (r & Hin & Hd & Ha & Ht).
  exists r. repeat split; try assumption. specialize (Hclock _ _ Hs). lia.
Qed.

Lemma forEach_blocked env now cur d z entries : forall x,
  open_since d z (Pg.feeding_logs (db (world x))) ->
  (forall i t, store env i = Some t -> t - Pg.five_minutes <= z) ->
  incidents_same d x (snd (forEach entries (checkDevice now cur) env x)).
Proof.
  induction entries as [| entry rest IH]; intros x Hopen Hclock; [now split |].
  cbn [forEach]. unfold bind.
  pose proof (checkDevice_blocked env now cur entry x d z Hopen Hclock) as [Hl Hr].
  destruct (checkDevice now cur entry env x) as [[[] | e] x1]; simpl in Hl, Hr;
    [| now split].
  assert (open_since d z (Pg.feeding_logs (db (world x1)))) as Hopen1 by now rewrite Hl.
  destruct (IH x1 Hopen1 Hclock) as [Hl2 Hr2]. split; congruence.
Qed.

(** X10. A device with an 'open' event that no reading of the store's clock
    during the tick finds older than five minutes gets no incident from
    that tick: whatever the rest of the map, whatever the tick does for other
    devices, and also when the store rejects some of the tick's statements. *)
Theorem reported_open_blocks_incident (env : Env) (w : World) (d : string) (z : Z) :
  open_since d z (Pg.feeding_logs (db w)) ->
  (forall i t, store env i = Some t -> t - Pg.five_minutes <= z) ->
  rows_for d (Pg.missed_feedings (db (step CronTick env w)))
  = rows_for d (Pg.missed_feedings (db w)).
Proof.
  intros Hopen Hclock. rewrite step_cronTick, cronTick_unfold. unfold tryCatch.
  pose proof (forEach_blocked env (clock env) (currentTime (tzOffset env) (clock env)) d z
                (deviceConfigs w) (mkExec w []) Hopen Hclock) as [_ Hr].
  destruct (forEach _ _ env (mkExec w [])) as [[[] | e] x1]; exact Hr.
Qed.

Lemma checkDevice_quiet env now cur entry x :
  quiet cur entry = true -> checkDevice now cur entry env x = (Ok tt, x).
Proof.
  destruct entry as [d config]. unfold quiet, checkDevice, bind, includes. simpl.
  destruct (feeding_times config) as [| b | q | s | items | fields]; try discriminate; simpl.
  - now destruct (JS.strIncludes cur s).
  - now destruct (JS.arrIncludes cur items).
Qed.

Lemma forEach_quiet env now cur entries x :
  forallb (quiet cur) entries = true ->
  forEach entries (checkDevice now cur) env x = (Ok tt, x).
Proof.
  induction entries as [| entry rest IH]; intros H; [reflexivity |].
  cbn [forallb] in H. apply andb_true_iff in H as [He Hrest].
  cbn [forEach]. unfold bind. rewrite (checkDevice_quiet env now cur entry x He).
  now apply IH.
Qed.

Lemma checkDevice_grown env now cur entry x :
  grown x (snd (checkDevice now cur entry env x)).
Proof.
  destruct entry as [d config].
  apply (checkDevice_rule (eq env) grown); unfold grown; try reflexivity.
  - intros x0. split; lia.
  - intros a b c [H1 H2] [H3 H4]. split; lia.
  - intros l msg e' x0 _. simpl. rewrite length_app. simpl. split; lia.
  - intros _ e' x0 _. rewrite pool_query_issued, length_app. simpl.
    unfold pool_query. destruct (store e' _) as [t |]; simpl; [| split; lia].
    split; lia.
  - intros _ e' x0 _. rewrite pool_query_issued, length_app. simpl.
    unfold pool_query. destruct (store e' _) as [t |]; simpl; split; lia.
Qed.

(** An entry that is not passed over makes the loop body throw, or send a
    statement. *)
Lemma checkDevice_busy env now cur entry x :
  quiet cur entry = false ->
  match checkDevice now cur entry env x with
  | (Ok _, x') => (List.length (issued x) < List.length (issued x'))%nat
  | (Throw _, _) => True
  end.
Proof.
  intros Hq. destruct entry as [d config].
  assert (forall b : bool,
             match (if b
                    then pool_query (Pg.InsertMissedFeeding d now) ;;
                         log warn ("Missed feeding detected for device: " ++ d ++ " at " ++ cur)
                    else ret tt) env
                   (snd (pool_query (Pg.CountRecentOpens d) env x)) with
             | (Ok _, x') => (List.length (issued x) < List.length (issued x'))%nat
             | (Throw _, _) => True
             end) as Hrest.
  { intros b. pose proof (pool_query_issued (Pg.CountRecentOpens d) env x) as H1.
    destruct b.
    - unfold bind.
      pose proof (pool_query_issued (Pg.InsertMissedFeeding d now) env
                    (snd (pool_query (Pg.CountRecentOpens d) env x))) as H2.
      destruct (pool_query (Pg.InsertMissedFeeding d now) env _) as [[rows | e] x2];
        [| exact I].
      simpl in *. rewrite H2, H1, !length_app. simpl. lia.
    - unfold ret. rewrite H1, length_app. simpl. lia. }
  unfold quiet in Hq. simpl in Hq. unfold checkDevice, bind, includes.
  destruct (feeding_times config) as [| b | q | s | items | fields]; simpl; try exact I.
  - apply negb_false_iff in Hq. rewrite Hq.
    destruct (pool_query (Pg.CountRecentOpens d) env x) as [[rows | e] x1] eqn:Hcount;
      [| exact I].
    unfold countIsZero. destruct rows as [| r rows]; simpl; [exact I |].
    specialize (Hrest (match prop "count" r with
                       | Some (JStr s0) => String.eqb s0 "0"
                       | _ => false
                       end)).
    simpl in Hrest. exact Hrest.
  - apply negb_false_iff in Hq. rewrite Hq.
    destruct (pool_query (Pg.CountRecentOpens d) env x) as [[rows | e] x1] eqn:Hcount;
      [| exact I].
    unfold countIsZero. destruct rows as [| r rows]; simpl; [exact I |].
    specialize (Hrest (match prop "count" r with
                       | Some (JStr s0) => String.eqb s0 "0"
                       | _ => false
                       end)).
    simpl in Hrest. exact Hrest.
Qed.

Lemma forEach_grown env now cur entries : forall x,
  grown x (snd (forEach entries (checkDevice now cur) env x)).
Proof.
  induction entries as [| entry rest IH]; intros x; [split; simpl; lia |].
  cbn [forEach]. unfold bind.
  pose proof (checkDevice_grown env now cur entry x) as [H1 H2].
  destruct (checkDevice now cur entry env x) as [[[] | e] x1]; simpl in *; [| split; lia].
  destruct (IH x1) as [H3 H4]. split; lia.
Qed.

Lemma forEach_busy env now cur entries : forall x,
  forallb (quiet cur) entries = false ->
  match forEach entries (checkDevice now cur) env x with
  | (Ok _, x') => (List.length (issued x) < List.length (issued x'))%nat
  | (Throw _, _) => True
  end.
Proof.
  induction entries as [| entry rest IH]; intros x H; [discriminate |].
  cbn [forallb] in H. cbn [forEach]. unfold bind.
  destruct (quiet cur entry) eqn:Hq.
  - rewrite (checkDevice_quiet env now cur entry x Hq). now apply IH.
  - pose proof (checkDevice_busy env now cur entry x Hq) as Hb.
    destruct (checkDevice now cur entry env x) as [[[] | e] x1]; [| exact I].
    pose proof (forEach_grown env now cur rest x1) as [_ Hg].
    destruct (forEach rest (checkDevice now cur) env x1) as [[[] | e] x2]; [| exact I].
    simpl in Hg. lia.
Qed.

(** X11. The detector's tick is idle exactly when it passes over every entry
    of the map (each schedule an array or a string that does not include the
    current time): then, and only then, it sends no statement and writes no
    log line, whatever the store would have answered. *)
Theorem detector_idle_iff_nothing_due (env : Env) (w : World) :
  run cronTick env w = (Ok tt, mkExec w [])
  <-> forallb (quiet (currentTime (tzOffset env) (clock env))) (deviceConfigs w) = true.
Proof.
  unfold run. rewrite cronTick_unfold. unfold tryCatch. cbn [world].
  set (cur := currentTime (tzOffset env) (clock env)).
  split.
  - intros Hrun. destruct (forallb (quiet cur) (deviceConfigs w)) eqn:Hq; [reflexivity |].
    exfalso.
    pose proof (forEach_busy env (clock env) cur (deviceConfigs w) (mkExec w []) Hq) as Hb.
    pose proof (forEach_grown env (clock env) cur (deviceConfigs w) (mkExec w [])) as [Hl _].
    destruct (forEach (deviceConfigs w) (checkDevice (clock env) cur) env (mkExec w []))
      as [[[] | e] x1].
    + injection Hrun as ->. simpl in Hb. lia.
    + unfold log in Hrun. injection Hrun as Hw. simpl in Hl.
      apply (f_equal (fun v => List.length (logger v))) in Hw. simpl in Hw.
      rewrite length_app in Hw. simpl in Hw. lia.
  - intros Hq. now rewrite (forEach_quiet env (clock env) cur (deviceConfigs w) _ Hq).
Qed.

(** ** After a rejected statement *)

Section Halts.
Variable env : Env.
Variable i : nat.
Hypothesis rejected : store env i = None.

Lemma halts_ret {A} (a : A) : halts env i (ret a).
Proof. intros x H. exact H. Qed.

Lemma halts_throw {A} (e : exn) : halts env i (@throw A e).
Proof. intros x H. simpl. lia. Qed.

Lemma halts_bind {A B} (m : M A) (k : A -> M B) :
  halts env i m -> (forall a, halts env i (k a)) -> halts env i (bind m k).
Proof.
  intros Hm Hk x H. unfold bind. specialize (Hm x H).
  destruct (m env x) as [[a | e] x1]; [now apply Hk | exact Hm].
Qed.

Lemma halts_forEach {A} (xs : list A) (body : A -> M unit) :
  (forall a, halts env i (body a)) -> halts env i (forEach xs body).
Proof.
  intros Hbody. induction xs as [| a rest IH]; simpl; [apply halts_ret |].
  apply halts_bind; [apply Hbody | intros _; exact IH].
Qed.

Lemma halts_pool_query q : halts env i (pool_query q).
Proof.
  intros x H. pose proof (pool_query_issued q env x) as Hsent.
  assert (List.length (issued x) = i -> exists x', pool_query q env x = (Throw DbError, x'))
    as Hrej.
  { intros <-. unfold pool_query. rewrite rejected. eauto. }
  destruct (pool_query q env x) as [[rows | e] x1] eqn:Hq; simpl in Hsent;
    rewrite Hsent, length_app; simpl; [| lia].
  destruct (Nat.eq_dec (List.length (issued x)) i) as [Heq | Hne]; [| lia].
  destruct (Hrej Heq) as (x' & Hx'). discriminate.
Qed.

Lemma halts_log l msg : halts env i (log l msg).
Proof. intros x H. exact H. Qed.

Lemma halts_set k v : halts env i (deviceConfigs_set k v).
Proof. intros x H. exact H. Qed.

Lemma halts_checkDevice now cur entry : halts env i (checkDevice now cur entry).
Proof.
  destruct entry as [d config]. unfold checkDevice.
  apply halts_bind.
  - destruct (feeding_times config); simpl; first [apply halts_ret | apply halts_throw].
  - intros [|]; [| apply halts_ret].
    apply halts_bind; [apply halts_pool_query |]. intros rows.
    apply halts_bind.
    + destruct rows; simpl; first [apply halts_ret | apply halts_throw].
    + intros [|]; [| apply halts_ret].
      apply halts_bind; [apply halts_pool_query |]. intros _. apply halts_log.
Qed.

(** The [catch] blocks of the server send nothing. *)
Lemma halts_caught {A} (m : M A) (handler : exn -> M A) x :
  halts env i m ->
  (forall e x', issued (snd (handler e env x')) = issued x') ->
  (List.length (issued x) <= i)%nat ->
  (List.length (issued (snd (tryCatch m handler env x))) <= i + 1)%nat.
Proof.
  intros Hm Hh H. unfold tryCatch. specialize (Hm x H).
  destruct (m env x) as [[a | e] x1]; simpl; [lia |]. now rewrite Hh.
Qed.

Lemma halts_handle r x :
  (List.length (issued x) <= i)%nat ->
  (List.length (issued (snd (handle r env x))) <= i + 1)%nat.
Proof.
  intros H.
  assert (forall msg x',
             issued (snd ((log error msg ;; ret (mkResponse 500 InternalServerError)) env x'))
             = issued x') as Hcatch by reflexivity.
  destruct r as [| reqBody | reqBody | d s e l | d date | d days]; cbn [handle].
  - simpl. lia.
  - apply halts_caught; [| intros e x'; apply Hcatch | exact H].
    destruct (Joi.validate configUpdateSchema reqBody); [apply halts_ret |].
    apply halts_bind; [intros x0 H0; exact H0 |]. intros now.
    apply halts_bind; [apply halts_set |]. intros _.
    apply halts_bind; [apply halts_pool_query |]. intros _.
    apply halts_bind; [apply halts_log |]. intros _. apply halts_ret.
  - apply halts_caught; [| intros e x'; apply Hcatch | exact H].
    destruct (Joi.validate feedingLogSchema reqBody); [apply halts_ret |].
    apply halts_bind; [apply halts_pool_query |]. intros _.
    apply halts_bind; [apply halts_log |]. intros _. apply halts_ret.
  - rewrite getFeedingLogs_unfold.
    apply halts_caught; [| intros e0 x'; apply Hcatch | exact H].
    apply halts_bind; [apply halts_pool_query |]. intros rows. apply halts_ret.
  - rewrite getMissed_unfold.
    apply halts_caught; [| intros e x'; apply Hcatch | exact H].
    apply halts_bind; [apply halts_pool_query |]. intros rows. apply halts_ret.
  - apply halts_caught; [| intros e x'; apply Hcatch | exact H].
    apply halts_bind; [apply halts_pool_query |]. intros stats.
    apply halts_bind; [apply halts_pool_query |]. intros missed. apply halts_ret.
Qed.

Lemma halts_cronTick x :
  (List.length (issued x) <= i)%nat ->
  (List.length (issued (snd (cronTick env x))) <= i + 1)%nat.
Proof.
  intros H. rewrite cronTick_unfold.
  apply halts_caught; [| reflexivity | exact H].
  apply halts_forEach. intros entry. apply halts_checkDevice.
Qed.
End Halts.

(** X12. An operation stops at the first statement the store rejects: when
    the store rejects the statement of index i (counting from 0), the
    request or tick sends no statement after it.  A tick whose COUNT for one
    device is rejected does not go on to the devices after it in the map. *)
Theorem operation_stops_at_first_rejection (o : Op) (env : Env) (w : World) (i : nat) :
  store env i = None ->
  (List.length (issued (snd (run (operation o) env w))) <= i + 1)%nat.
Proof.
  intros Hrej. unfold run. destruct o as [r |].
  - rewrite operation_http. apply halts_handle; [exact Hrej |]. simpl. lia.
  - rewrite operation_tick. apply halts_cronTick; [exact Hrej |]. simpl. lia.
Qed.

(** ** What a history leaves behind *)

Lemma pool_query_log_table_same q e :
  isLogInsert q = false -> preserves (eq e) log_table_same (pool_query q).
Proof.
  intros Hq e' x _. unfold log_table_same, pool_query.
  destruct (store e' _) as [t |]; [| reflexivity].
  destruct q as [| | | | text ps]; try discriminate; simpl; try reflexivity.
  now destruct (pgSelect text ps t (db (world x))).
Qed.

Lemma step_log_table_other o env w :
  (forall reqBody, o <> Http (PostFeedingLog reqBody)) ->
  Pg.feeding_logs (db (step o env w)) = Pg.feeding_logs (db w).
Proof.
  intros Hne. unfold step, run.
  assert (forall x, log_table_same x x) as R_refl by reflexivity.
  assert (forall x y z, log_table_same x y -> log_table_same y z -> log_table_same x z)
    as R_trans.
  { unfold log_table_same. intros x y z H1 H2. congruence. }
  assert (forall l msg e, preserves (eq e) log_table_same (log l msg)) as R_log
      by (intros l msg e e' x _; reflexivity).
  destruct o as [r |].
  - rewrite operation_http.
    apply (handle_rule log_table_same R_refl R_trans R_log r env (mkExec w [])).
    + intros q Hin. apply pool_query_log_table_same.
      destruct r as [| | reqBody | | |]; cbn [statementsOf] in Hin; simpl in Hin;
        try (now destruct (Hne reqBody)); intuition (subst; reflexivity).
    + intros _ k v e' x _. reflexivity.
  - rewrite operation_tick.
    apply (cronTick_rule (eq env) log_table_same R_refl R_trans
             (fun l msg => R_log l msg env));
      [reflexivity | |]; intros d config _ _; now apply pool_query_log_table_same.
Qed.

Lemma step_log_table o env w :
  exists appended,
    Pg.feeding_logs (db (step o env w)) = (Pg.feeding_logs (db w) ++ appended)%list
    /\ map logEvent appended = match eventOf (o, env) with Some ev => [ev] | None => [] end.
Proof.
  assert ((forall reqBody, o <> Http (PostFeedingLog reqBody)) ->
          eventOf (o, env) = None ->
          exists appended,
            Pg.feeding_logs (db (step o env w)) = (Pg.feeding_logs (db w) ++ appended)%list
            /\ map logEvent appended
               = match eventOf (o, env) with Some ev => [ev] | None => [] end) as Hother.
  { intros Hne ->. exists []. rewrite (step_log_table_other o env w Hne).
    now rewrite app_nil_r. }
  destruct o as [[| reqBody | reqBody | d1 s e l | d1 date | d1 days] |];
    try (apply Hother; [discriminate | reflexivity]).
  unfold eventOf, step, run. rewrite operation_http. cbn [handle fst snd].
  destruct (Joi.validate feedingLogSchema reqBody) as [err |] eqn:Hv.
  - rewrite (postFeedingLog_invalid reqBody err env _ Hv). exists [].
    now rewrite app_nil_r.
  - destruct (store env 0%nat) as [t |] eqn:Hs;
      [destruct (pgTimestamp (val (field "timestamp" reqBody))) as [z |] eqn:Hz |].
    + rewrite (postFeedingLog_stored reqBody env (mkExec w []) t z Hv Hs Hz).
      eexists. split; reflexivity.
    + rewrite (postFeedingLog_failed reqBody env (mkExec w []) Hv (or_intror Hz)).
      exists []. now rewrite app_nil_r.
    + rewrite (postFeedingLog_failed reqBody env (mkExec w []) Hv (or_introl Hs)).
      exists []. now rewrite app_nil_r.
Qed.

(** X13. After any history, feeding_logs holds what it held before and
    then, in the order of arrival, one row for every POST /api/feeding/log
    whose body passed validation and whose INSERT the store took, and nothing
    else: no other request and no tick adds an event. *)
Theorem feeding_logs_hold_the_accepted_events (h : list (Op * Env)) (w : World) :
  exists appended,
    Pg.feeding_logs (db (steps h w)) = (Pg.feeding_logs (db w) ++ appended)%list
    /\ map logEvent appended = eventsOf h.
Proof.
  revert w. induction h as [| [o env] rest IH]; intros w.
  - exists []. split; [now rewrite app_nil_r | reflexivity].
  - cbn [steps]. destruct (IH (step o env w)) as (b & Hb & Eb).
    destruct (step_log_table o env w) as (a & Ha & Ea).
    exists (a ++ b)%list. split.
    + now rewrite Hb, Ha, app_assoc.
    + rewrite map_app, Ea, Eb. reflexivity.
Qed.

Lemma mapSet_fst {V} key (v : V) m :
  exists new, map fst (mapSet key v m) = (map fst m ++ new)%list.
Proof.
  induction m as [| [k v0] rest IH]; simpl.
  - now exists [key].
  - destruct (String.eqb k key); simpl.
    + exists []. now rewrite app_nil_r.
    + destruct IH as (new & ->). now exists new.
Qed.

(** X14. No operation takes a device out of the in-memory map or moves it:
    after any history the keys of the map are the keys it had, in their
    order, followed by the devices registered since.  The detector keeps
    checking a device until the process ends. *)
Theorem devices_stay_in_the_map (h : list (Op * Env)) (w : World) :
  exists new,
    map fst (deviceConfigs (steps h w)) = (map fst (deviceConfigs w) ++ new)%list.
Proof.
  revert w. induction h as [| [o env] rest IH]; intros w.
  - exists []. now rewrite app_nil_r.
  - cbn [steps]. destruct (IH (step o env w)) as (b & ->).
    destruct (step_map o env w) as [-> | (reqBody & _ & _ & ->)].
    + now exists b.
    + destruct (mapSet_fst (str (field "device_id" reqBody))
                  (configEntry reqBody (clock env)) (deviceConfigs w)) as (a & ->).
      exists (a ++ b)%list. now rewrite app_assoc.
Qed.

Lemma operation_incidents_kept o : preserves anyEnv incidents_kept (operation o).
Proof.
  assert (forall x x',
             Pg.missed_feedings (db (world x')) = Pg.missed_feedings (db (world x)) ->
             incidents_kept x x') as Hsame.
  { intros x x' H. exists []. split; [now rewrite app_nil_r | constructor]. }
  apply preserves_operation.
  - intros x. now apply Hsame.
  - intros x y z (a & Ha & Fa) (b & Hb & Fb). exists (a ++ b)%list. split.
    + now rewrite Hb, Ha, app_assoc.
    + apply Forall_app. now split.
  - intros l msg env x _. now apply Hsame.
  - intros q env x _. unfold pool_query.
    destruct (store env _) as [t |]; [| now apply Hsame].
    destruct q as [d ft dm | d a ts det | d | d now | text ps]; simpl;
      try (now apply Hsame).
    + destruct (pgTimestamp ts); now apply Hsame.
    + unfold incidents_kept. simpl.
      destruct (existsb (Pg.same_incident d now) (Pg.missed_feedings (db (world x)))).
      * exists []. split; [now rewrite app_nil_r | constructor].
      * eexists. split; [reflexivity |]. now repeat constructor.
    + destruct (pgSelect text ps t (db (world x))); now apply Hsame.
  - intros k v env x _. now apply Hsame.
Qed.

(** X15. No operation deletes or changes an incident, and none sets
    [resolved]: after any history missed_feedings holds the rows it held,
    unchanged, followed by the incidents recorded since, each of them
    unresolved. *)
Theorem incidents_stay_unresolved (h : list (Op * Env)) (w : World) :
  exists new,
    Pg.missed_feedings (db (steps h w)) = (Pg.missed_feedings (db w) ++ new)%list
    /\ Forall (fun r => Pg.mf_resolved r = false) new.
Proof.
  revert w. induction h as [| [o env] rest IH]; intros w.
  - exists []. split; [now rewrite app_nil_r | constructor].
  - cbn [steps]. destruct (IH (step o env w)) as (b & Hb & Fb).
    destruct (operation_incidents_kept o env (mkExec w []) I) as (a & Ha & Fa).
    simpl in Ha. exists (a ++ b)%list. split.
    + unfold step, run in *. now rewrite Hb, Ha, app_assoc.
    + apply Forall_app. now split.
Qed.

End Server.

(** ** The view daily_feeding_stats *)

Lemma key_eqb_eq k1 k2 : Pg.key_eqb k1 k2 = true <-> k1 = k2.
Proof.
  destruct k1 as [d1 t1], k2 as [d2 t2]. unfold Pg.key_eqb. simpl.
  rewrite andb_true_iff, String.eqb_eq, Z.eqb_eq. split.
  - intros [-> ->]. reflexivity.
  - intros [= -> ->]. auto.
Qed.

Lemma group_keys_in logs k :
  In k (Pg.group_keys logs) <-> exists r, In r logs /\ Pg.group_key r = k.
Proof.
  induction logs as [| r rest IH]; simpl.
  - split; [intros [] | intros (r & [] & _)].
  - rewrite filter_In, IH. split.
    + intros [<- | [(r' & Hin & <-) _]]; eauto.
    + intros (r' & [<- | Hin] & <-); [now left |].
      destruct (Pg.key_eqb (Pg.group_key r') (Pg.group_key r)) eqn:Hk.
      * apply key_eqb_eq in Hk. left. congruence.
      * right. split; [eauto | reflexivity].
Qed.

Lemma group_keys_NoDup logs : NoDup (Pg.group_keys logs).
Proof.
  induction logs as [| r rest IH]; simpl; constructor.
  - intros Hin. apply filter_In in Hin as [_ H].
    rewrite (proj2 (key_eqb_eq _ _) eq_refl) in H. discriminate.
  - now apply NoDup_filter.
Qed.

Lemma stats_keys logs keys : map stats_key (map (Pg.stats_of_group logs) keys) = keys.
Proof.
  rewrite map_map. induction keys as [| [d t] rest IH]; simpl; [reflexivity |].
  now rewrite IH.
Qed.

(** X16. The view has exactly one row for every device and day for which
    feeding_logs holds an event, and no other row. *)
Theorem daily_stats_one_row_per_device_and_day (d : Pg.Database) :
  NoDup (map stats_key (Pg.daily_feeding_stats d))
  /\ forall k, In k (map stats_key (Pg.daily_feeding_stats d))
               <-> exists r, In r (Pg.feeding_logs d) /\ Pg.group_key r = k.
Proof.
  unfold Pg.daily_feeding_stats. rewrite stats_keys. split.
  - apply group_keys_NoDup.
  - intros k. apply group_keys_in.
Qed.

Lemma count_case_cons a r g :
  Pg.count_case a (r :: g) = (if Pg.has_action a r then 1 else 0) + Pg.count_case a g.
Proof.
  unfold Pg.count_case. simpl. destruct (Pg.has_action a r); simpl List.length; lia.
Qed.

Lemma group_count_cons a r logs k :
  Pg.count_case a (filter (Pg.in_group k) (r :: logs)) =
  (if Pg.key_eqb (Pg.group_key r) k && Pg.has_action a r then 1 else 0)
  + Pg.count_case a (filter (Pg.in_group k) logs).
Proof.
  simpl. unfold Pg.in_group at 1.
  destruct (Pg.key_eqb (Pg.group_key r) k); simpl; [apply count_case_cons | reflexivity].
Qed.

Lemma sum_plus {A} (f g : A -> Z) l :
  fold_right Z.add 0 (map (fun k => f k + g k) l) =
  fold_right Z.add 0 (map f l) + fold_right Z.add 0 (map g l).
Proof. induction l as [| a l IH]; simpl; lia. Qed.

Lemma sum_indicator k0 (b : bool) keys :
  NoDup keys ->
  fold_right Z.add 0 (map (fun k => if Pg.key_eqb k0 k && b then 1 else 0) keys) =
  if existsb (Pg.key_eqb k0) keys && b then 1 else 0.
Proof.
  induction keys as [| k rest IH]; intros Hnd; [reflexivity |].
  inversion Hnd as [| ? ? Hnotin Hrest]; subst. simpl. rewrite (IH Hrest).
  destruct (Pg.key_eqb k0 k) eqn:Hk; simpl; [| reflexivity].
  apply key_eqb_eq in Hk. subst k0.
  destruct (existsb (Pg.key_eqb k) rest) eqn:Hex.
  - apply existsb_exists in Hex as (k' & Hin & Hk'). apply key_eqb_eq in Hk'.
    subst k'. contradiction.
  - simpl. destruct b; reflexivity.
Qed.

(** Over keys that are pairwise different and cover the rows, the counts of
    the groups add up to the count of the table. *)
Lemma sum_over_groups a keys logs :
  NoDup keys ->
  (forall r, In r logs -> In (Pg.group_key r) keys) ->
  fold_right Z.add 0 (map (fun k => Pg.count_case a (filter (Pg.in_group k) logs)) keys)
  = Pg.count_case a logs.
Proof.
  intros Hnd. induction logs as [| r rest IH]; intros Hcover.
  - simpl. clear. induction keys as [| k keys IH]; simpl; [reflexivity |].
    rewrite IH. reflexivity.
  - rewrite count_case_cons, <- IH by (intros r' Hr'; apply Hcover; now right).
    rewrite (map_ext _ _ (group_count_cons a r rest)).
    rewrite sum_plus. f_equal. rewrite (sum_indicator _ _ _ Hnd).
    assert (existsb (Pg.key_eqb (Pg.group_key r)) keys = true) as Hex.
    { apply existsb_exists. exists (Pg.group_key r). split.
      - apply Hcover. now left.
      - now apply key_eqb_eq. }
    now rewrite Hex.
Qed.

(** X17. The view counts every 'open', 'close' and 'error' event of
    feeding_logs once: each of its three count columns, summed over the
    rows, gives the number of events of that action in the table. *)
Theorem daily_stats_count_every_event_once (d : Pg.Database) :
  column_sum Pg.total_opens (Pg.daily_feeding_stats d)
  = Pg.count_case "open" (Pg.feeding_logs d)
  /\ column_sum Pg.total_closes (Pg.daily_feeding_stats d)
     = Pg.count_case "close" (Pg.feeding_logs d)
  /\ column_sum Pg.total_errors (Pg.daily_feeding_stats d)
     = Pg.count_case "error" (Pg.feeding_logs d).
Proof.
  assert (forall r, In r (Pg.feeding_logs d) ->
                    In (Pg.group_key r) (Pg.group_keys (Pg.feeding_logs d))) as Hcover.
  { intros r Hin. apply group_keys_in. eauto. }
  pose proof (group_keys_NoDup (Pg.feeding_logs d)) as Hnd.
  unfold column_sum, Pg.daily_feeding_stats. rewrite !map_map.
  repeat split.
  - exact (sum_over_groups "open" _ _ Hnd Hcover).
  - exact (sum_over_groups "close" _ _ Hnd Hcover).
  - exact (sum_over_groups "error" _ _ Hnd Hcover).
Qed.

Section Aggregate.
Variable pick : Z -> Z -> Z.
Variable le : Z -> Z -> Prop.
Hypothesis pick_one : forall a b, pick a b = a \/ pick a b = b.
Hypothesis pick_l : forall a b, le (pick a b) a.
Hypothesis pick_r : forall a b, le (pick a b) b.
Hypothesis le_refl : forall a, le a a.
Hypothesis le_trans : forall a b c, le a b -> le b c -> le a c.

Lemma fold_pick rest : forall v,
  In (fold_left pick rest v) (v :: rest)
  /\ forall u, In u (v :: rest) -> le (fold_left pick rest v) u.
Proof.
  induction rest as [| a rest IH]; intros v; simpl.
  - split; [now left | intros u [<- | []]; apply le_refl].
  - destruct (IH (pick v a)) as [Hin Hle]. split.
    + destruct Hin as [Hm | Hin]; [| now right; right].
      rewrite <- Hm. destruct (pick_one v a) as [-> | ->]; auto.
    + intros u [<- | [<- | Hu]].
      * eapply le_trans; [apply Hle; now left | apply pick_l].
      * eapply le_trans; [apply Hle; now left | apply pick_r].
      * apply Hle. now right.
Qed.

(** The aggregate over the timestamps of the rows of one action: NULL
    exactly when there is no such row, else the timestamp of such a row that
    is first (or last) among them. *)
Lemma aggregate_case a g :
  (Pg.aggregate pick (Pg.case_timestamps a g) = None <-> Pg.count_case a g = 0)
  /\ forall t, Pg.aggregate pick (Pg.case_timestamps a g) = Some t ->
       (exists r, In r g /\ Pg.log_action r = a /\ Pg.log_timestamp r = t)
       /\ forall r, In r g -> Pg.log_action r = a -> le t (Pg.log_timestamp r).
Proof.
  unfold Pg.case_timestamps, Pg.count_case, Pg.aggregate.
  assert (forall r, In r (filter (Pg.has_action a) g) <-> In r g /\ Pg.log_action r = a) as Hf.
  { intros r. rewrite filter_In. unfold Pg.has_action. now rewrite String.eqb_eq. }
  set (fl := filter (Pg.has_action a) g) in *. clearbody fl.
  destruct fl as [| r0 rest]; simpl.
  - split; [tauto | discriminate].
  - split; [split; [discriminate | lia] |].
    intros t [= <-].
    destruct (fold_pick (map Pg.log_timestamp rest) (Pg.log_timestamp r0)) as [Hin Hle].
    split.
    + change (In (fold_left pick (map Pg.log_timestamp rest) (Pg.log_timestamp r0))
                 (map Pg.log_timestamp (r0 :: rest))) in Hin.
      apply in_map_iff in Hin as (r & Hr & Hrin). exists r.
      apply Hf in Hrin as [Hrin Ha]. auto.
    + intros r Hr Ha. apply Hle.
      change (In (Pg.log_timestamp r) (map Pg.log_timestamp (r0 :: rest))).
      apply in_map. apply Hf. auto.
Qed.
End Aggregate.

Lemma in_group_iff k r : Pg.in_group k r = true <-> Pg.group_key r = k.
Proof. unfold Pg.in_group. apply key_eqb_eq. Qed.

(** X18. In a row of the view, first_feeding is NULL exactly when
    total_opens is 0, and otherwise is the timestamp of an 'open' event of
    that device and day, none of which is earlier; last_feeding is NULL
    exactly when total_closes is 0, and otherwise is the timestamp of a
    'close' event of that device and day, none of which is later. *)
Theorem daily_stats_first_and_last_feeding (d : Pg.Database) (s : Pg.DailyFeedingStats) :
  In s (Pg.daily_feeding_stats d) ->
  (Pg.first_feeding s = None <-> Pg.total_opens s = 0)
  /\ (Pg.last_feeding s = None <-> Pg.total_closes s = 0)
  /\ (forall t, Pg.first_feeding s = Some t ->
        (exists r, In r (Pg.feeding_logs d) /\ Pg.group_key r = stats_key s
                   /\ Pg.log_action r = "open" /\ Pg.log_timestamp r = t)
        /\ forall r, In r (Pg.feeding_logs d) -> Pg.group_key r = stats_key s ->
                     Pg.log_action r = "open" -> t <= Pg.log_timestamp r)
  /\ (forall t, Pg.last_feeding s = Some t ->
        (exists r, In r (Pg.feeding_logs d) /\ Pg.group_key r = stats_key s
                   /\ Pg.log_action r = "close" /\ Pg.log_timestamp r = t)
        /\ forall r, In r (Pg.feeding_logs d) -> Pg.group_key r = stats_key s ->
                     Pg.log_action r = "close" -> Pg.log_timestamp r <= t).
Proof.
  intros Hin. unfold Pg.daily_feeding_stats in Hin.
  apply in_map_iff in Hin as ([dev day] & <- & _).
  set (g := filter (Pg.in_group (dev, day)) (Pg.feeding_logs d)).
  assert (forall r, In r g <-> In r (Pg.feeding_logs d) /\ Pg.group_key r = (dev, day)) as Hg.
  { intros r. unfold g. rewrite filter_In. now rewrite in_group_iff. }
  pose proof (aggregate_case Z.min Z.le ltac:(lia) ltac:(lia) ltac:(lia) ltac:(lia)
                ltac:(lia) "open" g) as [Hnone1 Hsome1].
  pose proof (aggregate_case Z.max Z.ge ltac:(lia) ltac:(lia) ltac:(lia) ltac:(lia)
                ltac:(lia) "close" g) as [Hnone2 Hsome2].
  unfold stats_key, Pg.stats_of_group. simpl. fold g.
  split; [exact Hnone1 |]. split; [exact Hnone2 |]. split.
  - intros t Ht. destruct (Hsome1 t Ht) as [(r & Hr & Ha & Hts) Hle]. split.
    + exists r. apply Hg in Hr as [Hr Hk]. auto.
    + intros r' Hr' Hk' Ha'. apply Hle; [apply Hg; auto | exact Ha'].
  - intros t Ht. destruct (Hsome2 t Ht) as [(r & Hr & Ha & Hts) Hle]. split.
    + exists r. apply Hg in Hr as [Hr Hk]. auto.
    + intros r' Hr' Hk' Ha'. apply Z.ge_le. apply Hle; [apply Hg; auto | exact Ha'].
Qed.

(** ** The dashboard's statistics *)

Lemma prop_mapSet_same k v fields : prop k (mapSet k v fields) = Some v.
Proof.
  induction fields as [| [k0 v0] rest IH]; simpl.
  - now rewrite String.eqb_refl.
  - destruct (String.eqb k0 k) eqn:Hk; simpl; now rewrite Hk.
Qed.

Lemma prop_mapSet_other k k' v fields :
  k' <> k -> prop k' (mapSet k v fields) = prop k' fields.
Proof.
  intros Hne. induction fields as [| [k0 v0] rest IH]; simpl.
  - destruct (String.eqb_spec k k'); [congruence | reflexivity].
  - destruct (String.eqb_spec k0 k) as [-> | Hk]; simpl.
    + destruct (String.eqb_spec k k'); [congruence | reflexivity].
    + now rewrite IH.
Qed.

Lemma find_first {A} (f : A -> bool) (l : list A) :
  match find f l with
  | Some m => exists pre post,
      l = (pre ++ m :: post)%list /\ (forall x, In x pre -> f x = false) /\ f m = true
  | None => forall x, In x l -> f x = false
  end.
Proof.
  induction l as [| a l IH]; simpl; [intros x [] |].
  destruct (f a) eqn:Ha.
  - exists [], l. repeat split; [intros x [] | exact Ha].
  - destruct (find f l) as [m |].
    + destruct IH as (pre & post & -> & Hpre & Hm). exists (a :: pre), post.
      repeat split; [| exact Hm]. intros x [<- | Hx]; [exact Ha | now apply Hpre].
    + intros x [<- | Hx]; [exact Ha | now apply IH].
Qed.

(** X19. The rows the dashboard charts are the rows of [feeding_stats], in
    their order and with their properties, each with a [missed] property
    set: when no row of [missed_feedings] has the same date, 0; otherwise
    the [missed_count] of the first row with the same date, or 0 when that
    row has none or a falsy one.  The dates charted are those of
    [feeding_stats]: a day that has missed feedings and no event at all gets
    no row. *)
Theorem combined_stats_rows (feeding_stats missed_feedings : list Pg.row) :
  map (prop "date") (Dashboard.combinedStats feeding_stats missed_feedings)
  = map (prop "date") feeding_stats
  /\ Forall2
       (fun stat out =>
          (forall k, k <> "missed" -> prop k out = prop k stat)
          /\ ((forall m, In m missed_feedings ->
                         Dashboard.strictEq (prop "date" m) (prop "date" stat) = false)
              /\ prop "missed" out = Some (JNum 0)
              \/ exists pre m post,
                  missed_feedings = (pre ++ m :: post)%list
                  /\ (forall m', In m' pre ->
                        Dashboard.strictEq (prop "date" m') (prop "date" stat) = false)
                  /\ Dashboard.strictEq (prop "date" m) (prop "date" stat) = true
                  /\ prop "missed" out =
                     Some (match prop "missed_count" m with
                           | Some c => if truthy c then c else JNum 0
                           | None => JNum 0
                           end)))
       feeding_stats (Dashboard.combinedStats feeding_stats missed_feedings).
Proof.
  unfold Dashboard.combinedStats. split.
  - rewrite map_map. apply map_ext. intros stat.
    apply prop_mapSet_other. discriminate.
  - induction feeding_stats as [| stat rest IH]; simpl; constructor; [| exact IH].
    split.
    + intros k Hk. now apply prop_mapSet_other.
    + rewrite prop_mapSet_same. unfold Dashboard.missedCount, Dashboard.missedData.
      pose proof (find_first
                    (fun m => Dashboard.strictEq (prop "date" m) (prop "date" stat))
                    missed_feedings) as Hfind.
      destruct (find (fun m => Dashboard.strictEq (prop "date" m) (prop "date" stat))
                  missed_feedings) as [m |].
      * right. destruct Hfind as (pre & post & Hl & Hpre & Hm).
        exists pre, m, post. repeat split; assumption.
      * left. split; [exact Hfind | reflexivity].
Qed.

(** Three missed feedings on a day with events: the dashboard charts "3",
    the count as the store returns it. *)
Example combined_stats_at_a_missed_day :
  Dashboard.combinedStats
    [[("date", JStr "1970-01-01"); ("opens", JStr "2")]]
    [[("date", JStr "1969-12-31"); ("missed_count", JStr "1")];
     [("date", JStr "1970-01-01"); ("missed_count", JStr "3")]]
  = [[("date", JStr "1970-01-01"); ("opens", JStr "2"); ("missed", JStr "3")]].
Proof. vm_compute. reflexivity. Qed.

(** ** Concrete runs *)

Abbreviation coopRun :=
  (steps Coop.isoDate Coop.convert Coop.pgTimestamp Coop.pgSelect Coop.toISODate).
Abbreviation coopStep :=
  (step Coop.isoDate Coop.convert Coop.pgTimestamp Coop.pgSelect Coop.toISODate).
Abbreviation coopTick := (cronTick Coop.pgTimestamp Coop.pgSelect).
Abbreviation coopPostLog :=
  (postFeedingLog Coop.isoDate Coop.convert Coop.pgTimestamp Coop.pgSelect).
Abbreviation coopPostConfig := (postDeviceConfig Coop.convert Coop.pgTimestamp Coop.pgSelect).
Abbreviation coopTurns :=
  (turns Coop.isoDate Coop.convert Coop.pgTimestamp Coop.pgSelect Coop.toISODate).
Abbreviation coopServed :=
  (served Coop.isoDate Coop.convert Coop.pgTimestamp Coop.pgSelect Coop.toISODate).

Lemma registeredWorld_reached :
  coopRun Coop.registeredAt8 (boot Coop.emptyDb) = Coop.registeredWorld.
Proof. vm_compute. reflexivity. Qed.

Lemma afterTick_reached :
  coopRun (Coop.registeredAt8 ++ [(CronTick, Coop.tickEnv)]) (boot Coop.emptyDb)
  = Coop.afterTick.
Proof. vm_compute. reflexivity. Qed.

(** Scenario B of the specification: schedule ["12:00"], no event at all, a
    tick every minute from 12:00:00 to 12:06:00.  One incident is recorded,
    by the tick of 12:00. *)
Example scenario_B :
  Pg.missed_feedings
    (db (coopRun (Coop.registeredAt8 ++ Coop.ticksNoonTo1206 0) (boot Coop.emptyDb))) =
  [Pg.mkMissedFeeding 1 "coop" Coop.noon Coop.noon false].
Proof. vm_compute. reflexivity. Qed.

(** The theorem of C1 at the coop, registered at 08:00, and the tick a
    quarter of a second after noon. *)
Lemma detector_records_iff_witness :
  (forall i, store Coop.tickEnv i <> None)
  /\ In ("coop", Coop.coopEntry)
       (deviceConfigs (coopRun Coop.registeredAt8 (boot Coop.emptyDb)))
  /\ isDue (currentTime (tzOffset Coop.tickEnv) (clock Coop.tickEnv)) Coop.coopEntry = true
  /\ exists new i t,
      nth_error
        (issued (snd (run coopTick Coop.tickEnv
                        (coopRun Coop.registeredAt8 (boot Coop.emptyDb))))) i
      = Some (Pg.CountRecentOpens "coop")
      /\ store Coop.tickEnv i = Some t
      /\ Pg.missed_feedings
           (db (coopStep CronTick Coop.tickEnv
                  (coopRun Coop.registeredAt8 (boot Coop.emptyDb))))
         = (Pg.missed_feedings (db (coopRun Coop.registeredAt8 (boot Coop.emptyDb)))
              ++ new)%list
      /\ ((exists r, In r new /\ Pg.mf_device_id r = "coop")
          <-> ~ open_since "coop" (t - Pg.five_minutes)
                  (Pg.feeding_logs (db (coopRun Coop.registeredAt8 (boot Coop.emptyDb))))
              /\ has_incident "coop" (clock Coop.tickEnv)
                   (Pg.missed_feedings (db (coopRun Coop.registeredAt8 (boot Coop.emptyDb))))
                 = false)
      /\ (List.length (rows_for "coop" new) <= 1)%nat.
Proof.
  assert (forall i, store Coop.tickEnv i <> None) as H1
      by (intros i; simpl; discriminate).
  assert (In ("coop", Coop.coopEntry)
            (deviceConfigs (coopRun Coop.registeredAt8 (boot Coop.emptyDb)))) as H2
      by (vm_compute; left; reflexivity).
  assert (isDue (currentTime (tzOffset Coop.tickEnv) (clock Coop.tickEnv)) Coop.coopEntry
          = true) as H3 by (vm_compute; reflexivity).
  split; [exact H1 |]. split; [exact H2 |]. split; [exact H3 |].
  exact (detector_records_iff Coop.isoDate Coop.convert Coop.pgTimestamp Coop.pgSelect
           Coop.toISODate Coop.emptyDb Coop.registeredAt8 Coop.tickEnv
           "coop" Coop.coopEntry H1 H2 H3).
Defined.

(** The theorem of C2 at the world that tick leaves: two more ticks at the
    same instant keep the one incident; a tick half a second later, in the
    same minute, adds a second one. *)
Lemma detector_idempotent_witness :
  keys_unique (Pg.missed_feedings (db Coop.afterTick))
  /\ keys_unique
       (Pg.missed_feedings
          (db (coopRun [(CronTick, Coop.tickEnv); (CronTick, Coop.tickEnv)] Coop.afterTick)))
  /\ Pg.missed_feedings (db (coopStep CronTick Coop.tickEnv Coop.afterTick)) =
     Pg.missed_feedings (db Coop.afterTick)
  /\ exists new r,
      Pg.missed_feedings (db (coopStep CronTick (Coop.up (Coop.noon + 750) 0) Coop.afterTick))
      = (Pg.missed_feedings (db Coop.afterTick) ++ new)%list
      /\ rows_for "coop" new = [r]
      /\ Pg.mf_scheduled_time r = Coop.noon + 750.
Proof.
  assert (keys_unique (Pg.missed_feedings (db Coop.afterTick))) as H1.
  { vm_compute. repeat constructor. intros []. }
  destruct (detector_idempotent Coop.isoDate Coop.convert Coop.pgTimestamp Coop.pgSelect
              Coop.toISODate [(CronTick, Coop.tickEnv); (CronTick, Coop.tickEnv)]
              Coop.tickEnv Coop.afterTick H1) as (H2 & H3 & _).
  destruct (detector_idempotent Coop.isoDate Coop.convert Coop.pgTimestamp Coop.pgSelect
              Coop.toISODate [] (Coop.up (Coop.noon + 750) 0) Coop.afterTick H1)
    as (_ & _ & H4).
  split; [exact H1 |]. split; [exact H2 |]. split.
  - apply H3. intros d config [[= <- <-] | []] _. vm_compute. reflexivity.
  - apply (H4 "coop" Coop.coopEntry).
    + split; [repeat constructor; intros [] | repeat constructor].
    + intros i. discriminate.
    + now left.
    + vm_compute. reflexivity.
    + intros t (r & [] & _).
    + vm_compute. reflexivity.
Defined.


(** The theorem of C4 at two hosts a day apart: UTC+9 and UTC-15. *)
Lemma matching_follows_host_zone_witness :
  (540 - (-900)) mod 1440 = 0
  /\ currentTime 540 Coop.noon = currentTime (-900) Coop.noon
  /\ run coopTick (mkEnv Coop.noon 540 (fun _ => Some Coop.noon)) Coop.registeredWorld =
     run coopTick (mkEnv Coop.noon (-900) (fun _ => Some Coop.noon)) Coop.registeredWorld.
Proof.
  assert ((540 - (-900)) mod 1440 = 0) as H1 by reflexivity.
  destruct (matching_follows_host_zone Coop.pgTimestamp Coop.pgSelect 540 (-900) Coop.noon)
    as [H2 H3].
  split; [exact H1 |]. split; [apply H2; exact H1 |].
  exact (H3 (fun _ => Some Coop.noon) Coop.registeredWorld H1).
Defined.

(** A request for statistics with [days=x' OR 'a'='a]: the value sits in
    the text of the query the handler sends, the quote included. *)
Example stats_text_with_quote :
  statsSql (Some "x' OR 'a'='a")
  = statsSqlHead ++ "INTERVAL 'x' OR 'a'='a days'" ++ statsSqlTail.
Proof. vm_compute. reflexivity. Qed.

(** Against C1 as stated: the coop reported an [open] at 11:57 and nothing
    after.  No [open] event lies in the window from 12:00 on, however long the
    grace period, and yet no incident is recorded, by 12:06 or at all: the
    tick of 12:00 finds the event of 11:57 within its last five minutes. *)
Lemma open_before_schedule_hides_miss :
  In ("coop", Coop.coopEntry) (deviceConfigs (coopRun Coop.fedAt1157 (boot Coop.emptyDb)))
  /\ currentTime 0 Coop.noon = "12:00"
  /\ isDue "12:00" Coop.coopEntry = true
  /\ (forall grace r,
        300000 <= grace ->
        In r (Pg.feeding_logs
                (db (coopRun (Coop.fedAt1157 ++ Coop.ticksNoonTo1206 0) (boot Coop.emptyDb)))) ->
        ~ (Coop.noon <= Pg.log_timestamp r <= Coop.noon + grace))
  /\ Pg.missed_feedings
       (db (coopRun (Coop.fedAt1157 ++ Coop.ticksNoonTo1206 0) (boot Coop.emptyDb))) = [].
Proof.
  split; [vm_compute; left; reflexivity |].
  split; [vm_compute; reflexivity |].
  split; [vm_compute; reflexivity |].
  split; [| vm_compute; reflexivity].
  intros grace r Hg Hr. vm_compute in Hr. destruct Hr as [<- | []].
  cbn [Pg.log_timestamp]. unfold Coop.noon. lia.
Qed.

(** Against C3 as stated: the tick that fires a quarter of a second after
    12:00:00 files the incident under that very instant, not under 12:00:00. *)
Lemma scheduled_time_keeps_milliseconds :
  currentTime 0 (Coop.noon + 250) = "12:00"
  /\ minuteStart (Coop.noon + 250) = Coop.noon
  /\ map incident_key
       (Pg.missed_feedings
          (db (coopRun (Coop.registeredAt8 ++ [(CronTick, Coop.up (Coop.noon + 250) 0)])
                 (boot Coop.emptyDb))))
     = [("coop", Coop.noon + 250)]
  /\ Coop.noon + 250 <> Coop.noon.
Proof.
  split; [vm_compute; reflexivity |].
  split; [vm_compute; reflexivity |].
  split; [vm_compute; reflexivity |].
  vm_compute. discriminate.
Qed.

(** Against C4 as stated: at one and the same instant, 12:00 UTC, a host on
    UTC matches the entry "12:00" and records the incident; a host nine hours
    east reads 21:00, matches nothing and records nothing. *)
Lemma host_zone_changes_matching :
  currentTime 0 Coop.noon = "12:00"
  /\ currentTime 540 Coop.noon = "21:00"
  /\ isDue (currentTime 0 Coop.noon) Coop.coopEntry = true
  /\ isDue (currentTime 540 Coop.noon) Coop.coopEntry = false
  /\ map incident_key
       (Pg.missed_feedings
          (db (coopRun (Coop.registeredAt8 ++ [(CronTick, Coop.up Coop.noon 0)])
                 (boot Coop.emptyDb))))
     = [("coop", Coop.noon)]
  /\ Pg.missed_feedings
       (db (coopRun (Coop.registeredAt8 ++ [(CronTick, Coop.up Coop.noon 540)])
              (boot Coop.emptyDb)))
     = [].
Proof.
  split; [vm_compute; reflexivity |].
  split; [vm_compute; reflexivity |].
  split; [vm_compute; reflexivity |].
  split; [vm_compute; reflexivity |].
  split; vm_compute; reflexivity.
Qed.

(** Against C6 as stated: a body that satisfies the schema, the store
    unreachable: the answer is 500 and no row is inserted. *)
Lemma valid_event_store_down :
  event_schema_ok Coop.isoDate Coop.convert Coop.openBody
  /\ fst (run (coopPostLog Coop.openBody) (Coop.down 43021000 0) Coop.registeredWorld)
     = Ok (mkResponse 500 InternalServerError)
  /\ Pg.feeding_logs
       (db (coopStep (Http (PostFeedingLog Coop.openBody)) (Coop.down 43021000 0)
              Coop.registeredWorld)) = [].
Proof.
  split; [apply validate_feedingLog; vm_compute; reflexivity |].
  split; vm_compute; reflexivity.
Qed.

(** Against C7 as stated: a body inside the schema for a device with no
    config, the store unreachable: the answer is 500, no row is created in
    device_configs, and the in-memory map holds the device all the same. *)
Lemma valid_config_store_down :
  config_shape_ok Coop.convert Coop.configBody
  /\ fst (run (coopPostConfig Coop.configBody) (Coop.down 28800000 0) (boot Coop.emptyDb))
     = Ok (mkResponse 500 InternalServerError)
  /\ Pg.device_configs
       (db (coopStep (Http (PostDeviceConfig Coop.configBody)) (Coop.down 28800000 0)
              (boot Coop.emptyDb))) = []
  /\ map fst (deviceConfigs
                (coopStep (Http (PostDeviceConfig Coop.configBody)) (Coop.down 28800000 0)
                   (boot Coop.emptyDb))) = ["coop"].
Proof.
  split; [apply validate_configUpdate; vm_compute; reflexivity |].
  split; [vm_compute; reflexivity |].
  split; vm_compute; reflexivity.
Qed.

(** Against C9 as stated: the only POST /api/device/config the process ever
    handled failed with 500, the store being down; at noon the detector
    records an incident for that device. *)
Lemma incident_after_failed_post :
  fst (run (coopPostConfig Coop.configBody) (Coop.down 28800000 0) (boot Coop.emptyDb))
  = Ok (mkResponse 500 InternalServerError)
  /\ map incident_key
       (Pg.missed_feedings
          (db (coopRun [(Http (PostDeviceConfig Coop.configBody), Coop.down 28800000 0);
                        (CronTick, Coop.up Coop.noon 0)]
                 (boot Coop.emptyDb))))
     = [("coop", Coop.noon)].
Proof. split; vm_compute; reflexivity. Qed.

(** Against C2 as stated: two runs of the detector in the minute of 12:00, a
    quarter and three quarters of a second after noon, leave two incidents
    for the coop's one feeding; their keys differ, so the table's constraint
    is not touched. *)
Lemma same_minute_second_incident :
  currentTime 0 (Coop.noon + 250) = currentTime 0 (Coop.noon + 750)
  /\ map incident_key
       (Pg.missed_feedings
          (db (coopRun (Coop.registeredAt8
                          ++ [(CronTick, Coop.up (Coop.noon + 250) 0);
                              (CronTick, Coop.up (Coop.noon + 750) 0)])
                 (boot Coop.emptyDb))))
     = [("coop", Coop.noon + 250); ("coop", Coop.noon + 750)].
Proof.
  split; vm_compute; reflexivity.
Qed.


(** ** The further properties, at the coop *)

Abbreviation coopOperation :=
  (operation Coop.isoDate Coop.convert Coop.pgTimestamp Coop.pgSelect Coop.toISODate).
Abbreviation coopHandle :=
  (handle Coop.isoDate Coop.convert Coop.pgTimestamp Coop.pgSelect Coop.toISODate).

(** X2 at the coop's schedule and the tick a quarter of a second after noon. *)
Lemma feeding_time_due_in_its_minute_witness :
  Forall (fun j => exists s, j = JStr s /\ hhmm s = true) [JStr "12:00"]
  /\ (isDue (currentTime 0 (Coop.noon + 250)) Coop.coopEntry = true
      <-> exists s, In (JStr s) [JStr "12:00"] /\ readFace s = minuteOfDay 0 (Coop.noon + 250)).
Proof.
  assert (Forall (fun j => exists s, j = JStr s /\ hhmm s = true) [JStr "12:00"]) as H1.
  { repeat constructor. exists "12:00". split; reflexivity. }
  split; [exact H1 |].
  exact (feeding_time_due_in_its_minute 0 (Coop.noon + 250) [JStr "12:00"] (JNum (30#1))
           28800000 H1).
Defined.

(** X3 at the dashboard's request for statistics, [days=7]. *)
Lemma statements_fit_their_parameters_witness :
  hasDollar (spliced (Http Coop.dashboardStats)) = false
  /\ Forall (fun q => wellBound q = true)
       (issued (snd (run (coopOperation (Http Coop.dashboardStats)) (Coop.up Coop.noon 0)
                       Coop.registeredWorld))).
Proof.
  assert (hasDollar (spliced (Http Coop.dashboardStats)) = false) as H1 by reflexivity.
  split; [exact H1 |].
  exact (statements_fit_their_parameters Coop.isoDate Coop.convert Coop.pgTimestamp
           Coop.pgSelect Coop.toISODate (Http Coop.dashboardStats) (Coop.up Coop.noon 0)
           Coop.registeredWorld H1).
Defined.

(** X4 at two requests that both give a start date and no end date. *)
Lemma feeding_logs_text_ignores_values_witness :
  given (Some "1970-01-01") = given (Some "1970-01-02")
  /\ given None = given None
  /\ fst (feedingLogsQuery "coop" (Some "1970-01-01") None (Some "50"))
     = fst (feedingLogsQuery "barn" (Some "1970-01-02") None None).
Proof.
  assert (given (Some "1970-01-01") = given (Some "1970-01-02")) as H1 by reflexivity.
  assert (given None = given None) as H2 by reflexivity.
  split; [exact H1 |]. split; [exact H2 |].
  exact (feeding_logs_text_ignores_values "coop" "barn" (Some "1970-01-01")
           (Some "1970-01-02") None None (Some "50") None H1 H2).
Defined.

(** X5 at the dashboard's request for the coop's latest events. *)
Lemma get_requests_only_read_witness :
  isGet Coop.dashboardLogs = true
  /\ Forall (fun q => selects q = true /\ bindsValues q = true)
       (issued (snd (run (coopHandle Coop.dashboardLogs) (Coop.up Coop.noon 0)
                       Coop.registeredWorld)))
  /\ deviceConfigs (coopStep (Http Coop.dashboardLogs) (Coop.up Coop.noon 0)
                      Coop.registeredWorld)
     = deviceConfigs Coop.registeredWorld.
Proof.
  assert (isGet Coop.dashboardLogs = true) as H1 by reflexivity.
  destruct (get_requests_only_read Coop.isoDate Coop.convert Coop.pgTimestamp Coop.pgSelect
              Coop.toISODate Coop.dashboardLogs (Coop.up Coop.noon 0) Coop.registeredWorld H1)
    as (H2 & H3 & _).
  split; [exact H1 |]. split; [exact H2 | exact H3].
Defined.

(** X9 from the empty store through the coop's registration and its event. *)
Lemma device_configs_rows_stay_witness :
  config_keys_unique (Pg.device_configs (db (boot Coop.emptyDb)))
  /\ config_keys_unique
       (Pg.device_configs (db (coopRun Coop.fedAt1157 (boot Coop.emptyDb)))).
Proof.
  assert (config_keys_unique (Pg.device_configs (db (boot Coop.emptyDb)))) as H1
      by constructor.
  destruct (device_configs_rows_stay Coop.isoDate Coop.convert Coop.pgTimestamp
              Coop.pgSelect Coop.toISODate Coop.fedAt1157 (boot Coop.emptyDb) H1) as [H2 _].
  split; [exact H1 | exact H2].
Defined.

(** X10 at the coop, fed at 11:57, and the tick a quarter of a second after
    noon. *)
Lemma reported_open_blocks_incident_witness :
  open_since "coop" 43020000
    (Pg.feeding_logs (db (coopRun Coop.fedAt1157 (boot Coop.emptyDb))))
  /\ (forall i t, store Coop.tickEnv i = Some t -> t - Pg.five_minutes <= 43020000)
  /\ rows_for "coop"
       (Pg.missed_feedings
          (db (coopStep CronTick Coop.tickEnv (coopRun Coop.fedAt1157 (boot Coop.emptyDb)))))
     = rows_for "coop"
         (Pg.missed_feedings (db (coopRun Coop.fedAt1157 (boot Coop.emptyDb)))).
Proof.
  assert (open_since "coop" 43020000
            (Pg.feeding_logs (db (coopRun Coop.fedAt1157 (boot Coop.emptyDb))))) as H1.
  { exists (Pg.mkFeedingLog 1 "coop" "open" 43020000 (JObj []) 43021000).
    split; [vm_compute; left; reflexivity |].
    split; [reflexivity |]. split; [reflexivity |]. vm_compute. discriminate. }
  assert (forall i t, store Coop.tickEnv i = Some t -> t - Pg.five_minutes <= 43020000)
    as H2.
  { intros i t [= <-]. vm_compute. discriminate. }
  split; [exact H1 |]. split; [exact H2 |].
  exact (reported_open_blocks_incident Coop.isoDate Coop.convert Coop.pgTimestamp
           Coop.pgSelect Coop.toISODate Coop.tickEnv
           (coopRun Coop.fedAt1157 (boot Coop.emptyDb)) "coop" 43020000 H1 H2).
Defined.

(** X18 at the row of the view for the coop's event of 11:57. *)
Lemma daily_stats_first_and_last_feeding_witness :
  In Coop.fedStats
     (Pg.daily_feeding_stats (db (coopRun Coop.fedAt1157 (boot Coop.emptyDb))))
  /\ (Pg.first_feeding Coop.fedStats = None <-> Pg.total_opens Coop.fedStats = 0)
  /\ (Pg.last_feeding Coop.fedStats = None <-> Pg.total_closes Coop.fedStats = 0).
Proof.
  assert (In Coop.fedStats
             (Pg.daily_feeding_stats (db (coopRun Coop.fedAt1157 (boot Coop.emptyDb)))))
    as H1 by (vm_compute; left; reflexivity).
  destruct (daily_stats_first_and_last_feeding
              (db (coopRun Coop.fedAt1157 (boot Coop.emptyDb))) Coop.fedStats H1)
    as (H2 & H3 & _).
  split; [exact H1 |]. split; [exact H2 | exact H3].
Defined.

(** X12 at the dashboard's request for statistics with the store down: the
    first query is rejected, the second is not sent. *)
Lemma operation_stops_at_first_rejection_witness :
  store (Coop.down Coop.noon 0) 0%nat = None
  /\ (List.length
        (issued (snd (run (coopOperation (Http Coop.dashboardStats)) (Coop.down Coop.noon 0)
                        Coop.registeredWorld))) <= 0 + 1)%nat.
Proof.
  assert (store (Coop.down Coop.noon 0) 0%nat = None) as H1 by reflexivity.
  split; [exact H1 |].
  exact (operation_stops_at_first_rejection Coop.isoDate Coop.convert Coop.pgTimestamp
           Coop.pgSelect Coop.toISODate (Http Coop.dashboardStats) (Coop.down Coop.noon 0)
           Coop.registeredWorld 0%nat H1).
Defined.

(** A request for statistics with [days=$2]: the text of the first query
    then refers to a second parameter, and one is bound. *)
Example stats_days_with_reference :
  references (statsSql (Some "$2")) = ["1"; "2"]
  /\ wellBound (Pg.Select (statsSql (Some "$2")) [Pg.PJson (JStr "coop")]) = false.
Proof. split; vm_compute; reflexivity. Qed.

(** The theorem of C10 at the dashboard's request, the store up: both
    statistics queries go out, each with [7] in its interval. *)
Lemma stats_query_embeds_days_witness :
  store (Coop.up Coop.noon 0) 0%nat = Some Coop.noon
  /\ Coop.pgSelect (statsSql (Some "7")) [Pg.PJson (JStr "coop")] Coop.noon
       (db Coop.registeredWorld) = Some []
  /\ issued (snd (run (getStats Coop.pgTimestamp Coop.pgSelect "coop" (Some "7"))
                    (Coop.up Coop.noon 0) Coop.registeredWorld))
     = [Pg.Select (statsSql (Some "7")) [Pg.PJson (JStr "coop")];
        Pg.Select (missedStatsSql (Some "7")) [Pg.PJson (JStr "coop")]].
Proof.
  assert (store (Coop.up Coop.noon 0) 0%nat = Some Coop.noon) as H1 by reflexivity.
  assert (Coop.pgSelect (statsSql (Some "7")) [Pg.PJson (JStr "coop")] Coop.noon
            (db Coop.registeredWorld) = Some []) as H2 by reflexivity.
  destruct (stats_query_embeds_days Coop.pgTimestamp Coop.pgSelect "coop" (Some "7")
              (Coop.up Coop.noon 0) Coop.registeredWorld) as (_ & H3 & _).
  split; [exact H1 |]. split; [exact H2 |].
  exact (H3 Coop.noon [] H1 H2).
Defined.
